(** * App Store ratings extractor: a shallow embedding and its properties

    The program ([appstore-ratings-extractor.py]) fetches one App Store
    product page, finds the embedded [productRatings] block with a regular
    expression, decodes it with [json.loads], checks its shape and prints
    three of its fields with [json.dumps].

    Layout of the development:
    - [Text]      Python [str] as a list of code points, literals;
    - [Regex]     [PRODUCT_RATINGS_PATTERN] and [re.search];
    - [Float]     binary64 values, [float(lexeme)] and [repr(float)];
    - [Json]      the values, [json.loads] and [json.dumps] of CPython;
    - the program: [_extract_product_ratings], [fetch_product_ratings],
      [parse_args] and [main];
    - the properties, one section per function.

    What lies outside the program is an input of the model: the HTTP
    exchange is a function from the URL to its outcome, the text of a
    [JSONDecodeError] and of an [argparse] usage message are functions of
    the offending input.  So is what depends on the interpreter's
    version and settings ([Interpreter]): the exceptions that
    [json.loads] and [json.dumps] raise at the digit limit of [int] and
    at the recursion limit, the text that the encoding of [sys.stdout]
    refuses, and the traceback of an exception that nothing catches. *)

From Stdlib Require Import Ascii String ZArith NArith Lia Bool List.
Import ListNotations.

Set Implicit Arguments.

(* ================================================================== *)
(** * Text *)
(* ================================================================== *)

Module Text.

(** A Python [str] is a sequence of Unicode code points. *)
Definition codepoint := N.
Definition pystr := list codepoint.

Definition cp (a : ascii) : codepoint := N_of_ascii a.

(** An ASCII literal. *)
Definition lit (s : string) : pystr := map cp (list_ascii_of_string s).

(** The double quote, U+0022. *)
Definition dquote : codepoint := 34%N.

(** A literal of JSON text, written with an apostrophe wherever the text
    has a double quote: [jlit "{'a': 1}"] is the seven characters of
    the JSON object with key a and value 1. *)
Definition jlit (s : string) : pystr :=
  map (fun a => if Ascii.eqb a "'" then dquote else cp a) (list_ascii_of_string s).

Fixpoint str_eqb (a b : pystr) : bool :=
  match a, b with
  | [], [] => true
  | x :: a', y :: b' => N.eqb x y && str_eqb a' b'
  | _, _ => false
  end.

(** [strip_prefix p s] is the rest of [s] after [p], when [s] starts
    with [p]. *)
Fixpoint strip_prefix (p s : pystr) : option pystr :=
  match p with
  | [] => Some s
  | x :: p' =>
      match s with
      | [] => None
      | y :: s' => if N.eqb x y then strip_prefix p' s' else None
      end
  end.

Definition startswith (p s : pystr) : bool :=
  match strip_prefix p s with Some _ => true | None => false end.

(** [sep.join(parts)] *)
Fixpoint join (sep : pystr) (parts : list pystr) : pystr :=
  match parts with
  | [] => []
  | [p] => p
  | p :: rest => p ++ sep ++ join sep rest
  end.

(** The decimal digits of a natural number, most significant first.
    [digits_from fuel n acc] peels the last digit of [n] at each step;
    [Z.log2 n] steps are enough, since a decimal digit is worth more
    than a bit ([digits_head] below). *)
Fixpoint digits_from (fuel : nat) (n : Z) (acc : list Z) : list Z :=
  match fuel with
  | O => n :: acc
  | S fuel' =>
      if (n <? 10)%Z then n :: acc
      else digits_from fuel' (n / 10)%Z ((n mod 10)%Z :: acc)
  end.

Definition digits (n : Z) : list Z :=
  digits_from (Z.to_nat (Z.log2 n)) n [].

Definition digit_char (d : Z) : codepoint := (48 + Z.to_N d)%N.

(** The decimal text of an [int]: what [str(n)] returns when it
    returns.  [str] raises [ValueError] for an [int] of more digits than
    the interpreter's limit (4300 by default, never below 640); the
    program takes the text of status codes from 400 to 599 only, and
    [json.dumps] that of the numbers of a record, where the limit is
    accounted for by [json_dumps] below. *)
Definition str_of_int (n : Z) : pystr :=
  if (n <? 0)%Z then cp "-" :: map digit_char (digits (- n))
  else map digit_char (digits n).

(** [occurs_at p s i]: the text [p] stands in [s] at offset [i]. *)
Definition occurs_at (p s : pystr) (i : nat) : Prop :=
  exists a b, s = a ++ p ++ b /\ length a = i.

End Text.
Import Text.

(* ================================================================== *)
(** * The marker pattern *)
(* ================================================================== *)

Module Regex.

(** The literal text of the pattern up to its group:
    ["contentType":"productRatings","marker":null,"items":\[] *)
Definition marker : pystr :=
  jlit "'contentType':'productRatings','marker':null,'items':[".

(** [.*?] with [re.DOTALL], followed by the literal [close]: the lazy
    star first tries to stop, and takes one more character (any
    character) only when the rest of the pattern does not match there.
    The result is the text the star ran over and the text after
    [close]. *)
Fixpoint lazy_dotall (close : pystr) (s : pystr) : option (pystr * pystr) :=
  match strip_prefix close s with
  | Some rest => Some ([], rest)
  | None =>
      match s with
      | [] => None
      | c :: s' =>
          match lazy_dotall close s' with
          | Some (u, rest) => Some (c :: u, rest)
          | None => None
          end
      end
  end.

(** [PRODUCT_RATINGS_PATTERN.match(s)]: a match that starts at the first
    character of [s]; the result is [group(1)], the text of
    [(\{.*?\})]. *)
Definition PRODUCT_RATINGS_PATTERN_match (s : pystr) : option pystr :=
  match strip_prefix marker s with
  | None => None
  | Some s1 =>
      match strip_prefix (lit "{") s1 with
      | None => None
      | Some s2 =>
          match lazy_dotall (lit "}]") s2 with
          | None => None
          | Some (u, _) => Some (lit "{" ++ u ++ lit "}")
          end
      end
  end.

(** [PRODUCT_RATINGS_PATTERN.search(s)]: the start positions are tried
    from left to right; the result is the offset of the match and its
    [group(1)]. *)
Fixpoint search_from (i : nat) (s : pystr) : option (nat * pystr) :=
  match PRODUCT_RATINGS_PATTERN_match s with
  | Some g => Some (i, g)
  | None =>
      match s with
      | [] => None
      | _ :: s' => search_from (S i) s'
      end
  end.

Definition PRODUCT_RATINGS_PATTERN_search (s : pystr) : option (nat * pystr) :=
  search_from 0 s.

End Regex.
Import Regex.

(* ================================================================== *)
(** * Floats *)
(* ================================================================== *)

Module Float.

(** A Python [float] is an IEEE 754 binary64: not a number, an infinity,
    or the finite value [(-1)^neg * m * 2^e] with [0 <= m < 2^53] and
    [-1074 <= e <= 971]; the significand of a normal number is at least
    [2^52], a subnormal one has [e = -1074]. *)
Inductive pyfloat :=
| NaN
| Inf (neg : bool)
| Fin (neg : bool) (m e : Z).

Definition emin : Z := -1074.
Definition emax : Z := 971.

Definition float_eqb (a b : pyfloat) : bool :=
  match a, b with
  | NaN, NaN => true
  | Inf s, Inf t => Bool.eqb s t
  | Fin s m e, Fin t n f => Bool.eqb s t && (m =? n)%Z && (e =? f)%Z
  | _, _ => false
  end.

(** The binary64 nearest to the rational [num / den] ([num >= 0],
    [den > 0]), ties to the even significand, an infinity when the
    rounded value is out of range. *)
Definition round_ratio (neg : bool) (num den : Z) : pyfloat :=
  if (num =? 0)%Z then Fin neg 0 emin else
  let l := (Z.log2 num - Z.log2 den)%Z in
  let below := if (0 <=? l)%Z then (den * 2 ^ l <=? num)%Z
               else (den <=? num * 2 ^ (- l))%Z in
  (* floor (log2 (num / den)) *)
  let l := if below then l else (l - 1)%Z in
  let e := Z.max (l - 52) emin in
  let n2 := if (0 <=? e)%Z then num else (num * 2 ^ (- e))%Z in
  let d2 := if (0 <=? e)%Z then (den * 2 ^ e)%Z else den in
  let q := (n2 / d2)%Z in
  let r := (n2 mod d2)%Z in
  let q := if (d2 <? 2 * r)%Z || ((d2 =? 2 * r)%Z && Z.odd q) then (q + 1)%Z else q in
  let e := if (q =? 2 ^ 53)%Z then (e + 1)%Z else e in
  let q := if (q =? 2 ^ 53)%Z then (2 ^ 52)%Z else q in
  if (emax <? e)%Z then Inf neg else Fin neg q e.

(** The float nearest to [mant * 10^exp10]. *)
Definition float_of_decimal (neg : bool) (mant exp10 : Z) : pyfloat :=
  if (0 <=? exp10)%Z then round_ratio neg (mant * 10 ^ exp10) 1
  else round_ratio neg mant (10 ^ (- exp10)).

Definition int_of_digits (ds : list Z) : Z :=
  fold_left (fun acc d => (10 * acc + d)%Z) ds 0%Z.

(** [float(text)] for the text of a JSON number with a fraction or an
    exponent: sign, digits before and after the point, exponent. *)
Definition float_of_parts (neg : bool) (ipart fpart : list Z) (exp : Z) : pyfloat :=
  float_of_decimal neg (int_of_digits (ipart ++ fpart)) (exp - Z.of_nat (length fpart)).

(** ** [repr] *)

(** The position of the decimal point of [num / den > 0]: the [k] with
    [10^(k-1) <= num / den < 10^k]. *)
Fixpoint leading_zeros (fuel : nat) (num den : Z) (j : Z) : Z :=
  match fuel with
  | O => j
  | S fuel' =>
      if (den <=? num * 10)%Z then j
      else leading_zeros fuel' (num * 10)%Z den (j + 1)%Z
  end.

Definition decimal_point (num den : Z) : Z :=
  if (den <=? num)%Z then Z.of_nat (length (digits (num / den)))
  else (- leading_zeros (Z.to_nat (Z.log2 den)) num den 0)%Z.

(** [repr] prints the shortest decimal that reads back as the same
    float, and among those of that length the one nearest to the float.
    With [n] significant digits the two candidates are the [n]-digit
    decimals just below and just above the value; seventeen digits always
    identify a binary64, so the search stops there. *)
Fixpoint shortest_from (fuel : nat) (n : Z) (neg : bool) (m e : Z)
                       (num den k : Z) : positive * Z :=
  let n2 := if (0 <=? n - k)%Z then (num * 10 ^ (n - k))%Z else num in
  let d2 := if (0 <=? n - k)%Z then den else (den * 10 ^ (k - n))%Z in
  let lo := (n2 / d2)%Z in
  let r := (n2 mod d2)%Z in
  let hi := (lo + 1)%Z in
  let reads c := (0 <? c)%Z && float_eqb (float_of_decimal neg c (k - n)) (Fin neg m e) in
  let nearer := if (2 * r <? d2)%Z || ((2 * r =? d2)%Z && Z.even lo) then lo else hi in
  let pick := if reads lo && negb (reads hi) then lo
              else if reads hi && negb (reads lo) then hi
              else nearer in
  match fuel with
  | O => (Z.to_pos pick, (k - n)%Z)
  | S fuel' =>
      if reads lo || reads hi then (Z.to_pos pick, (k - n)%Z)
      else shortest_from fuel' (n + 1)%Z neg m e num den k
  end.

Fixpoint drop_zeros (ds : list Z) : list Z :=
  match ds with
  | 0%Z :: ds' => drop_zeros ds'
  | _ => ds
  end.

Definition strip_trailing_zeros (ds : list Z) : list Z :=
  rev (drop_zeros (rev ds)).

(** The digits of [repr] and the position of the decimal point before
    them: the float is [0.d1d2...dn * 10^decpt]. *)
Definition shortest_digits (neg : bool) (m e : Z) : list Z * Z :=
  let num := if (0 <=? e)%Z then (m * 2 ^ e)%Z else m in
  let den := if (0 <=? e)%Z then 1%Z else (2 ^ (- e))%Z in
  let k := decimal_point num den in
  let '(c, x) := shortest_from 16 1 neg m e num den k in
  let ds := digits (Zpos c) in
  (strip_trailing_zeros ds, (Z.of_nat (length ds) + x)%Z).

Definition two_digits (n : Z) : pystr :=
  if (n <? 10)%Z then cp "0" :: map digit_char (digits n)
  else map digit_char (digits n).

(** The layout of [repr]: exponent notation when the decimal point is
    more than three places before or sixteen places after the first
    digit, else positional notation with at least one digit on each side
    of the point. *)
Definition format_repr (ds : list Z) (decpt : Z) : pystr :=
  let len := Z.of_nat (length ds) in
  if (decpt <=? -4)%Z || (16 <? decpt)%Z then
    let ex := (decpt - 1)%Z in
    map digit_char (firstn 1 ds)
    ++ (match skipn 1 ds with [] => [] | rest => cp "." :: map digit_char rest end)
    ++ cp "e" :: (if (ex <? 0)%Z then cp "-" else cp "+") :: two_digits (Z.abs ex)
  else if (decpt <=? 0)%Z then
    lit "0." ++ repeat (cp "0") (Z.to_nat (- decpt)) ++ map digit_char ds
  else if (len <=? decpt)%Z then
    map digit_char ds ++ repeat (cp "0") (Z.to_nat (decpt - len)) ++ lit ".0"
  else
    map digit_char (firstn (Z.to_nat decpt) ds) ++ cp "." ::
    map digit_char (skipn (Z.to_nat decpt) ds).

Definition sign_text (neg : bool) : pystr := if neg then lit "-" else [].

(** [repr] of a finite float. *)
Definition repr_finite (neg : bool) (m e : Z) : pystr :=
  sign_text neg ++
  (if (m =? 0)%Z then lit "0.0"
   else let '(ds, decpt) := shortest_digits neg m e in format_repr ds decpt).

(** [float.__repr__] *)
Definition float_repr (f : pyfloat) : pystr :=
  match f with
  | NaN => lit "nan"
  | Inf neg => sign_text neg ++ lit "inf"
  | Fin neg m e => repr_finite neg m e
  end.

End Float.
Import Float.

(* ================================================================== *)
(** * JSON *)
(* ================================================================== *)

Module Json.

(** What [json.loads] returns and [json.dumps] takes: [None], [bool],
    [int], [float], [str], [list], and [dict] with [str] keys.  A [dict]
    keeps its items in insertion order. *)
Unset Elimination Schemes.
Inductive Value :=
| PyNone
| PyBool (b : bool)
| PyInt (n : Z)
| PyFloat (f : pyfloat)
| PyStr (s : pystr)
| PyList (items : list Value)
| PyDict (items : list (pystr * Value)).
Set Elimination Schemes.

Definition dict := list (pystr * Value).

(** [d[k]] (the key may be absent) *)
Fixpoint dict_get (d : dict) (k : pystr) : option Value :=
  match d with
  | [] => None
  | (k', v) :: d' => if str_eqb k k' then Some v else dict_get d' k
  end.

(** [k in d] *)
Definition dict_contains (d : dict) (k : pystr) : bool :=
  match dict_get d k with Some _ => true | None => false end.

(** [d[k] = v]: a key already present keeps its place and takes the new
    value, a new key goes last. *)
Fixpoint dict_set (d : dict) (k : pystr) (v : Value) : dict :=
  match d with
  | [] => [(k, v)]
  | (k', v') :: d' =>
      if str_eqb k k' then (k', v) :: d' else (k', v') :: dict_set d' k v
  end.

(** ** Decoding: the scanner of CPython's [_json] *)

Definition is_char (c : codepoint) (a : ascii) : bool := N.eqb c (cp a).

(** The whitespace of JSON: space, tab, line feed, carriage return. *)
Definition is_ws (c : codepoint) : bool :=
  N.eqb c 32 || N.eqb c 9 || N.eqb c 10 || N.eqb c 13.

Fixpoint skip_ws (s : pystr) : pystr :=
  match s with
  | c :: s' => if is_ws c then skip_ws s' else s
  | [] => []
  end.

Definition is_digit (c : codepoint) : bool := N.leb 48 c && N.leb c 57.

Definition digit_value (c : codepoint) : Z := Z.of_N (c - 48).

(** The longest run of ASCII digits at the start of the text. *)
Fixpoint span_digits (s : pystr) : list Z * pystr :=
  match s with
  | c :: s' =>
      if is_digit c then let '(ds, r) := span_digits s' in (digit_value c :: ds, r)
      else ([], s)
  | [] => ([], [])
  end.

Definition hex_value (c : codepoint) : option N :=
  if is_digit c then Some (c - 48)%N
  else if N.leb 97 c && N.leb c 102 then Some (c - 87)%N
  else if N.leb 65 c && N.leb c 70 then Some (c - 55)%N
  else None.

Definition hex4 (a b c d : codepoint) : option N :=
  match hex_value a, hex_value b, hex_value c, hex_value d with
  | Some x, Some y, Some z, Some w => Some (((x * 16 + y) * 16 + z) * 16 + w)%N
  | _, _, _, _ => None
  end.

(** The character a backslash escape other than [\u] stands for. *)
Definition unescape (c : codepoint) : option codepoint :=
  if N.eqb c dquote then Some dquote
  else if is_char c "\" then Some (cp "\")
  else if is_char c "/" then Some (cp "/")
  else if is_char c "b" then Some 8%N
  else if is_char c "f" then Some 12%N
  else if is_char c "n" then Some 10%N
  else if is_char c "r" then Some 13%N
  else if is_char c "t" then Some 9%N
  else None.

Definition is_high_surrogate (u : N) : bool := N.leb 55296 u && N.leb u 56319.
Definition is_low_surrogate (u : N) : bool := N.leb 56320 u && N.leb u 57343.

Definition join_surrogates (hi lo : N) : N :=
  (65536 + N.lor (N.shiftl (hi - 55296) 10) (lo - 56320))%N.

(** [scanstring] in strict mode, from the character after the opening
    quote: the decoded string and the text after the closing quote.
    [None] stands for a [JSONDecodeError] (unterminated string, invalid
    control character, invalid escape). *)
Fixpoint scanstring (s : pystr) : option (pystr * pystr) :=
  let more c r :=
    match scanstring r with
    | Some (t, r') => Some (c :: t, r')
    | None => None
    end in
  match s with
  | [] => None
  | c :: r =>
      if N.eqb c dquote then Some ([], r)
      else if is_char c "\" then
        match r with
        | [] => None
        | esc :: r1 =>
            if is_char esc "u" then
              match r1 with
              | h1 :: h2 :: h3 :: h4 :: r2 =>
                  match hex4 h1 h2 h3 h4 with
                  | None => None
                  | Some uni =>
                      match r2 with
                      | b :: u :: k1 :: k2 :: k3 :: k4 :: (_ :: _) as r3 =>
                          if is_high_surrogate uni && is_char b "\" && is_char u "u" then
                            match hex4 k1 k2 k3 k4 with
                            | None => None
                            | Some uni2 =>
                                if is_low_surrogate uni2
                                then more (join_surrogates uni uni2) r3
                                else more uni r2
                            end
                          else more uni r2
                      | _ => more uni r2
                      end
                  end
              | _ => None
              end
            else
              match unescape esc with
              | Some ch => more ch r1
              | None => None
              end
        end
      else if N.leb c 31 then None
      else more c r
  end.

(** The value of a JSON number: an [int] when the text has neither
    fraction nor exponent, else a [float]. *)
Definition number_value (neg : bool) (ipart fpart : list Z) (exp : option Z) : Value :=
  match fpart, exp with
  | [], None => PyInt (if neg then - int_of_digits ipart else int_of_digits ipart)
  | _, _ => PyFloat (float_of_parts neg ipart fpart (match exp with Some x => x | None => 0%Z end))
  end.

(** The fraction after the integer part: a point followed by at least
    one digit. *)
Definition match_fraction (s : pystr) : list Z * pystr :=
  match s with
  | dot :: d :: r => if is_char dot "." && is_digit d then span_digits (d :: r) else ([], s)
  | _ => ([], s)
  end.

(** The exponent: [e] or [E], an optional sign, at least one digit;
    without a digit nothing is taken. *)
Definition match_exponent (s : pystr) : option Z * pystr :=
  match s with
  | e :: r =>
      if is_char e "e" || is_char e "E" then
        let '(neg, r1) :=
          match r with
          | sg :: r' => if is_char sg "-" then (true, r') else if is_char sg "+" then (false, r') else (false, r)
          | [] => (false, r)
          end in
        match span_digits r1 with
        | ([], _) => (None, s)
        | (ds, r2) => (Some (if neg then - int_of_digits ds else int_of_digits ds)%Z, r2)
        end
      else (None, s)
  | [] => (None, s)
  end.

(** [_match_number]: an optional minus, then [0] or a digit from 1 to 9
    and more digits, then fraction and exponent. *)
Definition match_number (s : pystr) : option (Value * pystr) :=
  let '(neg, s1) :=
    match s with
    | c :: r => if is_char c "-" then (true, r) else (false, s)
    | [] => (false, s)
    end in
  match s1 with
  | [] => None
  | c :: r =>
      let ipart :=
        if is_char c "0" then Some ([0%Z], r)
        else if is_digit c then Some (span_digits s1)
        else None in
      match ipart with
      | None => None
      | Some (ids, s2) =>
          let '(fds, s3) := match_fraction s2 in
          let '(ex, s4) := match_exponent s3 in
          Some (number_value neg ids fds ex, s4)
      end
  end.

(** The outcome of a scan that runs on fuel. *)
Inductive Scan (A : Type) :=
| Ok (a : A)
| Fail
| OutOfFuel.
Arguments Fail {A}.
Arguments OutOfFuel {A}.

(** The constants and the numbers. *)
Definition scan_atom (s : pystr) : Scan (Value * pystr) :=
  let const word v other :=
    match strip_prefix (lit word) s with
    | Some r => Ok (v, r)
    | None => other
    end in
  let number :=
    match match_number s with
    | Some res => Ok res
    | None => Fail
    end in
  match s with
  | [] => Fail
  | c :: _ =>
      if is_char c "n" then const "null"%string PyNone number
      else if is_char c "t" then const "true"%string (PyBool true) number
      else if is_char c "f" then const "false"%string (PyBool false) number
      else if is_char c "N" then const "NaN"%string (PyFloat NaN) number
      else if is_char c "I" then const "Infinity"%string (PyFloat (Inf false)) number
      else if is_char c "-" then const "-Infinity"%string (PyFloat (Inf true)) number
      else number
  end.

(** [scan_once], with the loops of [_parse_array] and [_parse_object]
    over the items; the loops start after the opening bracket and the
    whitespace that follows it. *)
Fixpoint scan_once (fuel : nat) (s : pystr) : Scan (Value * pystr) :=
  match fuel with
  | O => OutOfFuel
  | S fuel' =>
      match s with
      | [] => Fail
      | c :: r =>
          if N.eqb c dquote then
            match scanstring r with
            | Some (t, r') => Ok (PyStr t, r')
            | None => Fail
            end
          else if is_char c "{" then
            match skip_ws r with
            | c' :: r' =>
                if is_char c' "}" then Ok (PyDict [], r')
                else object_loop fuel' (c' :: r') []
            | [] => Fail
            end
          else if is_char c "[" then
            match skip_ws r with
            | c' :: r' =>
                if is_char c' "]" then Ok (PyList [], r')
                else array_loop fuel' (c' :: r') []
            | [] => Fail
            end
          else scan_atom s
      end
  end
with array_loop (fuel : nat) (s : pystr) (acc : list Value) : Scan (Value * pystr) :=
  match fuel with
  | O => OutOfFuel
  | S fuel' =>
      match scan_once fuel' s with
      | Ok (v, r) =>
          match skip_ws r with
          | c :: r' =>
              if is_char c "]" then Ok (PyList (acc ++ [v]), r')
              else if is_char c "," then array_loop fuel' (skip_ws r') (acc ++ [v])
              else Fail
          | [] => Fail
          end
      | Fail => Fail
      | OutOfFuel => OutOfFuel
      end
  end
with object_loop (fuel : nat) (s : pystr) (d : dict) : Scan (Value * pystr) :=
  match fuel with
  | O => OutOfFuel
  | S fuel' =>
      match s with
      | q :: r =>
          if N.eqb q dquote then
            match scanstring r with
            | Some (key, r1) =>
                match skip_ws r1 with
                | colon :: r2 =>
                    if is_char colon ":" then
                      match scan_once fuel' (skip_ws r2) with
                      | Ok (v, r3) =>
                          match skip_ws r3 with
                          | c :: r4 =>
                              if is_char c "}" then Ok (PyDict (dict_set d key v), r4)
                              else if is_char c "," then object_loop fuel' (skip_ws r4) (dict_set d key v)
                              else Fail
                          | [] => Fail
                          end
                      | Fail => Fail
                      | OutOfFuel => OutOfFuel
                      end
                    else Fail
                | [] => Fail
                end
            | None => Fail
            end
          else Fail
      | [] => Fail
      end
  end.

(** The decoder of [json.loads(s)] for a [str]: the value that
    [json.loads] returns, [None] for a [JSONDecodeError], as long as no
    limit of the interpreter is reached; the exceptions of those limits
    are in [json_loads] below, which the program calls.  A text that
    starts with U+FEFF is refused.  A scan takes fewer steps than twice
    the length of the text, so the fuel never runs out ([loads_fuel]
    below). *)
Definition loads (s : pystr) : option Value :=
  if startswith [65279%N] s then None
  else
    match scan_once (2 * length s + 1) (skip_ws s) with
    | Ok (v, r) => match skip_ws r with [] => Some v | _ :: _ => None end
    | _ => None
    end.

(** ** Encoding: [JSONEncoder] with [ensure_ascii=False] *)

Definition hex_digit (n : N) : codepoint :=
  if N.ltb n 10 then (48 + n)%N else (87 + n)%N.

(** [ESCAPE_DCT]: the backslash, the quote and the characters below
    U+0020. *)
Definition escape_char (c : codepoint) : pystr :=
  if N.eqb c dquote then [cp "\"; dquote]
  else if is_char c "\" then [cp "\"; cp "\"]
  else if N.eqb c 8 then lit "\b"
  else if N.eqb c 12 then lit "\f"
  else if N.eqb c 10 then lit "\n"
  else if N.eqb c 13 then lit "\r"
  else if N.eqb c 9 then lit "\t"
  else if N.ltb c 32 then lit "\u00" ++ [hex_digit (c / 16); hex_digit (c mod 16)]
  else [c].

Definition encode_basestring (s : pystr) : pystr :=
  dquote :: flat_map escape_char s ++ [dquote].

(** [floatstr] *)
Definition floatstr (f : pyfloat) : pystr :=
  match f with
  | NaN => lit "NaN"
  | Inf false => lit "Infinity"
  | Inf true => lit "-Infinity"
  | Fin _ _ _ => float_repr f
  end.

(** The line break and indentation before an item at nesting depth
    [level]; nothing when [indent] is [None]. *)
Definition newline_indent (indent : option nat) (level : nat) : pystr :=
  match indent with
  | None => []
  | Some n => 10%N :: repeat (cp " ") (n * level)
  end.

Definition item_separator (indent : option nat) : pystr :=
  match indent with
  | None => lit ", "
  | Some _ => lit ","
  end.

Definition key_separator : pystr := lit ": ".

(** [_iterencode], the pieces joined; [level] is
    [_current_indent_level] on entry. *)
Fixpoint iterencode (indent : option nat) (level : nat) (v : Value) {struct v} : pystr :=
  match v with
  | PyNone => lit "null"
  | PyBool true => lit "true"
  | PyBool false => lit "false"
  | PyInt n => str_of_int n
  | PyFloat f => floatstr f
  | PyStr s => encode_basestring s
  | PyList [] => lit "[]"
  | PyList (x :: xs) =>
      let nl := newline_indent indent (S level) in
      lit "[" ++ nl ++ iterencode indent (S level) x
      ++ flat_map (fun y => item_separator indent ++ nl ++ iterencode indent (S level) y) xs
      ++ newline_indent indent level ++ lit "]"
  | PyDict [] => lit "{}"
  | PyDict ((k, x) :: xs) =>
      let nl := newline_indent indent (S level) in
      lit "{" ++ nl ++ encode_basestring k ++ key_separator ++ iterencode indent (S level) x
      ++ flat_map (fun kv => item_separator indent ++ nl ++ encode_basestring (fst kv)
                             ++ key_separator ++ iterencode indent (S level) (snd kv)) xs
      ++ newline_indent indent level ++ lit "}"
  end.

(** The text of [json.dumps(v, ensure_ascii=False, indent=indent)],
    when it returns one ([json_dumps] below has the exceptions of the
    interpreter's limits). *)
Definition dumps (indent : option nat) (v : Value) : pystr :=
  iterencode indent 0 v.

End Json.
Import Json.

(* ================================================================== *)
(** * The program *)
(* ================================================================== *)

Module Program.

(** The exceptions the program can meet.  [exn_str] is [str(exc)], the
    text [main] prints.  The last three come from the interpreter:
    [ValueError] from the digit limit of [int], [RecursionError] from
    the recursion limit, [UnicodeEncodeError] from the encoding of
    [sys.stdout]. *)
Inductive exn :=
| RuntimeError (msg : pystr)
| KeyError (key : pystr)
| TypeError
| ValueError (msg : pystr)
| RecursionError (msg : pystr)
| UnicodeEncodeError (msg : pystr).

Definition exn_str (e : exn) : pystr :=
  match e with
  | RuntimeError msg => msg
  | KeyError key => lit "'" ++ key ++ lit "'"
  | TypeError => lit "TypeError"
  | ValueError msg => msg
  | RecursionError msg => msg
  | UnicodeEncodeError msg => msg
  end.

Inductive result (A : Type) :=
| Return (a : A)
| Raise (e : exn).
Arguments Raise {A}.

Definition bind {A B : Type} (c : result A) (k : A -> result B) : result B :=
  match c with
  | Return a => k a
  | Raise e => Raise e
  end.

Notation "x <- c ;; k" := (bind c (fun x => k))
  (at level 61, c at next level, right associativity).

(** What [requests.get] followed by [raise_for_status] can meet: a
    [RequestException] of the transport (connection, timeout, DNS, ...)
    whose [str] is [what], or a response.  [raise_for_status] raises
    [HTTPError] exactly for the status codes from 400 to 599. *)
Inductive HttpOutcome :=
| TransportError (what : pystr)
| Response (status_code : Z) (text : pystr).

Definition raises_for_status (status_code : Z) : bool :=
  (400 <=? status_code)%Z && (status_code <? 600)%Z.

Definition HEADERS : list (pystr * pystr) :=
  [ (lit "User-Agent",
     lit "Mozilla/5.0 (Windows NT 10.0; Win64; x64) "
     ++ lit "AppleWebKit/537.36 (KHTML, like Gecko) "
     ++ lit "Chrome/129.0.0.0 Safari/537.36");
    (lit "Accept-Language", lit "en-US,en;q=0.9") ].

Definition required_keys : list pystr :=
  [lit "ratingAverage"; lit "totalNumberOfRatings"; lit "ratingCounts"].

(** The star is U+2605 and the arrow U+279D. *)
Definition shape_message : pystr :=
  lit "ratingCounts must be a list of five integers (5" ++ [9733%N; 32%N; 10141%N; 32%N]
  ++ lit "1" ++ [9733%N] ++ lit ")".

Definition not_found_message : pystr :=
  lit "productRatings block not found in HTML response".

(** [argparse.Namespace] of [parse_args] *)
Record Namespace := { app_id : pystr; country : pystr; pretty : bool }.

(** What [parser.parse_args] does: it returns the namespace, or reports
    a usage error ([parser.error]: usage and message on standard error,
    [SystemExit(2)]). *)
Inductive Parse :=
| Args (ns : Namespace)
| UsageError.

(** The process as its caller sees it. *)
Record Process := { stdout : pystr; stderr : pystr; exit_code : Z }.

(** [f"https://apps.apple.com/{country}/app/id{app_id}"] *)
Definition page_url (app_id country : pystr) : pystr :=
  lit "https://apps.apple.com/" ++ country ++ lit "/app/id" ++ app_id.

(** [argv or sys.argv[1:]] *)
Definition effective_argv (sys_argv : list pystr) (argv : option (list pystr)) : list pystr :=
  match argv with
  | Some (a :: l) => a :: l
  | _ => tl sys_argv
  end.

(** The interpreter the program runs on.  What follows depends on its
    version and settings, and is an input of the model:
    - [loads_limit doc] is the exception other than [JSONDecodeError]
      that [json.loads(doc)] raises, if any: [ValueError] for an [int]
      of more digits than the limit of [int(str)], [RecursionError] for
      containers nested beyond the recursion limit;
    - [dumps_limit indent v] is the exception that [json.dumps] raises
      for [v], if any, for the same two reasons;
    - [encode_error text] is the [UnicodeEncodeError] that writing
      [text] to [sys.stdout] raises, if any: with UTF-8, when the text
      holds a lone surrogate;
    - [traceback exc] is what the interpreter writes on standard error
      for an exception that nothing catches, before it exits with
      status 1. *)
Record Interpreter := {
  loads_limit : pystr -> option exn;
  dumps_limit : option nat -> Value -> option exn;
  encode_error : pystr -> option exn;
  traceback : exn -> pystr
}.

(** A text of at most 256 characters is within the limits of every
    interpreter: the digit limit cannot be set below 640, and the
    recursion limit leaves room for more nested containers than such a
    text can open. *)
Definition short (s : pystr) : bool := (length s <=? 256)%nat.

(** ASCII text: every encoding that [sys.stdout] can have encodes
    it. *)
Definition is_ascii (s : pystr) : bool := forallb (fun c => N.ltb c 128) s.

(** What [json.loads(doc)] does. *)
Inductive Decoded :=
| Loaded (v : Value)
| JSONDecodeError
| LoadsRaises (exc : exn).

Section Run.

(** The interpreter. *)
Variable py : Interpreter.

(** [json.loads(doc)] *)
Definition json_loads (doc : pystr) : Decoded :=
  match (if short doc then None else loads_limit py doc) with
  | Some exc => LoadsRaises exc
  | None =>
      match loads doc with
      | Some v => Loaded v
      | None => JSONDecodeError
      end
  end.

(** [json.dumps(v, ensure_ascii=False, indent=indent)] *)
Definition json_dumps (indent : option nat) (v : Value) : result pystr :=
  match (if short (dumps indent v) then None else dumps_limit py indent v) with
  | Some exc => Raise exc
  | None => Return (dumps indent v)
  end.

(** [print(text, end=ending)] on [sys.stdout]: the result is what is
    written.  The text is encoded before anything is written, so an
    encoding error leaves the stream as it was. *)
Definition print_stdout (text ending : pystr) : result pystr :=
  match (if is_ascii text then None else encode_error py text) with
  | Some exc => Raise exc
  | None => Return (text ++ ending)
  end.

(** [requests.get(url, headers=..., timeout=...)] with
    [raise_for_status], as the outside world answers it. *)
Variable requests_get : pystr -> list (pystr * pystr) -> Z -> HttpOutcome.

(** [str(exc)] of the [JSONDecodeError] that [json.loads] raises on a
    document it cannot decode. *)
Variable decode_error : pystr -> pystr.

(** What [argparse] writes on standard error with a usage error. *)
Variable usage_text : list pystr -> pystr.

(** [sys.argv] *)
Variable sys_argv : list pystr.

(** [_extract_product_ratings(response)], on [response.text].  Of the
    exceptions of [json.loads] the [except] clause takes
    [JSONDecodeError] only; the others go on to the caller.  The
    document handed to [json.loads] starts with a bracket and a brace, so
    what it decodes to is a list whose first item is a [dict]
    ([loads_block_shape] below); the last branch is never taken. *)
Definition _extract_product_ratings (text : pystr) : result dict :=
  match PRODUCT_RATINGS_PATTERN_search text with
  | None => Raise (RuntimeError not_found_message)
  | Some (_, block) =>
      let doc := lit "[" ++ block ++ lit "]" in
      match json_loads doc with
      | LoadsRaises exc => Raise exc
      | JSONDecodeError =>
          Raise (RuntimeError (lit "Failed to decode productRatings JSON: " ++ decode_error doc))
      | Loaded (PyList (PyDict parsed :: _)) =>
          let missing_keys := filter (fun key => negb (dict_contains parsed key)) required_keys in
          match missing_keys with
          | _ :: _ =>
              Raise (RuntimeError (lit "Missing expected keys in productRatings block: "
                                   ++ join (lit ", ") missing_keys))
          | [] =>
              match dict_get parsed (lit "ratingCounts") with
              | Some (PyList rating_counts) =>
                  if negb (length rating_counts =? 5)%nat
                  then Raise (RuntimeError shape_message)
                  else Return parsed
              | Some _ => Raise (RuntimeError shape_message)
              | None => Raise (KeyError (lit "ratingCounts"))
              end
          end
      | Loaded _ => Raise TypeError
      end
  end.

(** [data[key]] *)
Definition getitem (data : dict) (key : pystr) : result Value :=
  match dict_get data key with
  | Some v => Return v
  | None => Raise (KeyError key)
  end.

(** [fetch_product_ratings(app_id, country)] *)
Definition fetch_product_ratings (app_id country : pystr) : result dict :=
  match requests_get (page_url app_id country) HEADERS 15 with
  | TransportError what =>
      Raise (RuntimeError (lit "Failed to fetch App Store page: " ++ what))
  | Response status_code text =>
      if raises_for_status status_code
      then Raise (RuntimeError (lit "App Store page returned HTTP " ++ str_of_int status_code))
      else
        data <- _extract_product_ratings text ;;
        a <- getitem data (lit "ratingAverage") ;;
        t <- getitem data (lit "totalNumberOfRatings") ;;
        c <- getitem data (lit "ratingCounts") ;;
        Return [ (lit "ratingAverage", a);
                 (lit "totalNumberOfRatings", t);
                 (lit "ratingCounts", c) ]
  end.

(** ** The command line *)

Definition is_option (arg : pystr) : bool := startswith (lit "-") arg.

(** The arguments this model of [argparse] reads: the two option strings
    as declared, and anything that does not start with a dash.  Other
    spellings ([-h], [--], abbreviations, [--country=ua], negative
    numbers) are left out. *)
Definition modelled (arg : pystr) : bool :=
  negb (is_option arg) || str_eqb arg (lit "--pretty") || str_eqb arg (lit "--country").

(** One pass over the arguments: [--pretty] sets the flag, [--country]
    takes the next argument, which may not be an option, and the one
    positional argument is [app_id]; a second positional argument, a
    [--country] without its value and a missing [app_id] are usage
    errors. *)
Fixpoint consume (args : list pystr) (id : option pystr) (ctry : pystr) (flag : bool) : Parse :=
  match args with
  | [] =>
      match id with
      | Some a => Args {| app_id := a; country := ctry; pretty := flag |}
      | None => UsageError
      end
  | arg :: rest =>
      if str_eqb arg (lit "--pretty") then consume rest id ctry true
      else if str_eqb arg (lit "--country") then
        match rest with
        | v :: rest' => if is_option v then UsageError else consume rest' id v flag
        | [] => UsageError
        end
      else
        match id with
        | None => consume rest (Some arg) ctry flag
        | Some _ => UsageError
        end
  end.

(** [parse_args(argv)]; [None] when an argument is outside the model. *)
Definition parse_args (argv : list pystr) : option Parse :=
  if forallb modelled argv then Some (consume argv None (lit "ua") false) else None.

(** What [print(json.dumps(summary, ensure_ascii=False, indent=...),
    end=...)] writes when it writes. *)
Definition output (pretty : bool) (summary : dict) : pystr :=
  dumps (if pretty then Some 2%nat else None) (PyDict summary)
  ++ (if pretty then [10%N] else []).

(** [print(json.dumps(summary, ensure_ascii=False, indent=...),
    end=...)]: the indentation is 2 and the ending a line feed with
    [--pretty], none and nothing without. *)
Definition print_summary (pretty : bool) (summary : dict) : result pystr :=
  text <- json_dumps (if pretty then Some 2%nat else None) (PyDict summary) ;;
  print_stdout text (if pretty then [10%N] else []).

(** The body of [main] once the arguments are parsed.  The [try]
    statement holds the call of [fetch_product_ratings] only: an
    exception of the [print] that follows is caught by nothing, and the
    interpreter ends the process with its traceback and status 1. *)
Definition run (args : Namespace) : Process :=
  match fetch_product_ratings (app_id args) (country args) with
  | Raise exc =>
      {| stdout := []; stderr := lit "error: " ++ exn_str exc ++ [10%N]; exit_code := 1 |}
  | Return summary =>
      match print_summary (pretty args) summary with
      | Return written => {| stdout := written; stderr := []; exit_code := 0 |}
      | Raise exc => {| stdout := []; stderr := traceback py exc; exit_code := 1 |}
      end
  end.

(** [raise SystemExit(main(argv))]: [argv or sys.argv[1:]] is parsed,
    and a usage error ends the process before [main] does anything
    else. *)
Definition main (argv : option (list pystr)) : option Process :=
  match parse_args (effective_argv sys_argv argv) with
  | None => None
  | Some UsageError =>
      Some {| stdout := [];
              stderr := usage_text (effective_argv sys_argv argv);
              exit_code := 2 |}
  | Some (Args args) => Some (run args)
  end.

End Run.

End Program.
Import Program.

(* ================================================================== *)
(** * Notions used in the properties *)
(* ================================================================== *)

Unset Implicit Arguments.

(** The checks of [_extract_product_ratings] on the decoded record, on
    their own. *)
Definition check_record (parsed : dict) : result dict :=
  match filter (fun key => negb (dict_contains parsed key)) required_keys with
  | k :: ks =>
      Raise (RuntimeError (lit "Missing expected keys in productRatings block: "
                           ++ join (lit ", ") (k :: ks)))
  | [] =>
      match dict_get parsed (lit "ratingCounts") with
      | Some (PyList rating_counts) =>
          if negb (length rating_counts =? 5)%nat
          then Raise (RuntimeError shape_message)
          else Return parsed
      | Some _ => Raise (RuntimeError shape_message)
      | None => Raise (KeyError (lit "ratingCounts"))
      end
  end.

(** A text without a line feed. *)
Definition single_line (s : pystr) : Prop := ~ In 10%N s.

(** The block of the end-to-end scenario and what the command prints
    for it. *)
Definition scenario_block : pystr :=
  jlit "'contentType':'productRatings','marker':null,'items':[{'ratingAverage':4.5,'totalNumberOfRatings':120,'ratingCounts':[80,20,10,5,5]}]".

Definition scenario_output : pystr :=
  jlit "{'ratingAverage': 4.5, 'totalNumberOfRatings': 120, 'ratingCounts': [80, 20, 10, 5, 5]}".

(** A page that answers every request with the same status and text. *)
Definition fixed_page (status_code : Z) (text : pystr)
  : pystr -> list (pystr * pystr) -> Z -> HttpOutcome :=
  fun _ _ _ => Response status_code text.

(** No text for the errors of the libraries. *)
Definition no_text {A : Type} : A -> pystr := fun _ => [].

(** A page that holds the scenario's block between other text. *)
Definition scenario_page : pystr := lit "<html>" ++ scenario_block ++ lit "</html>".

(** A page with two blocks, the scenario's block second. *)
Definition two_block_page : pystr :=
  jlit "'contentType':'productRatings','marker':null,'items':[{'ratingAverage':1.0,'totalNumberOfRatings':1,'ratingCounts':[0,0,0,0,1]}]"
  ++ scenario_block.

(** A page whose first block has two objects between its brackets. *)
Definition two_object_page : pystr :=
  jlit "'contentType':'productRatings','marker':null,'items':[{'ratingAverage':3.5,'totalNumberOfRatings':2,'ratingCounts':[1,0,0,0,1]},{'ratingAverage':2.0}]"
  ++ scenario_block.

(** A block whose histogram holds five strings. *)
Definition five_strings_page : pystr :=
  jlit "'contentType':'productRatings','marker':null,'items':[{'ratingAverage':4.5,'totalNumberOfRatings':120,'ratingCounts':['a','b','c','d','e']}]".

(** A block whose histogram holds four counts. *)
Definition four_counts_page : pystr :=
  jlit "'contentType':'productRatings','marker':null,'items':[{'ratingAverage':4.5,'totalNumberOfRatings':115,'ratingCounts':[80,20,10,5]}]".

(** A block whose record holds an array of objects before the
    histogram. *)
Definition nested_array_page : pystr :=
  jlit "'contentType':'productRatings','marker':null,'items':[{'ratingAverage':4.5,'badges':[{'kind':'top'}],'totalNumberOfRatings':120,'ratingCounts':[80,20,10,5,5]}]".

(** A network on which every request times out. *)
Definition no_network : pystr -> list (pystr * pystr) -> Z -> HttpOutcome :=
  fun _ _ _ => TransportError (lit "timed out").

(** Whether the text [p] stands somewhere in [s]. *)
Fixpoint contains (p s : pystr) : bool :=
  startswith p s || match s with [] => false | _ :: s' => contains p s' end.

(** UTF-8 with the strict error handler, the usual encoding of
    [sys.stdout]: a surrogate cannot be encoded.  The message is
    written without the character and its position. *)
Definition is_surrogate (c : codepoint) : bool := N.leb 55296 c && N.leb c 57343.

Definition utf8_error (text : pystr) : option exn :=
  if existsb is_surrogate text
  then Some (UnicodeEncodeError (lit "'utf-8' codec can't encode character: surrogates not allowed"))
  else None.

(** A traceback, without the lines that tell the files and the calls:
    its first line and the text of the exception. *)
Definition traceback_text (exc : exn) : pystr :=
  lit "Traceback (most recent call last):" ++ [10%N] ++ exn_str exc ++ [10%N].

(** An interpreter with UTF-8 on [sys.stdout], on documents and records
    that reach none of its limits. *)
Definition cpython_utf8 : Interpreter :=
  {| loads_limit := fun _ => None;
     dumps_limit := fun _ _ => None;
     encode_error := utf8_error;
     traceback := traceback_text |}.


(** A block without two of the required keys. *)
Definition one_key_page : pystr :=
  jlit "'contentType':'productRatings','marker':null,'items':[{'ratingAverage':4.5}]".



(** What [argparse] prints when [app_id] is missing, for a program
    called [extract]. *)
Definition missing_app_id (_ : list pystr) : pystr :=
  lit "usage: extract [-h] [--country COUNTRY] [--pretty] app_id" ++ [10%N]
  ++ lit "extract: error: the following arguments are required: app_id" ++ [10%N].


(** A decimal digit. *)
Definition is_dec (d : Z) : Prop := (0 <= d <= 9)%Z.

(** The digits before the point in a JSON number: a single zero, or
    digits of which the first is not zero. *)
Definition integer_digits (ids : list Z) : Prop :=
  ids = [0%Z] \/ exists h t, ids = h :: t /\ (1 <= h <= 9)%Z /\ Forall is_dec t.

(** The text of a JSON number taken apart: sign, digits before the
    point, digits after it (none: no point), exponent (sign and digits)
    if any. *)
Definition frac_text (fds : list Z) : pystr :=
  match fds with
  | [] => []
  | _ :: _ => cp "." :: map digit_char fds
  end.

Definition exp_text (ex : option (bool * list Z)) : pystr :=
  match ex with
  | None => []
  | Some (neg, eds) => cp "e" :: (if neg then cp "-" else cp "+") :: map digit_char eds
  end.

Definition exp_value (ex : option (bool * list Z)) : option Z :=
  match ex with
  | None => None
  | Some (neg, eds) => Some (if neg then - int_of_digits eds else int_of_digits eds)%Z
  end.

Definition number_text (neg : bool) (ids fds : list Z) (ex : option (bool * list Z)) : pystr :=
  sign_text neg ++ map digit_char ids ++ frac_text fds ++ exp_text ex.

(** A text after which a number cannot go on: it is empty or starts
    with a comma, a closing bracket or brace, or whitespace.  That is
    what follows a value in the output of the encoder. *)
Definition stops (rest : pystr) : bool :=
  match rest with
  | [] => true
  | c :: _ => is_char c "," || is_char c "]" || is_char c "}" || is_ws c
  end.

(** A text without control characters: nothing below U+0020, so no line
    feed, carriage return or tab. *)
Definition no_control (s : pystr) : Prop := Forall (fun c => (32 <= c)%N) s.

(** A character a JSON value can start with, as the encoder writes
    values. *)
Definition value_start (c : codepoint) : bool :=
  N.eqb c dquote || is_char c "{" || is_char c "[" || is_char c "n" || is_char c "t"
  || is_char c "f" || is_char c "N" || is_char c "I" || is_char c "-" || is_digit c.

(** The value of a number text, as the scanner reads it. *)
Definition reparse_number (text : pystr) : Value :=
  match match_number text with
  | Some (v, _) => v
  | None => PyNone
  end.

(** What the scanner makes of the encoder's output for a value: a float
    is read from its [repr], and the items of a [dict] are set one after
    the other, so that of two items with one key the later one stays. *)
Fixpoint reparse (v : Value) : Value :=
  match v with
  | PyFloat (Fin neg m e) => reparse_number (repr_finite neg m e)
  | PyList items => PyList (map reparse items)
  | PyDict items =>
      PyDict (fold_left (fun d kv => dict_set d (fst kv) (snd kv))
                        (map (fun kv => (fst kv, reparse (snd kv))) items) [])
  | _ => v
  end.

(** The fuel the scanner takes on the encoder's output for a value. *)
Fixpoint size (v : Value) : nat :=
  match v with
  | PyList items => S (list_sum (map (fun x => S (size x)) items))
  | PyDict items => S (list_sum (map (fun kv => S (size (snd kv))) items))
  | _ => 1
  end.

(** The items of a [dict] as the scanner sets them. *)
Definition set_items (d : dict) (items : list (pystr * Value)) : dict :=
  fold_left (fun d kv => dict_set d (fst kv) (snd kv))
            (map (fun kv => (fst kv, reparse (snd kv))) items) d.

(** What the scanner makes of the encoder's output for one value, with
    enough fuel. *)
Definition scans_back (indent : option nat) (level : nat) (v : Value) : Prop :=
  forall rest fuel,
    stops rest = true -> (size v <= fuel)%nat ->
    scan_once fuel (iterencode indent level v ++ rest) = Ok (reparse v, rest).


(** ** Notions for the rounding of [round_ratio] *)

(** [2^l <= num / den] *)
Definition ge_pow2 (num den l : Z) : bool :=
  if (0 <=? l)%Z then (den * 2 ^ l <=? num)%Z else (den <=? num * 2 ^ (- l))%Z.

(** The [l] with [2^l <= num / den < 2^(l+1)], as [round_ratio] finds
    it. *)
Definition floor_log2 (num den : Z) : Z :=
  let l := (Z.log2 num - Z.log2 den)%Z in
  if ge_pow2 num den l then l else (l - 1)%Z.

(** Numerator and denominator of [num / den / 2^e]. *)
Definition scaled_num (num e : Z) : Z := if (0 <=? e)%Z then num else (num * 2 ^ (- e))%Z.
Definition scaled_den (den e : Z) : Z := if (0 <=? e)%Z then (den * 2 ^ e)%Z else den.

(** The rounding of [round_ratio] once the exponent is known. *)
Definition round_at (neg : bool) (num den e : Z) : pyfloat :=
  let n2 := scaled_num num e in
  let d2 := scaled_den den e in
  let q := (n2 / d2)%Z in
  let r := (n2 mod d2)%Z in
  let q := if (d2 <? 2 * r)%Z || ((d2 =? 2 * r)%Z && Z.odd q) then (q + 1)%Z else q in
  let e := if (q =? 2 ^ 53)%Z then (e + 1)%Z else e in
  let q := if (q =? 2 ^ 53)%Z then (2 ^ 52)%Z else q in
  if (emax <? e)%Z then Inf neg else Fin neg q e.

(** A binary64 as the decoder makes it: the significand below [2^53],
    the exponent in range, and the least exponent for a significand
    below [2^52]. *)
Definition canonical_float (f : pyfloat) : bool :=
  match f with
  | Fin _ m e =>
      (0 <=? m)%Z && (m <? 2 ^ 53)%Z && (emin <=? e)%Z && (e <=? emax)%Z
      && ((2 ^ 52 <=? m)%Z || (e =? emin)%Z)
  | _ => true
  end.

(** Numerator and denominator of [num / den * 10^(n-k)], the value
    whose integer part is the candidate of [n] digits. *)
Definition dec_num (n num k : Z) : Z :=
  if (0 <=? n - k)%Z then (num * 10 ^ (n - k))%Z else num.
Definition dec_den (n den k : Z) : Z :=
  if (0 <=? n - k)%Z then den else (den * 10 ^ (k - n))%Z.

(** A candidate that reads back as the float. *)
Definition reads_back (neg : bool) (m e x c : Z) : bool :=
  (0 <? c)%Z && float_eqb (float_of_decimal neg c x) (Fin neg m e).

(** The candidate of [n] digits nearest to the value. *)
Definition nearer_candidate (n num den k : Z) : Z :=
  let lo := (dec_num n num k / dec_den n den k)%Z in
  let r := (dec_num n num k mod dec_den n den k)%Z in
  if (2 * r <? dec_den n den k)%Z || ((2 * r =? dec_den n den k)%Z && Z.even lo)
  then lo else (lo + 1)%Z.

(** The candidate [shortest_from] settles on with [n] digits. *)
Definition pick_candidate (n : Z) (neg : bool) (m e num den k : Z) : Z :=
  let lo := (dec_num n num k / dec_den n den k)%Z in
  let hi := (lo + 1)%Z in
  if reads_back neg m e (k - n) lo && negb (reads_back neg m e (k - n) hi) then lo
  else if reads_back neg m e (k - n) hi && negb (reads_back neg m e (k - n) lo) then hi
  else nearer_candidate n num den k.

(** ** Values as the decoder makes them *)

(** No key twice. *)
Fixpoint unique_keys (keys : list pystr) : bool :=
  match keys with
  | [] => true
  | k :: rest => negb (existsb (str_eqb k) rest) && unique_keys rest
  end.

(** A value as [json.loads] makes it: the floats are binary64 values in
    their one representation, and no [dict] has a key twice. *)
Fixpoint canonical (v : Value) : bool :=
  match v with
  | PyFloat f => canonical_float f
  | PyList items => forallb canonical items
  | PyDict items =>
      unique_keys (map fst items) && forallb (fun kv => canonical (snd kv)) items
  | _ => true
  end.

(** A record with whole numbers only. *)
Definition small_record : dict :=
  [ (lit "ratingAverage", PyInt 4);
    (lit "totalNumberOfRatings", PyInt 9);
    (lit "ratingCounts", PyList [PyInt 5; PyInt 2; PyInt 1; PyInt 0; PyInt 1]) ].
(* ================================================================== *)
(** * Facts about text *)
(* ================================================================== *)

Section TextFacts.

Lemma str_eqb_eq (a b : pystr) : str_eqb a b = true <-> a = b.
Proof.
  revert b; induction a as [|x a IH]; intros [|y b]; simpl; split;
    try congruence; try reflexivity.
  - intros H. apply andb_true_iff in H as [Hx Hab].
    apply N.eqb_eq in Hx. apply IH in Hab. congruence.
  - intros H. injection H as -> ->.
    apply andb_true_iff; split; [apply N.eqb_refl | now apply IH].
Qed.

Lemma str_eqb_refl (a : pystr) : str_eqb a a = true.
Proof. now apply str_eqb_eq. Qed.

Lemma str_eqb_neq (a b : pystr) : str_eqb a b = false <-> a <> b.
Proof.
  split.
  - intros H E. apply str_eqb_eq in E. congruence.
  - intros H. destruct (str_eqb a b) eqn:E; [|reflexivity].
    apply str_eqb_eq in E. contradiction.
Qed.

Lemma strip_prefix_app (p s : pystr) : strip_prefix p (p ++ s) = Some s.
Proof.
  induction p as [|x p IH]; simpl; [reflexivity|].
  now rewrite N.eqb_refl.
Qed.

Lemma strip_prefix_some (p s r : pystr) :
  strip_prefix p s = Some r <-> s = p ++ r.
Proof.
  split.
  - revert s; induction p as [|x p IH]; intros s; simpl.
    + congruence.
    + destruct s as [|y s]; [discriminate|].
      destruct (N.eqb x y) eqn:E; [|discriminate].
      apply N.eqb_eq in E; subst y. intros H. now rewrite (IH _ H).
  - intros ->. apply strip_prefix_app.
Qed.

Lemma strip_prefix_none (p s : pystr) :
  strip_prefix p s = None <-> ~ occurs_at p s 0.
Proof.
  split.
  - intros H (a & b & E & La). destruct a; [|discriminate]. simpl in E.
    subst s. now rewrite strip_prefix_app in H.
  - intros H. destruct (strip_prefix p s) as [r|] eqn:E; [|reflexivity].
    exfalso. apply H. apply strip_prefix_some in E. now exists [], r.
Qed.

Lemma occurs_at_skipn (p s : pystr) (i : nat) :
  occurs_at p s i <-> (i <= length s)%nat /\ occurs_at p (skipn i s) 0.
Proof.
  split.
  - intros (a & b & -> & <-). split.
    + rewrite length_app. lia.
    + exists [], b. split; [|reflexivity].
      rewrite skipn_app, Nat.sub_diag, skipn_all. reflexivity.
  - intros [Hi (a & b & E & La)]. destruct a; [|discriminate]. simpl in E.
    exists (firstn i s), b. split.
    + rewrite <- E. symmetry. apply firstn_skipn.
    + rewrite length_firstn. lia.
Qed.

Lemma occurs_at_app_l (p q s : pystr) (i : nat) :
  occurs_at (p ++ q) s i -> occurs_at p s i.
Proof.
  intros (a & b & -> & <-). exists a, (q ++ b). now rewrite <- app_assoc.
Qed.

Lemma occurs_at_app_r (p q s : pystr) (i : nat) :
  occurs_at (p ++ q) s i -> occurs_at q s (i + length p).
Proof.
  intros (a & b & -> & <-). exists (a ++ p), b. split.
  - now rewrite <- !app_assoc.
  - apply length_app.
Qed.

End TextFacts.

(* ================================================================== *)
(** * Facts about the search *)
(* ================================================================== *)

Section RegexFacts.

Lemma lazy_dotall_some (close s u rest : pystr) :
  lazy_dotall close s = Some (u, rest) -> s = u ++ close ++ rest.
Proof.
  revert u; induction s as [|c s IH]; intros u; simpl.
  - destruct (strip_prefix close []) eqn:E; [|discriminate].
    intros H; injection H as <- <-. now apply strip_prefix_some in E.
  - destruct (strip_prefix close (c :: s)) eqn:E.
    + intros H; injection H as <- <-. now apply strip_prefix_some in E.
    + destruct (lazy_dotall close s) as [[u' r']|]; [|discriminate].
      intros H; injection H as <- <-. simpl. f_equal. now apply IH.
Qed.

(** A match needs the marker and the opening brace where it starts. *)
Lemma match_needs_marker (s : pystr) :
  ~ occurs_at (marker ++ lit "{") s 0 -> PRODUCT_RATINGS_PATTERN_match s = None.
Proof.
  intros H. unfold PRODUCT_RATINGS_PATTERN_match.
  destruct (strip_prefix marker s) as [s1|] eqn:E1; [|reflexivity].
  destruct (strip_prefix (lit "{") s1) as [s2|] eqn:E2; [|reflexivity].
  exfalso. apply H. apply strip_prefix_some in E1, E2. subst.
  exists [], s2. now rewrite <- app_assoc.
Qed.

Lemma search_from_skip (pre s : pystr) (i : nat) :
  (forall j, (j < length pre)%nat ->
             PRODUCT_RATINGS_PATTERN_match (skipn j (pre ++ s)) = None) ->
  search_from i (pre ++ s) = search_from (i + length pre) s.
Proof.
  revert i; induction pre as [|c pre IH]; intros i H.
  - simpl. now rewrite Nat.add_0_r.
  - pose proof (H 0%nat) as H0. simpl in H0.
    simpl. rewrite H0 by lia. rewrite IH.
    + f_equal. lia.
    + intros j Hj. apply (H (S j)). simpl; lia.
Qed.

(** The offset that [search_from] reports is the first one where the
    pattern matches, counted from its start offset. *)
Lemma search_from_first (s : pystr) (i j : nat) (g : pystr) :
  search_from i s = Some (j, g) ->
  exists k, j = (i + k)%nat /\ (k <= length s)%nat
            /\ PRODUCT_RATINGS_PATTERN_match (skipn k s) = Some g
            /\ forall k', (k' < k)%nat -> PRODUCT_RATINGS_PATTERN_match (skipn k' s) = None.
Proof.
  revert i; induction s as [|c s IH]; intros i; cbn [search_from].
  - destruct (PRODUCT_RATINGS_PATTERN_match []) eqn:E; [|discriminate].
    intros H; injection H as <- <-. exists 0%nat.
    repeat split; [lia | simpl; lia | exact E | intros; lia].
  - destruct (PRODUCT_RATINGS_PATTERN_match (c :: s)) eqn:E.
    + intros H; injection H as <- <-. exists 0%nat.
      repeat split; [lia | simpl; lia | exact E | intros; lia].
    + intros H. destruct (IH _ H) as (k & -> & Hk & Hm & Hfirst).
      exists (S k). repeat split; [lia | simpl; lia | exact Hm |].
      intros [|k'] Hk'; [exact E | apply Hfirst; lia].
Qed.

Lemma search_from_none (s : pystr) (i : nat) :
  (forall k, (k <= length s)%nat -> PRODUCT_RATINGS_PATTERN_match (skipn k s) = None) ->
  search_from i s = None.
Proof.
  revert i; induction s as [|c s IH]; intros i H;
    pose proof (H 0%nat (Nat.le_0_l _)) as H0; simpl in H0;
    cbn [search_from]; rewrite H0; [reflexivity|].
  apply IH. intros k Hk. apply (H (S k)). simpl; lia.
Qed.

(** Without the marker text anywhere, the search finds nothing. *)
Lemma search_needs_marker (s : pystr) :
  (forall i, ~ occurs_at (marker ++ lit "{") s i) ->
  PRODUCT_RATINGS_PATTERN_search s = None.
Proof.
  intros H. apply search_from_none. intros k Hk.
  apply match_needs_marker. intros Hocc. apply (H k).
  apply occurs_at_skipn. now split.
Qed.

(** A match at offset [length pre] that no earlier offset offers is the
    one the search returns. *)
Lemma search_first_match (pre s g : pystr) :
  (forall j, (j < length pre)%nat -> ~ occurs_at (marker ++ lit "{") (pre ++ s) j) ->
  PRODUCT_RATINGS_PATTERN_match s = Some g ->
  PRODUCT_RATINGS_PATTERN_search (pre ++ s) = Some (length pre, g).
Proof.
  intros Hpre Hm. unfold PRODUCT_RATINGS_PATTERN_search.
  rewrite search_from_skip.
  - destruct s; cbn [search_from]; now rewrite Hm.
  - intros j Hj. apply match_needs_marker. intros Hocc. apply (Hpre j Hj).
    apply occurs_at_skipn. split; [rewrite length_app; lia | exact Hocc].
Qed.

End RegexFacts.

(* ================================================================== *)
(** * Induction on values *)
(* ================================================================== *)

Section ValueInduction.

Variable P : Value -> Prop.
Hypothesis P_none : P PyNone.
Hypothesis P_bool : forall b, P (PyBool b).
Hypothesis P_int : forall n, P (PyInt n).
Hypothesis P_float : forall f, P (PyFloat f).
Hypothesis P_str : forall s, P (PyStr s).
Hypothesis P_list : forall items, Forall P items -> P (PyList items).
Hypothesis P_dict : forall items, Forall (fun kv => P (snd kv)) items -> P (PyDict items).

Fixpoint Value_ind (v : Value) : P v :=
  match v with
  | PyNone => P_none
  | PyBool b => P_bool b
  | PyInt n => P_int n
  | PyFloat f => P_float f
  | PyStr s => P_str s
  | PyList items =>
      P_list items ((fix all (l : list Value) : Forall P l :=
                 match l with
                 | [] => Forall_nil P
                 | x :: l' => Forall_cons x (Value_ind x) (all l')
                 end) items)
  | PyDict items =>
      P_dict items ((fix all (l : list (pystr * Value)) : Forall (fun kv => P (snd kv)) l :=
                 match l with
                 | [] => Forall_nil _
                 | kv :: l' => Forall_cons kv (Value_ind (snd kv)) (all l')
                 end) items)
  end.

End ValueInduction.

Section EncoderFacts.

Lemma flat_map_ext_Forall {A B : Type} (f g : A -> list B) (l : list A) :
  Forall (fun x => f x = g x) l -> flat_map f l = flat_map g l.
Proof.
  induction 1 as [|x l Hx _ IH]; simpl; [reflexivity|]. now rewrite Hx, IH.
Qed.

(** Without indentation the nesting depth leaves no trace in the
    text. *)
Lemma iterencode_compact_level (v : Value) (l l' : nat) :
  iterencode None l v = iterencode None l' v.
Proof.
  revert l l'; induction v as [| | | | |items IH|items IH] using Value_ind;
    intros l l'; try reflexivity.
  - destruct items as [|x xs]; [reflexivity|].
    inversion IH as [|? ? Hx Hxs]; subst. cbn [iterencode newline_indent app].
    rewrite (Hx (S l) (S l')). do 2 f_equal.
    f_equal. apply flat_map_ext_Forall.
    eapply Forall_impl; [|exact Hxs]. intros y Hy. cbn beta.
    now rewrite (Hy (S l) (S l')).
  - destruct items as [|[k x] xs]; [reflexivity|].
    inversion IH as [|? ? Hx Hxs]; subst. cbn [iterencode newline_indent app snd] in *.
    rewrite (Hx (S l) (S l')). do 4 f_equal.
    f_equal. apply flat_map_ext_Forall.
    eapply Forall_impl; [|exact Hxs]. intros y Hy. cbn beta.
    now rewrite (Hy (S l) (S l')).
Qed.

End EncoderFacts.

(* ================================================================== *)
(** * The shape of a decoded block *)
(* ================================================================== *)

Section BlockShape.

Lemma object_loop_dict (fuel : nat) (s : pystr) (d : dict) (v : Value) (r : pystr) :
  object_loop fuel s d = Ok (v, r) -> exists d', v = PyDict d'.
Proof.
  revert s d; induction fuel as [|fuel IH]; intros s d; [discriminate|].
  cbn [object_loop].
  destruct s as [|q s1]; [discriminate|].
  destruct (N.eqb q dquote); [|discriminate].
  destruct (scanstring s1) as [[key r1]|]; [|discriminate].
  destruct (skip_ws r1) as [|colon r2]; [discriminate|].
  destruct (is_char colon ":"); [|discriminate].
  destruct (scan_once fuel (skip_ws r2)) as [[v3 r3]| |]; try discriminate.
  destruct (skip_ws r3) as [|c r4]; [discriminate|].
  destruct (is_char c "}").
  - intros H; injection H as <- <-. eauto.
  - destruct (is_char c ","); [|discriminate]. apply IH.
Qed.

Lemma array_loop_items (fuel : nat) (s : pystr) (acc : list Value) (v : Value) (r : pystr) :
  array_loop fuel s acc = Ok (v, r) ->
  exists x r1 more, scan_once (pred fuel) s = Ok (x, r1) /\ v = PyList (acc ++ x :: more).
Proof.
  revert s acc; induction fuel as [|fuel IH]; intros s acc; [discriminate|].
  cbn [array_loop pred].
  destruct (scan_once fuel s) as [[x r1]| |] eqn:E; try discriminate.
  destruct (skip_ws r1) as [|c r2]; [discriminate|].
  destruct (is_char c "]").
  - intros H; injection H as <- <-. exists x, r1, []. now split.
  - destruct (is_char c ","); [|discriminate]. intros H.
    destruct (IH _ _ H) as (y & ry & more & _ & ->).
    exists x, r1, (y :: more). split; [reflexivity|].
    now rewrite <- app_assoc.
Qed.

(** The text that [_extract_product_ratings] decodes is the captured
    group between brackets; the group starts with a brace.  Whatever it
    decodes to is a list that starts with a [dict]. *)
Lemma loads_block_shape (u : pystr) (v : Value) :
  loads (lit "[" ++ (lit "{" ++ u) ++ lit "]") = Some v ->
  exists parsed rest, v = PyList (PyDict parsed :: rest).
Proof.
  unfold loads. cbn [lit list_ascii_of_string map app].
  change (cp "[") with 91%N. change (cp "{") with 123%N.
  cbn [skip_ws is_ws N.eqb Pos.eqb orb].
  match goal with |- context [scan_once ?n _] => destruct n as [|fuel] eqn:En end;
    [lia|].
  cbn [scan_once]. change (N.eqb 91%N dquote) with false.
  change (is_char 91%N "{") with false. change (is_char 91%N "[") with true.
  cbn [skip_ws is_ws N.eqb Pos.eqb orb]. change (is_char 123%N "]") with false.
  cbv iota.
  match goal with |- context [array_loop ?f ?s ?a] =>
    destruct (array_loop f s a) as [[w r]| |] eqn:E end; try discriminate.
  destruct (skip_ws r); [|discriminate]. intros H; injection H as <-.
  destruct (array_loop_items _ _ _ _ _ E) as (x & r1 & more & Hx & ->).
  destruct (pred fuel) as [|fuel']; [discriminate|].
  cbn [scan_once] in Hx. change (N.eqb 123%N dquote) with false in Hx.
  change (is_char 123%N "{") with true in Hx. cbv iota in Hx.
  match type of Hx with context [skip_ws ?s] =>
    destruct (skip_ws s) as [|c' r'] end; [discriminate|].
  destruct (is_char c' "}").
  - injection Hx as <- <-. now exists [], more.
  - apply object_loop_dict in Hx as [d' ->]. now exists d', more.
Qed.

End BlockShape.


(* ================================================================== *)
(** * Facts about the program *)
(* ================================================================== *)

Section RecordFacts.

Lemma dict_contains_get (d : dict) (k : pystr) :
  dict_contains d k = true <-> exists v, dict_get d k = Some v.
Proof.
  unfold dict_contains. destruct (dict_get d k); split; eauto; try discriminate.
  intros [v H]; discriminate.
Qed.

Lemma filter_nil_all {A : Type} (f : A -> bool) (l : list A) :
  filter f l = [] -> forall x, In x l -> f x = false.
Proof.
  induction l as [|y l IH]; simpl; [contradiction|].
  destruct (f y) eqn:E; [discriminate|].
  intros H x [->|Hx]; auto.
Qed.

(** A record that passes the checks has the three keys, and its
    [ratingCounts] is a list of five items. *)
Lemma check_record_return (parsed d : dict) :
  check_record parsed = Return d ->
  d = parsed
  /\ (forall k, In k required_keys -> exists v, dict_get parsed k = Some v)
  /\ exists counts, dict_get parsed (lit "ratingCounts") = Some (PyList counts)
                    /\ length counts = 5%nat.
Proof.
  unfold check_record.
  destruct (filter _ required_keys) eqn:Hf; [|discriminate].
  destruct (dict_get parsed (lit "ratingCounts")) as [[| | | | |counts|]|] eqn:Hg;
    try discriminate.
  destruct (length counts =? 5)%nat eqn:Hn; [|discriminate].
  cbn [negb]. intros H; injection H as <-.
  split; [reflexivity|]. split.
  - intros k Hk. apply dict_contains_get.
    pose proof (filter_nil_all _ _ Hf k Hk) as Hc. cbn beta in Hc.
    now destruct (dict_contains parsed k).
  - exists counts. split; [reflexivity|]. now apply Nat.eqb_eq.
Qed.

Lemma single_line_check (s : pystr) :
  existsb (N.eqb 10) s = false -> single_line s.
Proof.
  intros H Hin. assert (existsb (N.eqb 10) s = true); [|congruence].
  apply existsb_exists. exists 10%N. split; [exact Hin | reflexivity].
Qed.

Lemma single_line_app (a b : pystr) :
  single_line a -> single_line b -> single_line (a ++ b).
Proof. unfold single_line. intros Ha Hb Hin. apply in_app_or in Hin. tauto. Qed.


(** A record that fails the checks fails with a [RuntimeError] whose
    message is a single line. *)
Lemma check_record_raise (parsed : dict) (e : exn) :
  check_record parsed = Raise e ->
  exists msg, e = RuntimeError msg /\ single_line msg.
Proof.
  unfold check_record, required_keys. cbn [filter].
  assert (Hshape : single_line shape_message) by (now apply single_line_check).
  destruct (negb (dict_contains parsed (lit "ratingAverage")));
  destruct (negb (dict_contains parsed (lit "totalNumberOfRatings")));
  destruct (negb (dict_contains parsed (lit "ratingCounts"))) eqn:Hc;
    try (intros H; injection H as <-; eexists; split; [reflexivity|];
         now apply single_line_check).
  unfold dict_contains in Hc.
  destruct (dict_get parsed (lit "ratingCounts")) as [[| | | | |counts|]|];
    try discriminate;
    try (intros H; injection H as <-; eauto).
  destruct (negb (length counts =? 5)%nat); [|discriminate].
  intros H; injection H as <-; eauto.
Qed.

Lemma search_group_shape (text block : pystr) (i : nat) :
  PRODUCT_RATINGS_PATTERN_search text = Some (i, block) ->
  exists u, block = lit "{" ++ u.
Proof.
  intros H. apply search_from_first in H as (k & _ & _ & Hm & _).
  unfold PRODUCT_RATINGS_PATTERN_match in Hm.
  destruct (strip_prefix marker _); [|discriminate].
  destruct (strip_prefix (lit "{") _); [|discriminate].
  destruct (lazy_dotall _ _) as [[u r]|]; [|discriminate].
  injection Hm as <-. now exists (u ++ lit "}").
Qed.

End RecordFacts.

Lemma raises_for_status_false (status_code : Z) :
  raises_for_status status_code = false <-> ~ (400 <= status_code < 600)%Z.
Proof.
  unfold raises_for_status. rewrite andb_false_iff, Z.leb_gt, Z.ltb_ge. lia.
Qed.

(** The text of the summary on one line. *)
Lemma output_compact_text (a t c : Value) :
  output false [ (lit "ratingAverage", a);
                 (lit "totalNumberOfRatings", t);
                 (lit "ratingCounts", c) ]
  = jlit "{'ratingAverage': " ++ dumps None a
    ++ jlit ", 'totalNumberOfRatings': " ++ dumps None t
    ++ jlit ", 'ratingCounts': " ++ dumps None c ++ lit "}".
Proof.
  unfold output, dumps. cbn [iterencode flat_map newline_indent fst snd app].
  rewrite (iterencode_compact_level a 1 0), (iterencode_compact_level t 1 0),
    (iterencode_compact_level c 1 0).
  rewrite app_nil_r.
  change (encode_basestring (lit "ratingAverage")) with (jlit "'ratingAverage'").
  change (encode_basestring (lit "totalNumberOfRatings")) with (jlit "'totalNumberOfRatings'").
  change (encode_basestring (lit "ratingCounts")) with (jlit "'ratingCounts'").
  unfold item_separator, key_separator.
  repeat (rewrite <- ?app_assoc; cbn [lit jlit list_ascii_of_string map app]).
  reflexivity.
Qed.


(** What the decoder makes of the printed summary. *)
Lemma reparse_summary (a t c : Value) :
  reparse (PyDict [ (lit "ratingAverage", a);
                    (lit "totalNumberOfRatings", t);
                    (lit "ratingCounts", c) ])
  = PyDict [ (lit "ratingAverage", reparse a);
             (lit "totalNumberOfRatings", reparse t);
             (lit "ratingCounts", reparse c) ].
Proof. reflexivity. Qed.

(* ================================================================== *)
(** * Properties of the extraction and of the command *)
(* ================================================================== *)

(** The search finds a match wherever one is, and the leftmost one. *)
Lemma search_from_complete (s : pystr) (i j : nat) (g : pystr) :
  PRODUCT_RATINGS_PATTERN_match (skipn j s) = Some g ->
  exists k block,
    search_from i s = Some ((i + k)%nat, block) /\ (k <= j)%nat
    /\ PRODUCT_RATINGS_PATTERN_match (skipn k s) = Some block
    /\ forall k', (k' < k)%nat -> PRODUCT_RATINGS_PATTERN_match (skipn k' s) = None.
Proof.
  revert i j; induction s as [|c s IH]; intros i j Hj.
  - rewrite skipn_nil in Hj. discriminate Hj.
  - cbn [search_from].
    destruct (PRODUCT_RATINGS_PATTERN_match (c :: s)) as [g0|] eqn:E0.
    + exists 0%nat, g0. rewrite Nat.add_0_r. split; [reflexivity|].
      split; [lia|]. split; [exact E0|]. intros k' Hk'. lia.
    + destruct j as [|j]; [cbn [skipn] in Hj; congruence|].
      cbn [skipn] in Hj. destruct (IH (S i) j Hj) as (k & block & Hs & Hk & Hm & Hfirst).
      exists (S k), block. split; [rewrite Hs; f_equal; f_equal; lia|].
      split; [lia|]. split; [exact Hm|].
      intros [|k'] Hk'; [exact E0|]. cbn [skipn]. apply Hfirst. lia.
Qed.

(** The search on a text whose first marker is followed by an object
    that ends at the first closing brace and bracket after it. *)
Lemma search_marker_block (pre u rest : pystr) :
  (forall j, (j < length pre)%nat ->
             ~ occurs_at (marker ++ lit "{")
                 (pre ++ marker ++ lit "{" ++ u ++ lit "}]" ++ rest) j) ->
  (forall j, (j < length u)%nat -> ~ occurs_at (lit "}]") (u ++ lit "}]" ++ rest) j) ->
  PRODUCT_RATINGS_PATTERN_search (pre ++ marker ++ lit "{" ++ u ++ lit "}]" ++ rest)
  = Some (length pre, lit "{" ++ u ++ lit "}").
Proof.
  intros Hpre Hclose. apply search_first_match; [exact Hpre|].
  unfold PRODUCT_RATINGS_PATTERN_match.
  rewrite strip_prefix_app, strip_prefix_app.
  assert (Hl : lazy_dotall (lit "}]") (u ++ lit "}]" ++ rest) = Some (u, rest)).
  { clear Hpre. induction u as [|c u IH].
    - reflexivity.
    - pose proof (Hclose 0%nat ltac:(cbn [length]; lia)) as H0.
      apply strip_prefix_none in H0.
      change ((c :: u) ++ lit "}]" ++ rest) with (c :: (u ++ lit "}]" ++ rest)) in *.
      cbn [lazy_dotall]. rewrite H0, IH; [reflexivity|].
      intros j Hj Ho. apply (Hclose (S j)); [cbn [length]; lia|].
      destruct Ho as (a & b & E & La). exists (c :: a), b.
      split; [cbn [app]; now rewrite E | cbn [length]; now rewrite La]. }
  now rewrite Hl.
Qed.

Section Extraction.

Variable py : Interpreter.
Variable decode_error : pystr -> pystr.

Lemma json_loads_loaded (doc : pystr) (v : Value) :
  json_loads py doc = Loaded v -> loads doc = Some v.
Proof.
  unfold json_loads.
  destruct (if short doc then None else loads_limit py doc); [discriminate|].
  destruct (loads doc); [|discriminate]. intros H; now injection H as <-.
Qed.

(** [json.loads] raises what the limits of the interpreter raise. *)
Lemma json_loads_raises (doc : pystr) (exc : exn) :
  json_loads py doc = LoadsRaises exc -> loads_limit py doc = Some exc.
Proof.
  unfold json_loads. destruct (short doc).
  - destruct (loads doc); discriminate.
  - destruct (loads_limit py doc) as [e|]; [intros H; now injection H as <-|].
    destruct (loads doc); discriminate.
Qed.

Lemma extract_not_found (text : pystr) :
  PRODUCT_RATINGS_PATTERN_search text = None ->
  _extract_product_ratings py decode_error text = Raise (RuntimeError not_found_message).
Proof. intros H. unfold _extract_product_ratings. now rewrite H. Qed.

Lemma extract_decoded (text block : pystr) (i : nat) (parsed : dict) (rest : list Value) :
  PRODUCT_RATINGS_PATTERN_search text = Some (i, block) ->
  json_loads py (lit "[" ++ block ++ lit "]") = Loaded (PyList (PyDict parsed :: rest)) ->
  _extract_product_ratings py decode_error text = check_record parsed.
Proof.
  intros Hs Hl. unfold _extract_product_ratings, check_record.
  rewrite Hs, Hl.
  destruct (filter _ required_keys); reflexivity.
Qed.

(** Extraction returns the decoded record, or fails: with a
    [RuntimeError], whose message is a single line when the text of the
    decoding error is, or with the exception of a limit of the
    interpreter. *)
Lemma extract_outcome (text : pystr) :
  match _extract_product_ratings py decode_error text with
  | Return parsed => check_record parsed = Return parsed
  | Raise e =>
      (exists msg, e = RuntimeError msg
                   /\ ((forall doc, single_line (decode_error doc)) -> single_line msg))
      \/ (exists doc, loads_limit py doc = Some e)
  end.
Proof.
  destruct (PRODUCT_RATINGS_PATTERN_search text) as [[i block]|] eqn:Hs.
  2:{ rewrite (extract_not_found _ Hs). left. eexists; split; [reflexivity|].
      intros _. now apply single_line_check. }
  destruct (search_group_shape _ _ _ Hs) as [u ->].
  destruct (json_loads py (lit "[" ++ (lit "{" ++ u) ++ lit "]")) as [v| |exc] eqn:Hl.
  - destruct (loads_block_shape _ _ (json_loads_loaded _ _ Hl)) as (parsed & rest & ->).
    rewrite (extract_decoded _ _ _ _ _ Hs Hl).
    destruct (check_record parsed) as [d|e] eqn:Hc.
    + apply check_record_return in Hc as Hd. destruct Hd as [-> _]. exact Hc.
    + apply check_record_raise in Hc as (msg & -> & Hmsg). left. eauto.
  - unfold _extract_product_ratings. rewrite Hs, Hl.
    left. eexists; split; [reflexivity|]. intros Hd.
    apply single_line_app; [now apply single_line_check | apply Hd].
  - unfold _extract_product_ratings. rewrite Hs, Hl.
    right. eexists. exact (json_loads_raises _ _ Hl).
Qed.

(** C5.  A decoded record that lacks one or more of the three required
    keys is rejected with the message [Missing expected keys in
    productRatings block: ] followed by the missing keys, separated by a
    comma and a space, in the order [ratingAverage],
    [totalNumberOfRatings], [ratingCounts].  Each required key stands in
    the message exactly when the record lacks it. *)
Theorem missing_keys_are_listed
    (text block : pystr) (i : nat) (parsed : dict) (rest : list Value) (missing : list pystr) :
  PRODUCT_RATINGS_PATTERN_search text = Some (i, block) ->
  json_loads py (lit "[" ++ block ++ lit "]") = Loaded (PyList (PyDict parsed :: rest)) ->
  missing = filter (fun key => negb (dict_contains parsed key)) required_keys ->
  missing <> [] ->
  exists message,
    _extract_product_ratings py decode_error text = Raise (RuntimeError message)
    /\ message
       = lit "Missing expected keys in productRatings block: "
         ++ match missing with
            | [a] => a
            | [a; b] => a ++ lit ", " ++ b
            | [a; b; c] => a ++ lit ", " ++ b ++ lit ", " ++ c
            | _ => []
            end
    /\ (length missing <= 3)%nat
    /\ (forall key, In key missing <-> In key required_keys /\ dict_get parsed key = None)
    /\ (forall key, In key required_keys ->
                    contains key message = negb (dict_contains parsed key)).
Proof.
  intros Hs Hl -> Hne. eexists. split; [|split; [reflexivity|]].
  - rewrite (extract_decoded _ _ _ _ _ Hs Hl). unfold check_record.
    revert Hne. unfold required_keys. cbn [filter].
    destruct (dict_contains parsed (lit "ratingAverage"));
      destruct (dict_contains parsed (lit "totalNumberOfRatings"));
      destruct (dict_contains parsed (lit "ratingCounts"));
      cbn [negb]; intros Hne; try reflexivity.
    contradiction.
  - split; [|split].
    + unfold required_keys. cbn [filter].
      destruct (negb _); destruct (negb _); destruct (negb _); cbn [length]; lia.
    + intros key. rewrite filter_In. unfold dict_contains.
      destruct (dict_get parsed key); cbn [negb]; intuition congruence.
    + intros key Hkey. revert Hne. unfold required_keys in *. cbn [filter].
      destruct (dict_contains parsed (lit "ratingAverage")) eqn:Ea;
        destruct (dict_contains parsed (lit "totalNumberOfRatings")) eqn:Et;
        destruct (dict_contains parsed (lit "ratingCounts")) eqn:Ec;
        cbn [negb]; intros Hne; try contradiction;
        destruct Hkey as [<-|[<-|[<-|[]]]]; rewrite ?Ea, ?Et, ?Ec;
        vm_compute; reflexivity.
Qed.

(** C6.  When the pattern matches nowhere, extraction fails with the
    "block not found" error.  That is so for a text without the marker,
    and for a text in which no [..."marker":] is followed by [null]. *)
Theorem block_not_found :
  (forall text,
     PRODUCT_RATINGS_PATTERN_search text = None ->
     _extract_product_ratings py decode_error text = Raise (RuntimeError not_found_message))
  /\ (forall text,
        (forall i, ~ occurs_at marker text i) ->
        _extract_product_ratings py decode_error text = Raise (RuntimeError not_found_message))
  /\ (forall text,
        (forall i, occurs_at (jlit "'contentType':'productRatings','marker':") text i ->
                   ~ occurs_at (lit "null") text (i + 40)) ->
        _extract_product_ratings py decode_error text = Raise (RuntimeError not_found_message)).
Proof.
  split; [|split]; intros text H.
  - now apply extract_not_found.
  - apply extract_not_found, search_needs_marker. intros i Ho.
    apply (H i). now apply occurs_at_app_l in Ho.
  - apply extract_not_found, search_needs_marker. intros i Ho.
    apply occurs_at_app_l in Ho.
    change marker with (jlit "'contentType':'productRatings','marker':"
                        ++ lit "null" ++ jlit ",'items':[") in Ho.
    apply (H i).
    + now apply occurs_at_app_l in Ho.
    + apply occurs_at_app_r in Ho. now apply occurs_at_app_l in Ho.
Qed.

(** C10.  A page in which the pattern matches somewhere is found, and
    the match that is used is the leftmost one: of several marker blocks
    the earliest counts, whatever follows it.  Of the objects in the
    captured text the first one is the record that is checked and
    returned. *)
Theorem earliest_match_first_object :
  (forall text j g,
     PRODUCT_RATINGS_PATTERN_match (skipn j text) = Some g ->
     exists i block,
       PRODUCT_RATINGS_PATTERN_search text = Some (i, block)
       /\ (i <= j)%nat
       /\ PRODUCT_RATINGS_PATTERN_match (skipn i text) = Some block
       /\ forall k, (k < i)%nat -> PRODUCT_RATINGS_PATTERN_match (skipn k text) = None)
  /\ (forall pre u rest,
        (forall j, (j < length pre)%nat ->
                   ~ occurs_at (marker ++ lit "{")
                       (pre ++ marker ++ lit "{" ++ u ++ lit "}]" ++ rest) j) ->
        (forall j, (j < length u)%nat -> ~ occurs_at (lit "}]") (u ++ lit "}]" ++ rest) j) ->
        PRODUCT_RATINGS_PATTERN_search (pre ++ marker ++ lit "{" ++ u ++ lit "}]" ++ rest)
        = Some (length pre, lit "{" ++ u ++ lit "}"))
  /\ (forall text i block first rest,
        PRODUCT_RATINGS_PATTERN_search text = Some (i, block) ->
        json_loads py (lit "[" ++ block ++ lit "]") = Loaded (PyList (first :: rest)) ->
        exists parsed,
          first = PyDict parsed
          /\ _extract_product_ratings py decode_error text = check_record parsed).
Proof.
  split; [|split].
  - intros text j g Hm.
    destruct (search_from_complete text 0 j g Hm) as (k & block & Hs & Hk & Hmk & Hfirst).
    exists k, block. now repeat split.
  - intros pre u rest Hpre Hclose. now apply search_marker_block.
  - intros text i block first rest Hs Hl.
    destruct (search_group_shape _ _ _ Hs) as [u ->].
    destruct (loads_block_shape _ _ (json_loads_loaded _ _ Hl)) as (parsed & rest' & E).
    injection E as -> ->. exists parsed. split; [reflexivity|].
    exact (extract_decoded _ _ _ _ _ Hs Hl).
Qed.

Section Fetch.

Variable requests_get : pystr -> list (pystr * pystr) -> Z -> HttpOutcome.

(** What [fetch_product_ratings] returns once the page has been fetched
    and the record extracted. *)
Lemma fetch_extracted (app country text : pystr) (status_code : Z) (parsed : dict) :
  requests_get (page_url app country) HEADERS 15 = Response status_code text ->
  raises_for_status status_code = false ->
  _extract_product_ratings py decode_error text = Return parsed ->
  exists a t c,
    dict_get parsed (lit "ratingAverage") = Some a
    /\ dict_get parsed (lit "totalNumberOfRatings") = Some t
    /\ dict_get parsed (lit "ratingCounts") = Some c
    /\ fetch_product_ratings py requests_get decode_error app country
       = Return [ (lit "ratingAverage", a);
                  (lit "totalNumberOfRatings", t);
                  (lit "ratingCounts", c) ].
Proof.
  intros Hget Hst Hex.
  pose proof (extract_outcome text) as Hout. rewrite Hex in Hout.
  apply check_record_return in Hout as (_ & Hkeys & _).
  destruct (Hkeys (lit "ratingAverage")) as [a Ha]; [simpl; auto|].
  destruct (Hkeys (lit "totalNumberOfRatings")) as [t Ht]; [simpl; auto|].
  destruct (Hkeys (lit "ratingCounts")) as [c Hc]; [simpl; auto|].
  exists a, t, c. repeat split; try assumption.
  unfold fetch_product_ratings. rewrite Hget, Hst, Hex.
  unfold bind, getitem. now rewrite Ha, Ht, Hc.
Qed.

(** [fetch_product_ratings] fails with a [RuntimeError], or with the
    exception of a limit of the interpreter that [json.loads] met. *)
Lemma fetch_raise (app country : pystr) (e : exn) :
  fetch_product_ratings py requests_get decode_error app country = Raise e ->
  (exists msg, e = RuntimeError msg) \/ (exists doc, loads_limit py doc = Some e).
Proof.
  unfold fetch_product_ratings.
  destruct (requests_get _ _ _) as [what|status_code text] eqn:Hget.
  - intros H; injection H as <-. left. eauto.
  - destruct (raises_for_status status_code) eqn:Hst.
    + intros H; injection H as <-. left. eauto.
    + pose proof (extract_outcome text) as Hout.
      destruct (_extract_product_ratings py decode_error text) as [parsed|e'] eqn:Hex.
      * destruct (fetch_extracted app country text status_code parsed Hget Hst Hex)
          as (a & t & c & Ha & Ht & Hc & _).
        unfold bind, getitem. rewrite Ha, Ht, Hc. discriminate.
      * cbn [bind]. intros H; injection H as <-.
        destruct Hout as [(msg & -> & _)|Hlim]; [left; eauto | now right].
Qed.


Section Command.

Variable usage_text : list pystr -> pystr.
Variable sys_argv : list pystr.

(** C7, as the code has it.  A response whose status code is from 400 to
    599 makes the fetch fail with an error that carries the status code
    in decimal, and the command print that error and exit with status 1;
    for a 404 the line is [error: App Store page returned HTTP 404]. *)
Theorem http_error_status
    (argv : option (list pystr)) (args : Namespace) (status_code : Z) (text : pystr) :
  parse_args (effective_argv sys_argv argv) = Some (Args args) ->
  requests_get (page_url (app_id args) (country args)) HEADERS 15
    = Response status_code text ->
  (400 <= status_code < 600)%Z ->
  fetch_product_ratings py requests_get decode_error (app_id args) (country args)
    = Raise (RuntimeError (lit "App Store page returned HTTP " ++ str_of_int status_code))
  /\ main py requests_get decode_error usage_text sys_argv argv
     = Some {| stdout := [];
               stderr := lit "error: App Store page returned HTTP "
                         ++ str_of_int status_code ++ [10%N];
               exit_code := 1 |}
  /\ (status_code = 404%Z ->
      main py requests_get decode_error usage_text sys_argv argv
      = Some {| stdout := [];
                stderr := lit "error: App Store page returned HTTP 404" ++ [10%N];
                exit_code := 1 |}).
Proof.
  intros Hargs Hget Hst.
  assert (Hf : fetch_product_ratings py requests_get decode_error (app_id args) (country args)
               = Raise (RuntimeError (lit "App Store page returned HTTP "
                                      ++ str_of_int status_code))).
  { unfold fetch_product_ratings. rewrite Hget.
    unfold raises_for_status.
    replace (400 <=? status_code)%Z with true by (symmetry; apply Z.leb_le; lia).
    replace (status_code <? 600)%Z with true by (symmetry; apply Z.ltb_lt; lia).
    reflexivity. }
  assert (Hm : main py requests_get decode_error usage_text sys_argv argv
               = Some {| stdout := [];
                         stderr := lit "error: App Store page returned HTTP "
                                   ++ str_of_int status_code ++ [10%N];
                         exit_code := 1 |}).
  { unfold main, run. rewrite Hargs, Hf. cbn [exn_str].
    now rewrite <- !app_assoc. }
  repeat split; [exact Hf | exact Hm |].
  intros ->. exact Hm.
Qed.


(** C1, as the code has it.  When the scenario's block is the first
    place of the page where the marker stands, and the page is served
    with a status that is not an error, the command without [--pretty]
    prints exactly the scenario's output and exits with status 0. *)
Theorem scenario_first_block
    (argv : option (list pystr)) (args : Namespace) (status_code : Z) (pre post : pystr) :
  parse_args (effective_argv sys_argv argv) = Some (Args args) ->
  pretty args = false ->
  requests_get (page_url (app_id args) (country args)) HEADERS 15
    = Response status_code (pre ++ scenario_block ++ post) ->
  ~ (400 <= status_code < 600)%Z ->
  (forall j, (j < length pre)%nat ->
             ~ occurs_at (marker ++ lit "{") (pre ++ scenario_block ++ post) j) ->
  main py requests_get decode_error usage_text sys_argv argv
    = Some {| stdout := scenario_output; stderr := []; exit_code := 0 |}.
Proof.
  intros Hargs Hpretty Hget Hst Hfirst. apply raises_for_status_false in Hst.
  assert (Hs : PRODUCT_RATINGS_PATTERN_search (pre ++ scenario_block ++ post)
               = Some (length pre,
                       jlit "{'ratingAverage':4.5,'totalNumberOfRatings':120,'ratingCounts':[80,20,10,5,5]}")).
  { apply search_first_match; [exact Hfirst | reflexivity]. }
  unfold main, run, fetch_product_ratings, _extract_product_ratings.
  rewrite Hargs, Hget, Hst, Hs, Hpretty.
  vm_compute. reflexivity.
Qed.

End Command.

End Fetch.

End Extraction.

(* ================================================================== *)
(** * Facts about numbers and their text *)
(* ================================================================== *)

Section DigitFacts.

Lemma fold_digits_from (b : list Z) (x : Z) :
  fold_left (fun acc d => (10 * acc + d)%Z) b x
  = (x * 10 ^ Z.of_nat (length b) + int_of_digits b)%Z.
Proof.
  unfold int_of_digits. revert x; induction b as [|d b IH]; intros x.
  - simpl. lia.
  - cbn [fold_left length]. rewrite IH, (IH (10 * 0 + d)%Z).
    rewrite Nat2Z.inj_succ, Z.pow_succ_r by lia. lia.
Qed.

Lemma int_of_digits_app (a b : list Z) :
  int_of_digits (a ++ b)
  = (int_of_digits a * 10 ^ Z.of_nat (length b) + int_of_digits b)%Z.
Proof.
  unfold int_of_digits at 1. rewrite fold_left_app. apply fold_digits_from.
Qed.

Lemma int_of_digits_cons (d : Z) (l : list Z) :
  int_of_digits (d :: l) = (d * 10 ^ Z.of_nat (length l) + int_of_digits l)%Z.
Proof.
  change (d :: l) with ([d] ++ l). rewrite int_of_digits_app.
  replace (int_of_digits [d]) with d by (unfold int_of_digits; simpl; lia).
  reflexivity.
Qed.

(** What [digits_from] yields when the fuel covers the bits of [n]. *)
Lemma digits_from_spec (fuel : nat) (n : Z) (acc : list Z) :
  (0 <= n < 2 ^ (Z.of_nat fuel + 1))%Z ->
  Forall is_dec acc ->
  exists h t,
    digits_from fuel n acc = h :: t
    /\ Forall is_dec (h :: t)
    /\ (0 < n -> 0 < h)%Z
    /\ int_of_digits (h :: t) = (n * 10 ^ Z.of_nat (length acc) + int_of_digits acc)%Z.
Proof.
  revert n acc; induction fuel as [|fuel IH]; intros n acc Hn Hacc.
  - exists n, acc. cbn [digits_from]. change (2 ^ (Z.of_nat 0 + 1))%Z with 2%Z in Hn.
    split; [reflexivity|]. split; [|split; [auto | apply int_of_digits_cons]].
    constructor; [unfold is_dec; lia | assumption].
  - cbn [digits_from]. destruct (n <? 10)%Z eqn:E.
    + apply Z.ltb_lt in E. exists n, acc.
      split; [reflexivity|]. split; [|split; [auto | apply int_of_digits_cons]].
      constructor; [unfold is_dec; lia | assumption].
    + apply Z.ltb_ge in E.
      assert (Hdiv : (0 <= n / 10 < 2 ^ (Z.of_nat fuel + 1))%Z).
      { split; [apply Z.div_pos; lia|].
        apply Z.div_lt_upper_bound; [lia|].
        rewrite Nat2Z.inj_succ in Hn.
        replace (Z.succ (Z.of_nat fuel) + 1)%Z with (Z.succ (Z.of_nat fuel + 1)) in Hn by lia.
        rewrite Z.pow_succ_r in Hn by lia. lia. }
      assert (Hmod : (0 <= n mod 10 < 10)%Z) by (apply Z.mod_pos_bound; lia).
      destruct (IH (n / 10)%Z ((n mod 10)%Z :: acc) Hdiv) as (h & t & Hd & Hwf & Hpos & Hval).
      { constructor; [unfold is_dec; lia | assumption]. }
      exists h, t. split; [exact Hd|]. split; [exact Hwf|]. split.
      * intros _. apply Hpos. apply Z.div_str_pos. lia.
      * rewrite Hval, int_of_digits_cons. cbn [length].
        rewrite Nat2Z.inj_succ, Z.pow_succ_r by lia.
        pose proof (Z.div_mod n 10 ltac:(lia)). nia.
Qed.

(** The digits of a natural number: decimal digits, the first one not
    zero unless the number is zero, and they add up to the number. *)
Lemma digits_spec (n : Z) :
  (0 <= n)%Z ->
  exists h t,
    digits n = h :: t
    /\ Forall is_dec (h :: t)
    /\ (0 < n -> 0 < h)%Z
    /\ int_of_digits (digits n) = n.
Proof.
  intros Hn. unfold digits.
  destruct (digits_from_spec (Z.to_nat (Z.log2 n)) n []) as (h & t & Hd & Hwf & Hpos & Hval).
  - split; [assumption|]. rewrite Z2Nat.id by apply Z.log2_nonneg.
    destruct (Z.eq_dec n 0) as [->|Hne]; [reflexivity|].
    replace (Z.log2 n + 1)%Z with (Z.succ (Z.log2 n)) by lia.
    apply Z.log2_spec. lia.
  - constructor.
  - exists h, t. split; [exact Hd|]. split; [exact Hwf|]. split; [exact Hpos|].
    rewrite Hd, Hval. unfold int_of_digits. simpl. lia.
Qed.

Lemma digits_zero : digits 0 = [0%Z].
Proof. reflexivity. Qed.

Lemma digits_integer (n : Z) : (0 <= n)%Z -> integer_digits (digits n).
Proof.
  intros Hn. destruct (Z.eq_dec n 0) as [->|Hne]; [now left|].
  destruct (digits_spec n Hn) as (h & t & Hd & Hwf & Hpos & _).
  right. exists h, t. inversion Hwf as [|? ? Hh Ht]; subst.
  split; [exact Hd|]. split; [unfold is_dec in Hh; lia | exact Ht].
Qed.

Lemma integer_digits_dec (ids : list Z) : integer_digits ids -> Forall is_dec ids.
Proof.
  intros [->|(h & t & -> & Hh & Ht)].
  - repeat constructor; unfold is_dec; lia.
  - constructor; [unfold is_dec; lia | assumption].
Qed.

Lemma is_digit_digit_char (d : Z) : is_dec d -> is_digit (digit_char d) = true.
Proof.
  unfold is_dec, is_digit, digit_char. intros H.
  apply andb_true_iff; split; apply N.leb_le; lia.
Qed.

Lemma digit_value_digit_char (d : Z) : is_dec d -> digit_value (digit_char d) = d.
Proof. unfold is_dec, digit_value, digit_char. lia. Qed.

Lemma digit_char_zero (d : Z) :
  is_dec d -> is_char (digit_char d) "0" = (d =? 0)%Z.
Proof.
  unfold is_dec, is_char, digit_char. intros H. change (cp "0") with 48%N.
  destruct (d =? 0)%Z eqn:E.
  - apply Z.eqb_eq in E. subst. reflexivity.
  - apply Z.eqb_neq in E. apply N.eqb_neq. lia.
Qed.

(** A run of digit characters is what [span_digits] takes, when the
    text does not go on with a digit. *)
Lemma span_digits_text (ds : list Z) (rest : pystr) :
  Forall is_dec ds ->
  match rest with [] => True | c :: _ => is_digit c = false end ->
  span_digits (map digit_char ds ++ rest) = (ds, rest).
Proof.
  intros Hds Hrest. induction Hds as [|d ds Hd _ IH].
  - simpl. destruct rest as [|c rest]; [reflexivity|]. simpl. now rewrite Hrest.
  - cbn [map app span_digits]. rewrite (is_digit_digit_char d Hd), IH.
    now rewrite (digit_value_digit_char d Hd).
Qed.

End DigitFacts.

Section NumberText.

(** After a value the text goes on with a character that is no part of
    a number. *)
Lemma stops_head (c : codepoint) (rest : pystr) :
  stops (c :: rest) = true ->
  is_digit c = false /\ is_char c "." = false /\ is_char c "e" = false
  /\ is_char c "E" = false.
Proof.
  unfold stops, is_ws, is_char. intros H.
  repeat (apply orb_true_iff in H; destruct H as [H|H]);
    apply N.eqb_eq in H; subst c; repeat split; reflexivity.
Qed.

Lemma stops_no_digit (rest : pystr) :
  stops rest = true -> match rest with [] => True | c :: _ => is_digit c = false end.
Proof. destruct rest as [|c rest]; [trivial|]. intros H. now apply stops_head in H. Qed.

Lemma digit_char_not (d : Z) (a : ascii) :
  is_dec d -> (N_of_ascii a < 48 \/ 57 < N_of_ascii a)%N -> is_char (digit_char d) a = false.
Proof.
  unfold is_dec, is_char, digit_char, cp. intros Hd Ha. apply N.eqb_neq. lia.
Qed.

Lemma match_fraction_text (fds : list Z) (tail : pystr) :
  Forall is_dec fds ->
  match tail with
  | [] => True
  | c :: _ => is_digit c = false /\ is_char c "." = false
  end ->
  match_fraction (frac_text fds ++ tail) = (fds, tail).
Proof.
  intros Hf Ht. destruct fds as [|d fds].
  - cbn [frac_text app]. unfold match_fraction.
    destruct tail as [|c [|c' tail]]; try reflexivity.
    destruct Ht as [_ ->]. reflexivity.
  - cbn [frac_text app map]. unfold match_fraction.
    inversion Hf as [|? ? Hd Hfds]; subst.
    change (is_char (cp ".") ".") with true.
    rewrite (is_digit_digit_char d Hd). cbn [andb].
    apply (span_digits_text (d :: fds) tail Hf).
    destruct tail; [trivial | apply Ht].
Qed.

Lemma match_exponent_text (ex : option (bool * list Z)) (rest : pystr) :
  match ex with
  | Some (_, eds) => eds <> [] /\ Forall is_dec eds
  | None => True
  end ->
  stops rest = true ->
  match_exponent (exp_text ex ++ rest) = (exp_value ex, rest).
Proof.
  intros Hex Hrest. destruct ex as [[neg eds]|].
  - destruct Hex as [Hne Heds]. cbn [exp_text exp_value app].
    unfold match_exponent. change (is_char (cp "e") "e") with true. cbn [orb].
    assert (Hspan : span_digits (map digit_char eds ++ rest) = (eds, rest))
      by (apply span_digits_text; [assumption | now apply stops_no_digit]).
    destruct neg.
    + change (is_char (cp "-") "-") with true. cbv iota beta. rewrite Hspan.
      destruct eds; [contradiction | reflexivity].
    + change (is_char (cp "+") "-") with false. change (is_char (cp "+") "+") with true.
      cbv iota beta. rewrite Hspan.
      destruct eds; [contradiction | reflexivity].
  - cbn [exp_text exp_value app]. unfold match_exponent.
    destruct rest as [|c rest]; [reflexivity|].
    apply stops_head in Hrest as (_ & _ & -> & ->). reflexivity.
Qed.

(** The scanner reads a number text back as its parts. *)
Lemma match_number_text (neg : bool) (ids fds : list Z) (ex : option (bool * list Z))
    (rest : pystr) :
  integer_digits ids ->
  Forall is_dec fds ->
  match ex with
  | Some (_, eds) => eds <> [] /\ Forall is_dec eds
  | None => True
  end ->
  stops rest = true ->
  match_number (number_text neg ids fds ex ++ rest)
  = Some (number_value neg ids fds (exp_value ex), rest).
Proof.
  intros Hids Hfds Hex Hrest. unfold number_text.
  set (t3 := exp_text ex ++ rest).
  set (t2 := frac_text fds ++ t3).
  assert (Ht3 : match t3 with
                | [] => True
                | c :: _ => is_digit c = false /\ is_char c "." = false
                end).
  { unfold t3. destruct ex as [[s eds]|]; cbn [exp_text app].
    - now split.
    - destruct rest as [|c rest]; [trivial|].
      apply stops_head in Hrest as (? & ? & _). now split. }
  assert (Ht2 : match t2 with [] => True | c :: _ => is_digit c = false end).
  { unfold t2. destruct fds; cbn [frac_text app]; [|reflexivity].
    destruct t3; [trivial | apply Ht3]. }
  assert (Hfrac : match_fraction t2 = (fds, t3)) by (now apply match_fraction_text).
  assert (Hexp : match_exponent t3 = (exp_value ex, rest)) by (now apply match_exponent_text).
  assert (Hbody : forall s,
            match map digit_char ids ++ t2 with
            | [] => None
            | c :: r =>
                match (if is_char c "0" then Some ([0%Z], r)
                       else if is_digit c then Some (span_digits (map digit_char ids ++ t2))
                       else None) with
                | None => None
                | Some (ids', s2) =>
                    let '(fds', s3) := match_fraction s2 in
                    let '(ex', s4) := match_exponent s3 in
                    Some (number_value s ids' fds' ex', s4)
                end
            end = Some (number_value s ids fds (exp_value ex), rest)).
  { intros s. destruct Hids as [->|(h & t & -> & Hh & Ht)].
    - cbn [map app]. change (is_char (digit_char 0) "0") with true. cbv iota.
      now rewrite Hfrac, Hexp.
    - cbn [map app].
      assert (Hd : is_dec h) by (unfold is_dec; lia).
      rewrite (digit_char_zero h Hd).
      replace (h =? 0)%Z with false by (symmetry; apply Z.eqb_neq; lia).
      rewrite (is_digit_digit_char h Hd).
      change (digit_char h :: map digit_char t ++ t2) with (map digit_char (h :: t) ++ t2).
      rewrite span_digits_text; [|now constructor | exact Ht2].
      now rewrite Hfrac, Hexp. }
  rewrite <- !app_assoc. fold t3. fold t2.
  unfold match_number. destruct neg; cbn [sign_text lit list_ascii_of_string map app].
  - change (is_char (cp "-") "-") with true. cbv iota. apply Hbody.
  - destruct (map digit_char ids ++ t2) as [|c r] eqn:E.
    + destruct Hids as [->|(h & t & -> & _)]; discriminate.
    + assert (Hc : is_char c "-" = false).
      { destruct Hids as [->|(h & t & -> & Hh & _)]; injection E as <- _.
        - reflexivity.
        - apply digit_char_not; [unfold is_dec; lia | left; now vm_compute]. }
      rewrite Hc. apply Hbody.
Qed.

End NumberText.

Section ReprText.

Lemma str_of_int_text (n : Z) :
  str_of_int n = number_text (n <? 0)%Z (digits (Z.abs n)) [] None.
Proof.
  unfold str_of_int, number_text. cbn [frac_text exp_text]. rewrite !app_nil_r.
  destruct (n <? 0)%Z eqn:E.
  - apply Z.ltb_lt in E. now rewrite Z.abs_neq by lia.
  - apply Z.ltb_ge in E. now rewrite Z.abs_eq by lia.
Qed.

(** An [int] is read back from its text. *)
Lemma match_number_int (n : Z) (rest : pystr) :
  stops rest = true ->
  match_number (str_of_int n ++ rest) = Some (PyInt n, rest).
Proof.
  intros Hrest. rewrite str_of_int_text.
  rewrite match_number_text; try trivial.
  - cbn [exp_value number_value]. do 3 f_equal.
    destruct (digits_spec (Z.abs n) (Z.abs_nonneg n)) as (_ & _ & _ & _ & _ & ->).
    destruct (n <? 0)%Z eqn:E; [apply Z.ltb_lt in E | apply Z.ltb_ge in E]; lia.
  - apply digits_integer, Z.abs_nonneg.
Qed.

Lemma drop_zeros_last (l : list Z) (h : Z) :
  h <> 0%Z -> exists l', drop_zeros (l ++ [h]) = l' ++ [h] /\ incl l' l.
Proof.
  intros Hh. induction l as [|d l IH].
  - exists []. split; [|apply incl_refl]. simpl.
    destruct h as [|p|p]; [contradiction| |]; reflexivity.
  - destruct IH as (l' & E & Hincl).
    destruct d as [|p|p].
    + exists l'. split; [exact E | now apply incl_tl].
    + exists (Z.pos p :: l). split; [reflexivity | apply incl_refl].
    + exists (Z.neg p :: l). split; [reflexivity | apply incl_refl].
Qed.

(** Without its trailing zeros a run of digits keeps its first digit. *)
Lemma strip_trailing_zeros_head (h : Z) (t : list Z) :
  h <> 0%Z -> Forall is_dec t ->
  exists t', strip_trailing_zeros (h :: t) = h :: t' /\ Forall is_dec t'.
Proof.
  intros Hh Ht. unfold strip_trailing_zeros. cbn [rev].
  destruct (drop_zeros_last (rev t) h Hh) as (l' & -> & Hincl).
  exists (rev l'). split.
  - now rewrite rev_app_distr.
  - apply Forall_forall. intros x Hx. apply in_rev in Hx.
    apply Hincl in Hx. apply in_rev in Hx.
    rewrite Forall_forall in Ht. now apply Ht.
Qed.

Lemma shortest_digits_spec (neg : bool) (m e : Z) :
  exists h t decpt,
    shortest_digits neg m e = (h :: t, decpt)
    /\ (1 <= h <= 9)%Z /\ Forall is_dec t.
Proof.
  unfold shortest_digits.
  destruct (shortest_from _ _ _ _ _ _ _ _) as [c x].
  destruct (digits_spec (Z.pos c) ltac:(lia)) as (h & t & -> & Hwf & Hpos & _).
  inversion Hwf as [|? ? Hh Ht]; subst.
  specialize (Hpos ltac:(lia)).
  destruct (strip_trailing_zeros_head h t ltac:(lia) Ht) as (t' & -> & Ht').
  exists h, t', (Z.of_nat (length (h :: t)) + x)%Z.
  split; [reflexivity|]. split; [unfold is_dec in Hh; lia | exact Ht'].
Qed.

Lemma two_digits_text (n : Z) :
  (0 <= n)%Z ->
  exists eds, two_digits n = map digit_char eds /\ eds <> [] /\ Forall is_dec eds.
Proof.
  intros Hn. unfold two_digits.
  destruct (digits_spec n Hn) as (h & t & E & Hwf & _).
  destruct (n <? 10)%Z.
  - exists (0%Z :: digits n). split; [reflexivity|]. split; [discriminate|].
    constructor; [unfold is_dec; lia | now rewrite E].
  - exists (digits n). split; [reflexivity|]. rewrite E. split; [discriminate | exact Hwf].
Qed.

Lemma map_digit_char_zeros (k : nat) :
  repeat (cp "0") k = map digit_char (repeat 0%Z k).
Proof.
  induction k as [|k IH]; [reflexivity|].
  cbn [repeat map]. rewrite <- IH. reflexivity.
Qed.

Lemma Forall_repeat_zero (k : nat) : Forall is_dec (repeat 0%Z k).
Proof. apply Forall_forall. intros x Hx. apply repeat_spec in Hx. subst. unfold is_dec. lia. Qed.

Lemma Forall_firstn_skipn {A : Type} (P : A -> Prop) (k : nat) (l : list A) :
  Forall P l -> Forall P (firstn k l) /\ Forall P (skipn k l).
Proof. intros H. apply Forall_app. now rewrite firstn_skipn. Qed.

(** The layout of [repr] is the text of a JSON number with a fraction
    or an exponent. *)
Lemma format_repr_text (h : Z) (t : list Z) (decpt : Z) :
  (1 <= h <= 9)%Z -> Forall is_dec t ->
  exists ids fds ex,
    format_repr (h :: t) decpt = map digit_char ids ++ frac_text fds ++ exp_text ex
    /\ integer_digits ids
    /\ Forall is_dec fds
    /\ match ex with
       | Some (_, eds) => eds <> [] /\ Forall is_dec eds
       | None => True
       end.
Proof.
  intros Hh Ht. unfold format_repr.
  assert (Hd : is_dec h) by (unfold is_dec; lia).
  destruct ((decpt <=? -4)%Z || (16 <? decpt)%Z).
  - destruct (two_digits_text (Z.abs (decpt - 1)) (Z.abs_nonneg _)) as (eds & E & Hne & Heds).
    exists [h], t, (Some ((decpt - 1 <? 0)%Z, eds)).
    split; [|split; [|split]].
    + cbn [firstn skipn map app frac_text exp_text]. rewrite E.
      destruct t; reflexivity.
    + right. exists h, []. now repeat split.
    + exact Ht.
    + now split.
  - destruct (decpt <=? 0)%Z eqn:E0.
    + exists [0%Z], (repeat 0%Z (Z.to_nat (- decpt)) ++ h :: t), None.
      split; [|split; [|split]].
      * cbn [exp_text]. rewrite app_nil_r, map_digit_char_zeros, <- map_app.
        destruct (repeat 0%Z (Z.to_nat (- decpt)) ++ h :: t) eqn:E.
        -- destruct (repeat 0%Z (Z.to_nat (- decpt))); discriminate.
        -- reflexivity.
      * now left.
      * apply Forall_app. split; [apply Forall_repeat_zero | now constructor].
      * trivial.
    + apply Z.leb_gt in E0.
      destruct (Z.of_nat (length (h :: t)) <=? decpt)%Z eqn:Elen.
      * exists (h :: t ++ repeat 0%Z (Z.to_nat (decpt - Z.of_nat (length (h :: t))))),
          [0%Z], None.
        split; [|split; [|split]].
        -- cbn [exp_text frac_text]. rewrite app_nil_r, map_digit_char_zeros.
           change (h :: t ++ ?l) with ((h :: t) ++ l).
           rewrite map_app, <- app_assoc. reflexivity.
        -- right. eexists h, _. split; [reflexivity|]. split; [exact Hh|].
           apply Forall_app. split; [exact Ht | apply Forall_repeat_zero].
        -- repeat constructor; unfold is_dec; lia.
        -- trivial.
      * apply Z.leb_gt in Elen.
        destruct (Z.to_nat decpt) as [|k] eqn:Ek; [lia|].
        exists (h :: firstn k t), (skipn k t), None.
        split; [|split; [|split]].
        -- cbn [firstn skipn map app exp_text]. rewrite app_nil_r.
           destruct (skipn k t) eqn:Es; [|reflexivity].
           exfalso. assert (Hl : length (skipn k t) = 0%nat) by now rewrite Es.
           rewrite length_skipn in Hl. cbn [length] in Elen. lia.
        -- right. exists h, (firstn k t). split; [reflexivity|]. split; [exact Hh|].
           apply (Forall_firstn_skipn is_dec k t Ht).
        -- apply (Forall_firstn_skipn is_dec k t Ht).
        -- trivial.
Qed.

(** [repr] of a finite float is the text of a JSON number. *)
Lemma repr_finite_text (neg : bool) (m e : Z) :
  exists ids fds ex,
    repr_finite neg m e = number_text neg ids fds ex
    /\ integer_digits ids
    /\ Forall is_dec fds
    /\ match ex with
       | Some (_, eds) => eds <> [] /\ Forall is_dec eds
       | None => True
       end.
Proof.
  unfold repr_finite, number_text. destruct (m =? 0)%Z.
  - exists [0%Z], [0%Z], None. split; [reflexivity|].
    split; [now left|]. split; [|trivial].
    repeat constructor; unfold is_dec; lia.
  - destruct (shortest_digits_spec neg m e) as (h & t & decpt & -> & Hh & Ht).
    destruct (format_repr_text h t decpt Hh Ht) as (ids & fds & ex & -> & H).
    now exists ids, fds, ex.
Qed.

End ReprText.

Section StringText.

(** To show something of the characters below U+0020, show it of each
    of them. *)
Lemma below_32_cases (P : codepoint -> Prop) :
  (forall k, (k < 32)%nat -> P (N.of_nat k)) -> forall c, (c < 32)%N -> P c.
Proof.
  intros H c Hc. rewrite <- (N2Nat.id c). apply H. lia.
Qed.

(** A character is read back from what [escape_char] writes for it. *)
Lemma escape_char_scan (c : codepoint) (r : pystr) :
  scanstring (escape_char c ++ r)
  = match scanstring r with
    | Some (t, r') => Some (c :: t, r')
    | None => None
    end.
Proof.
  destruct (N.ltb c 32) eqn:Hlt.
  - apply N.ltb_lt in Hlt. revert r. pattern c. apply below_32_cases; [|exact Hlt].
    clear. intros k Hk r.
    do 32 (destruct k as [|k];
           [try reflexivity;
            destruct r as [|? [|? [|? [|? [|? [|? [|? ?]]]]]]]; reflexivity|]).
    lia.
  - apply N.ltb_ge in Hlt. unfold escape_char.
    destruct (N.eqb c dquote) eqn:Hq.
    { apply N.eqb_eq in Hq. subst c. reflexivity. }
    destruct (is_char c "\") eqn:Hb.
    { apply N.eqb_eq in Hb. subst c. reflexivity. }
    replace (N.eqb c 8) with false by (symmetry; apply N.eqb_neq; lia).
    replace (N.eqb c 12) with false by (symmetry; apply N.eqb_neq; lia).
    replace (N.eqb c 10) with false by (symmetry; apply N.eqb_neq; lia).
    replace (N.eqb c 13) with false by (symmetry; apply N.eqb_neq; lia).
    replace (N.eqb c 9) with false by (symmetry; apply N.eqb_neq; lia).
    replace (N.ltb c 32) with false by (symmetry; apply N.ltb_ge; lia).
    cbn [app scanstring]. rewrite Hq, Hb.
    replace (N.leb c 31) with false by (symmetry; apply N.leb_gt; lia).
    reflexivity.
Qed.

(** A string is read back from what [encode_basestring] writes. *)
Lemma scanstring_encoded (s rest : pystr) :
  scanstring (flat_map escape_char s ++ dquote :: rest) = Some (s, rest).
Proof.
  induction s as [|c s IH].
  - reflexivity.
  - cbn [flat_map]. rewrite <- app_assoc, escape_char_scan, IH. reflexivity.
Qed.

Lemma escape_char_no_control (c : codepoint) : no_control (escape_char c).
Proof.
  unfold no_control.
  destruct (N.ltb c 32) eqn:Hlt.
  - apply N.ltb_lt in Hlt. pattern c. apply below_32_cases; [|exact Hlt].
    clear. intros k Hk.
    do 32 (destruct k as [|k]; [repeat constructor; discriminate|]).
    lia.
  - apply N.ltb_ge in Hlt. unfold escape_char.
    destruct (N.eqb c dquote); [repeat constructor; discriminate|].
    destruct (is_char c "\"); [repeat constructor; discriminate|].
    replace (N.eqb c 8) with false by (symmetry; apply N.eqb_neq; lia).
    replace (N.eqb c 12) with false by (symmetry; apply N.eqb_neq; lia).
    replace (N.eqb c 10) with false by (symmetry; apply N.eqb_neq; lia).
    replace (N.eqb c 13) with false by (symmetry; apply N.eqb_neq; lia).
    replace (N.eqb c 9) with false by (symmetry; apply N.eqb_neq; lia).
    replace (N.ltb c 32) with false by (symmetry; apply N.ltb_ge; lia).
    repeat constructor. exact Hlt.
Qed.

End StringText.

Section NoControl.

Lemma no_control_check (s : pystr) : forallb (N.leb 32) s = true -> no_control s.
Proof.
  intros H. apply Forall_forall. intros c Hc.
  rewrite forallb_forall in H. now apply N.leb_le, H.
Qed.

Lemma no_control_app (a b : pystr) : no_control a -> no_control b -> no_control (a ++ b).
Proof. intros Ha Hb. apply Forall_app. now split. Qed.

Lemma no_control_digits (ds : list Z) : no_control (map digit_char ds).
Proof.
  apply Forall_forall. intros c Hc. apply in_map_iff in Hc as (d & <- & _).
  unfold digit_char. lia.
Qed.

Lemma no_control_number_text (neg : bool) (ids fds : list Z) (ex : option (bool * list Z)) :
  no_control (number_text neg ids fds ex).
Proof.
  unfold number_text. repeat apply no_control_app.
  - destruct neg; now apply no_control_check.
  - apply no_control_digits.
  - destruct fds; [constructor|]. cbn [frac_text].
    constructor; [discriminate | apply no_control_digits].
  - destruct ex as [[s eds]|]; [|constructor]. cbn [exp_text].
    constructor; [discriminate|].
    constructor; [destruct s; discriminate | apply no_control_digits].
Qed.

Lemma no_control_floatstr (f : pyfloat) : no_control (floatstr f).
Proof.
  destruct f as [|[|]|neg m e]; try (now apply no_control_check).
  cbn [floatstr float_repr].
  destruct (repr_finite_text neg m e) as (ids & fds & ex & -> & _).
  apply no_control_number_text.
Qed.

Lemma no_control_flat_map {A : Type} (f : A -> pystr) (l : list A) :
  Forall (fun x => no_control (f x)) l -> no_control (flat_map f l).
Proof.
  induction 1 as [|x l Hx _ IH]; [constructor|].
  cbn [flat_map]. now apply no_control_app.
Qed.

Lemma no_control_basestring (s : pystr) : no_control (encode_basestring s).
Proof.
  unfold encode_basestring. constructor; [discriminate|].
  apply no_control_app; [|now apply no_control_check].
  apply no_control_flat_map, Forall_forall. intros c _. apply escape_char_no_control.
Qed.

(** Without indentation the encoder writes no control character: those
    of the strings are escaped, and it adds none of its own. *)
Lemma no_control_compact (v : Value) (level : nat) : no_control (iterencode None level v).
Proof.
  revert level; induction v as [|b|n|f|s|items IH|items IH] using Value_ind; intros level.
  - now apply no_control_check.
  - destruct b; now apply no_control_check.
  - cbn [iterencode]. rewrite str_of_int_text. apply no_control_number_text.
  - apply no_control_floatstr.
  - apply no_control_basestring.
  - destruct items as [|x xs]; [now apply no_control_check|].
    inversion IH as [|? ? Hx Hxs]; subst.
    cbn [iterencode newline_indent item_separator].
    repeat apply no_control_app; try (now apply no_control_check); [apply Hx|].
    apply no_control_flat_map. eapply Forall_impl; [|exact Hxs].
    intros y Hy. cbn beta.
    repeat apply no_control_app; try (now apply no_control_check). apply Hy.
  - destruct items as [|[k x] xs]; [now apply no_control_check|].
    inversion IH as [|? ? Hx Hxs]; subst. cbn [snd] in Hx.
    cbn [iterencode newline_indent item_separator].
    repeat apply no_control_app; try (now apply no_control_check);
      [apply no_control_basestring | apply Hx|].
    apply no_control_flat_map. eapply Forall_impl; [|exact Hxs].
    intros y Hy. cbn beta.
    repeat apply no_control_app; try (now apply no_control_check);
      [apply no_control_basestring | apply Hy].
Qed.

End NoControl.

Section EncodedValues.

Lemma skip_ws_app (w s : pystr) :
  forallb is_ws w = true -> skip_ws (w ++ s) = skip_ws s.
Proof.
  induction w as [|c w IH]; [reflexivity|]. cbn [forallb app skip_ws].
  intros H. apply andb_true_iff in H as [-> Hw]. now apply IH.
Qed.

Lemma value_start_spec (c : codepoint) :
  value_start c = true ->
  is_ws c = false /\ is_char c "]" = false /\ is_char c "}" = false
  /\ is_char c "," = false /\ N.eqb c 65279 = false.
Proof.
  unfold value_start. intros H.
  repeat (apply orb_true_iff in H; destruct H as [H|H]);
    try (apply N.eqb_eq in H; subst c; repeat split; reflexivity).
  unfold is_digit in H. apply andb_true_iff in H as [H1 H2].
  apply N.leb_le in H1, H2. unfold is_ws, is_char.
  change (cp "]") with 93%N. change (cp "}") with 125%N. change (cp ",") with 44%N.
  repeat split; rewrite ?orb_false_iff; repeat split; apply N.eqb_neq; lia.
Qed.

Lemma skip_ws_value (c : codepoint) (s : pystr) :
  value_start c = true -> skip_ws (c :: s) = c :: s.
Proof. intros H. apply value_start_spec in H as [H _]. cbn [skip_ws]. now rewrite H. Qed.

Lemma newline_indent_ws (indent : option nat) (level : nat) :
  forallb is_ws (newline_indent indent level) = true.
Proof.
  destruct indent as [n|]; [|reflexivity]. cbn [newline_indent forallb].
  change (is_ws 10%N) with true. cbn [andb].
  induction (n * level)%nat as [|k IH]; [reflexivity|]. cbn [repeat forallb].
  now rewrite IH.
Qed.

(** The text of a number starts like a value. *)
Lemma number_text_start (neg : bool) (ids fds : list Z) (ex : option (bool * list Z)) :
  integer_digits ids ->
  exists c r d, number_text neg ids fds ex = c :: r
                /\ value_start c = true
                /\ (c = cp "-" /\ (exists r', r = digit_char d :: r') /\ is_dec d
                    \/ c = digit_char d /\ is_dec d).
Proof.
  intros Hids. unfold number_text.
  assert (Hd : exists d t, ids = d :: t /\ is_dec d).
  { destruct Hids as [->|(h & t & -> & Hh & _)].
    - exists 0%Z, []. split; [reflexivity | unfold is_dec; lia].
    - exists h, t. split; [reflexivity | unfold is_dec; lia]. }
  destruct Hd as (d & t & -> & Hd).
  destruct neg; cbn [sign_text lit list_ascii_of_string map app].
  - eexists _, _, d. split; [reflexivity|]. split; [reflexivity|].
    left. split; [reflexivity|]. split; [eauto | exact Hd].
  - eexists _, _, d. split; [reflexivity|]. split.
    + unfold value_start. rewrite (is_digit_digit_char d Hd).
      now rewrite !orb_true_r.
    + right. now split.
Qed.

(** The scanner takes a number text, with whatever fuel. *)
Lemma scan_once_number_text (fuel : nat) (neg : bool) (ids fds : list Z)
    (ex : option (bool * list Z)) (rest : pystr) :
  integer_digits ids ->
  Forall is_dec fds ->
  match ex with
  | Some (_, eds) => eds <> [] /\ Forall is_dec eds
  | None => True
  end ->
  stops rest = true ->
  scan_once (S fuel) (number_text neg ids fds ex ++ rest)
  = Ok (number_value neg ids fds (exp_value ex), rest).
Proof.
  intros Hids Hfds Hex Hrest.
  pose proof (match_number_text neg ids fds ex rest Hids Hfds Hex Hrest) as Hm.
  destruct (number_text_start neg ids fds ex Hids) as (c & r & d & E & _ & Hc).
  rewrite E in *. cbn [app] in *.
  assert (Hnot : forall a, (N_of_ascii a < 48 \/ 57 < N_of_ascii a)%N ->
                           is_char (digit_char d) a = false).
  { intros a Ha. destruct Hc as [(_ & _ & Hd)|[_ Hd]]; now apply digit_char_not. }
  destruct Hc as [(-> & (r' & ->) & Hd)|[-> Hd]].
  - cbn [scan_once]. change (N.eqb (cp "-") dquote) with false.
    change (is_char (cp "-") "{") with false. change (is_char (cp "-") "[") with false.
    cbv iota. unfold scan_atom. cbv zeta.
    change (is_char (cp "-") "n") with false. change (is_char (cp "-") "t") with false.
    change (is_char (cp "-") "f") with false. change (is_char (cp "-") "N") with false.
    change (is_char (cp "-") "I") with false. change (is_char (cp "-") "-") with true.
    cbv iota.
    assert (Hinf : forall t, strip_prefix (lit "-Infinity") (cp "-" :: digit_char d :: t) = None).
    { intros t. cbn [lit list_ascii_of_string map strip_prefix].
      change (N.eqb (cp "-") (cp "-")) with true. cbv iota.
      rewrite (N.eqb_sym (cp "I")). fold (is_char (digit_char d) "I").
      rewrite Hnot; [reflexivity | right; now vm_compute]. }
    cbn [app] in *. now rewrite Hinf, Hm.
  - cbn [scan_once].
    replace (N.eqb (digit_char d) dquote) with false
      by (symmetry; apply N.eqb_neq; unfold digit_char, dquote; lia).
    rewrite !Hnot by (right; now vm_compute).
    unfold scan_atom. cbv zeta.
    rewrite !Hnot by ((right; now vm_compute) || (left; now vm_compute)).
    now rewrite Hm.
Qed.

End EncodedValues.

Section ScanEncoded.

Lemma reparse_number_text (neg : bool) (ids fds : list Z) (ex : option (bool * list Z)) :
  integer_digits ids ->
  Forall is_dec fds ->
  match ex with
  | Some (_, eds) => eds <> [] /\ Forall is_dec eds
  | None => True
  end ->
  reparse_number (number_text neg ids fds ex) = number_value neg ids fds (exp_value ex).
Proof.
  intros Hids Hfds Hex. unfold reparse_number.
  pose proof (match_number_text neg ids fds ex [] Hids Hfds Hex eq_refl) as H.
  rewrite app_nil_r in H. now rewrite H.
Qed.

(** What the encoder writes for a value starts like a value. *)
Lemma iterencode_start (indent : option nat) (level : nat) (v : Value) :
  exists c r, iterencode indent level v = c :: r /\ value_start c = true.
Proof.
  destruct v as [|[|]|n|[|[|]|neg m e]|s|[|x xs]|[|[k x] xs]];
    try (eexists _, _; split; [reflexivity | reflexivity]).
  - cbn [iterencode]. rewrite str_of_int_text.
    destruct (number_text_start (n <? 0)%Z (digits (Z.abs n)) [] None)
      as (c & r & _ & E & Hc & _); [apply digits_integer, Z.abs_nonneg|].
    now exists c, r.
  - cbn [iterencode floatstr float_repr].
    destruct (repr_finite_text neg m e) as (ids & fds & ex & -> & Hids & _).
    destruct (number_text_start neg ids fds ex Hids) as (c & r & _ & E & Hc & _).
    now exists c, r.
Qed.

Lemma skip_ws_encoded (w : pystr) (indent : option nat) (level : nat) (v : Value) (tail : pystr) :
  forallb is_ws w = true ->
  skip_ws (w ++ iterencode indent level v ++ tail) = iterencode indent level v ++ tail.
Proof.
  intros Hw. rewrite skip_ws_app by exact Hw.
  destruct (iterencode_start indent level v) as (c & r & -> & Hc).
  now apply skip_ws_value.
Qed.

Lemma item_separator_text (indent : option nat) :
  exists w, item_separator indent = cp "," :: w /\ forallb is_ws w = true.
Proof. destruct indent; [now exists [] | now exists [32%N]]. Qed.

Lemma closing_text (indent : option nat) (level : nat) (close : codepoint) (rest : pystr) :
  is_ws close = false ->
  (is_char close "]" = true \/ is_char close "}" = true) ->
  stops (newline_indent indent level ++ close :: rest) = true
  /\ skip_ws (newline_indent indent level ++ close :: rest) = close :: rest.
Proof.
  intros Hws Hclose. split.
  - destruct indent as [n|]; cbn [newline_indent app]; [reflexivity|].
    unfold stops. destruct Hclose as [-> | ->]; now rewrite ?orb_true_r.
  - rewrite skip_ws_app by apply newline_indent_ws. cbn [skip_ws]. now rewrite Hws.
Qed.

(** The loop over the items of a list reads them back one after the
    other. *)
Lemma array_loop_encoded (indent : option nat) (level : nat) (rest : pystr)
    (xs : list Value) (x : Value) (acc : list Value) (fuel : nat) :
  Forall (scans_back indent (S level)) (x :: xs) ->
  (list_sum (map (fun y => S (size y)) (x :: xs)) <= fuel)%nat ->
  array_loop fuel
    (iterencode indent (S level) x
     ++ flat_map (fun y => item_separator indent ++ newline_indent indent (S level)
                           ++ iterencode indent (S level) y) xs
     ++ newline_indent indent level ++ lit "]" ++ rest) acc
  = Ok (PyList (acc ++ map reparse (x :: xs)), rest).
Proof.
  revert x acc fuel; induction xs as [|y ys IH]; intros x acc fuel Hall Hfuel;
    inversion Hall as [|? ? Hx Hrest]; subst;
    cbn [map list_sum fold_right] in Hfuel;
    (destruct fuel as [|fuel]; [lia|]); cbn [array_loop flat_map].
  - destruct (closing_text indent level (cp "]") rest eq_refl (or_introl eq_refl))
      as [Hstop Hskip].
    cbn [app]. cbn [lit list_ascii_of_string map app] in *.
    rewrite (Hx _ fuel Hstop) by lia. rewrite Hskip.
    change (is_char (cp "]") "]") with true. reflexivity.
  - destruct (item_separator_text indent) as (w & Ew & Hw). rewrite Ew at 1.
    rewrite <- !app_assoc. cbn [app].
    rewrite (Hx _ fuel) by (reflexivity || lia).
    cbn [skip_ws]. change (is_ws (cp ",")) with false. cbv iota.
    change (is_char (cp ",") "]") with false. change (is_char (cp ",") ",") with true.
    cbv iota.
    rewrite skip_ws_app by exact Hw.
    rewrite skip_ws_encoded by apply newline_indent_ws.
    rewrite (IH y (acc ++ [reparse x]) fuel Hrest) by (cbn [map list_sum fold_right]; lia).
    cbn [map]. now rewrite <- app_assoc.
Qed.

Lemma skip_ws_basestring (k tail : pystr) :
  skip_ws (encode_basestring k ++ tail) = encode_basestring k ++ tail.
Proof. reflexivity. Qed.

(** One round of the loop over the items of a [dict]: the key, the
    colon, the value. *)
Lemma object_loop_step (fuel : nat) (k body : pystr) (d : dict) (c : codepoint) (r : pystr) :
  body = c :: r -> value_start c = true ->
  object_loop (S fuel) (encode_basestring k ++ key_separator ++ body) d
  = match scan_once fuel body with
    | Ok (v, r3) =>
        match skip_ws r3 with
        | c :: r4 =>
            if is_char c "}" then Ok (PyDict (dict_set d k v), r4)
            else if is_char c "," then object_loop fuel (skip_ws r4) (dict_set d k v)
            else Fail
        | [] => Fail
        end
    | Fail => Fail
    | OutOfFuel => OutOfFuel
    end.
Proof.
  intros Ebody Hc. unfold encode_basestring. cbn [app object_loop].
  rewrite N.eqb_refl. rewrite <- app_assoc. cbn [app].
  rewrite scanstring_encoded.
  change (skip_ws (key_separator ++ body)) with (cp ":" :: cp " " :: body).
  cbv iota. change (is_char (cp ":") ":") with true. cbv iota.
  change (skip_ws (cp " " :: body)) with (skip_ws body).
  rewrite Ebody at 1. rewrite (skip_ws_value c r Hc). now rewrite <- Ebody.
Qed.

Lemma object_loop_encoded (indent : option nat) (level : nat) (rest : pystr)
    (xs : list (pystr * Value)) (k : pystr) (x : Value) (d : dict) (fuel : nat) :
  Forall (fun kv => scans_back indent (S level) (snd kv)) ((k, x) :: xs) ->
  (list_sum (map (fun kv => S (size (snd kv))) ((k, x) :: xs)) <= fuel)%nat ->
  object_loop fuel
    (encode_basestring k ++ key_separator ++ iterencode indent (S level) x
     ++ flat_map (fun kv => item_separator indent ++ newline_indent indent (S level)
                            ++ encode_basestring (fst kv) ++ key_separator
                            ++ iterencode indent (S level) (snd kv)) xs
     ++ newline_indent indent level ++ lit "}" ++ rest) d
  = Ok (PyDict (set_items d ((k, x) :: xs)), rest).
Proof.
  revert k x d fuel; induction xs as [|[k' y] ys IH]; intros k x d fuel Hall Hfuel;
    inversion Hall as [|? ? Hx Hrest]; subst; cbn [snd] in Hx;
    cbn [map list_sum fold_right snd] in Hfuel;
    (destruct fuel as [|fuel]; [lia|]);
    destruct (iterencode_start indent (S level) x) as (c & r & Ec & Hc);
    cbn [flat_map].
  - destruct (closing_text indent level (cp "}") rest eq_refl (or_intror eq_refl))
      as [Hstop Hskip].
    cbn [app]. cbn [lit list_ascii_of_string map app] in *.
    rewrite (object_loop_step fuel k _ d c
               (r ++ newline_indent indent level ++ cp "}" :: rest))
      by (rewrite ?Ec; reflexivity || exact Hc).
    rewrite (Hx _ fuel Hstop) by lia. rewrite Hskip.
    change (is_char (cp "}") "}") with true. reflexivity.
  - destruct (item_separator_text indent) as (w & Ew & Hw). rewrite Ew at 1.
    cbn [fst snd]. rewrite <- !app_assoc. cbn [app].
    erewrite (object_loop_step fuel k _ d c) by (rewrite ?Ec; reflexivity || exact Hc).
    rewrite (Hx _ fuel) by (reflexivity || lia).
    cbn [skip_ws]. change (is_ws (cp ",")) with false. cbv iota.
    change (is_char (cp ",") "}") with false. change (is_char (cp ",") ",") with true.
    cbv iota.
    rewrite skip_ws_app by exact Hw.
    rewrite skip_ws_app by apply newline_indent_ws.
    rewrite skip_ws_basestring.
    rewrite (IH k' y (dict_set d k (reparse x)) fuel Hrest)
      by (cbn [map list_sum fold_right snd]; lia).
    reflexivity.
Qed.

Lemma scan_once_array_start (fuel : nat) (w body : pystr) (c : codepoint) (r : pystr) :
  forallb is_ws w = true -> body = c :: r -> value_start c = true ->
  scan_once (S fuel) (cp "[" :: w ++ body) = array_loop fuel body [].
Proof.
  intros Hw -> Hc. cbn [scan_once].
  change (N.eqb (cp "[") dquote) with false. change (is_char (cp "[") "{") with false.
  change (is_char (cp "[") "[") with true. cbv iota.
  rewrite skip_ws_app by exact Hw. rewrite (skip_ws_value c r Hc).
  destruct (value_start_spec c Hc) as (_ & -> & _). reflexivity.
Qed.

Lemma scan_once_object_start (fuel : nat) (w k tail : pystr) :
  forallb is_ws w = true ->
  scan_once (S fuel) (cp "{" :: w ++ encode_basestring k ++ tail)
  = object_loop fuel (encode_basestring k ++ tail) [].
Proof.
  intros Hw. cbn [scan_once].
  change (N.eqb (cp "{") dquote) with false. change (is_char (cp "{") "{") with true.
  cbv iota. rewrite skip_ws_app by exact Hw. reflexivity.
Qed.

(** The scanner reads back what the encoder writes, whatever the
    indentation: from the output for [v] it makes [reparse v]. *)
Theorem scan_once_encoded (v : Value) (indent : option nat) (level : nat) :
  scans_back indent level v.
Proof.
  revert level; induction v as [|b|n|f|s|items IH|items IH] using Value_ind;
    intros level rest fuel Hrest Hfuel; cbn [size] in Hfuel;
    (destruct fuel as [|fuel]; [lia|]).
  - reflexivity.
  - destruct b; reflexivity.
  - cbn [iterencode reparse]. rewrite str_of_int_text.
    rewrite scan_once_number_text; try trivial.
    + cbn [exp_value number_value]. do 3 f_equal.
      destruct (digits_spec (Z.abs n) (Z.abs_nonneg n)) as (_ & _ & _ & _ & _ & ->).
      destruct (n <? 0)%Z eqn:E; [apply Z.ltb_lt in E | apply Z.ltb_ge in E]; lia.
    + apply digits_integer, Z.abs_nonneg.
  - destruct f as [|[|]|neg m e]; try reflexivity.
    cbn [iterencode floatstr float_repr reparse].
    destruct (repr_finite_text neg m e) as (ids & fds & ex & -> & Hids & Hfds & Hex).
    rewrite scan_once_number_text by assumption.
    now rewrite reparse_number_text.
  - cbn [iterencode reparse scan_once]. unfold encode_basestring. cbn [app].
    rewrite N.eqb_refl. rewrite <- app_assoc. cbn [app].
    now rewrite scanstring_encoded.
  - destruct items as [|x xs]; [reflexivity|].
    cbn [iterencode reparse]. cbn [lit list_ascii_of_string map app].
    rewrite <- !app_assoc.
    destruct (iterencode_start indent (S level) x) as (c & r & Ec & Hc).
    erewrite scan_once_array_start;
      [| apply newline_indent_ws | rewrite Ec at 1; reflexivity | exact Hc].
    apply (array_loop_encoded indent level rest xs x [] fuel).
    + eapply Forall_impl; [|exact IH]. intros y Hy. exact (Hy (S level)).
    + cbn [map list_sum fold_right] in *. lia.
  - destruct items as [|[k x] xs]; [reflexivity|].
    cbn [iterencode reparse]. cbn [lit list_ascii_of_string map app].
    rewrite <- !app_assoc.
    rewrite scan_once_object_start by apply newline_indent_ws.
    apply (object_loop_encoded indent level rest xs k x [] fuel).
    + eapply Forall_impl; [|exact IH]. intros y Hy. exact (Hy (S level)).
    + cbn [map list_sum fold_right snd] in *. lia.
Qed.

End ScanEncoded.

(* ================================================================== *)
(** * The fuel of the scanner *)
(* ================================================================== *)

Section Fuel.

(** More fuel does not change an outcome that was reached. *)
Lemma fuel_mono (f : nat) :
  forall f', (f <= f')%nat ->
    (forall s, scan_once f s <> OutOfFuel -> scan_once f' s = scan_once f s)
    /\ (forall s acc, array_loop f s acc <> OutOfFuel ->
                      array_loop f' s acc = array_loop f s acc)
    /\ (forall s d, object_loop f s d <> OutOfFuel ->
                    object_loop f' s d = object_loop f s d).
Proof.
  induction f as [|f IH]; intros f' Hle.
  - repeat split; intros; exfalso; auto.
  - destruct f' as [|f']; [lia|].
    destruct (IH f' ltac:(lia)) as (IHs & IHa & IHo).
    split; [|split].
    + intros s. cbn [scan_once].
      destruct s as [|c r]; [reflexivity|].
      destruct (N.eqb c dquote); [reflexivity|].
      destruct (is_char c "{").
      { destruct (skip_ws r) as [|c' r']; [reflexivity|].
        destruct (is_char c' "}"); [reflexivity|]. apply IHo. }
      destruct (is_char c "[").
      { destruct (skip_ws r) as [|c' r']; [reflexivity|].
        destruct (is_char c' "]"); [reflexivity|]. apply IHa. }
      reflexivity.
    + intros s acc. cbn [array_loop]. intros H.
      assert (Hs : scan_once f s <> OutOfFuel).
      { intros E. rewrite E in H. now apply H. }
      rewrite (IHs s Hs).
      destruct (scan_once f s) as [[v r]| |]; [|reflexivity|reflexivity].
      destruct (skip_ws r) as [|c r']; [reflexivity|].
      destruct (is_char c "]"); [reflexivity|].
      destruct (is_char c ","); [|reflexivity]. now apply IHa.
    + intros s d. cbn [object_loop]. intros H.
      destruct s as [|q r]; [reflexivity|].
      destruct (N.eqb q dquote); [|reflexivity].
      destruct (scanstring r) as [[key r1]|]; [|reflexivity].
      destruct (skip_ws r1) as [|colon r2]; [reflexivity|].
      destruct (is_char colon ":"); [|reflexivity].
      assert (Hs : scan_once f (skip_ws r2) <> OutOfFuel).
      { intros E. rewrite E in H. now apply H. }
      rewrite (IHs _ Hs).
      destruct (scan_once f (skip_ws r2)) as [[v r3]| |]; [|reflexivity|reflexivity].
      destruct (skip_ws r3) as [|c r4]; [reflexivity|].
      destruct (is_char c "}"); [reflexivity|].
      destruct (is_char c ","); [|reflexivity]. now apply IHo.
Qed.

Lemma skip_ws_length (s : pystr) : (length (skip_ws s) <= length s)%nat.
Proof.
  induction s as [|c s IH]; [reflexivity|]. cbn [skip_ws].
  destruct (is_ws c); cbn [length]; lia.
Qed.

Lemma strip_prefix_length (p s r : pystr) :
  strip_prefix p s = Some r -> length s = (length p + length r)%nat.
Proof. intros H. apply strip_prefix_some in H. subst. apply length_app. Qed.

Lemma span_digits_length (s : pystr) (ds : list Z) (r : pystr) :
  span_digits s = (ds, r) -> length s = (length ds + length r)%nat.
Proof.
  revert ds r; induction s as [|c s IH]; intros ds r; cbn [span_digits].
  - intros H; injection H as <- <-. reflexivity.
  - destruct (is_digit c).
    + destruct (span_digits s) as [ds' r'] eqn:E.
      intros H; injection H as <- <-. cbn [length]. now rewrite (IH _ _ eq_refl).
    + intros H; injection H as <- <-. reflexivity.
Qed.

Lemma match_fraction_length (s : pystr) (fds : list Z) (r : pystr) :
  match_fraction s = (fds, r) -> (length r <= length s)%nat.
Proof.
  unfold match_fraction.
  destruct s as [|dot [|d s']]; try (intros H; injection H as <- <-; reflexivity).
  destruct (is_char dot "." && is_digit d).
  - intros H. apply span_digits_length in H. cbn [length] in *. lia.
  - intros H; injection H as <- <-. reflexivity.
Qed.

Lemma match_exponent_length (s : pystr) (ex : option Z) (r : pystr) :
  match_exponent s = (ex, r) -> (length r <= length s)%nat.
Proof.
  unfold match_exponent.
  destruct s as [|e s']; [intros H; injection H as <- <-; reflexivity|].
  destruct (is_char e "e" || is_char e "E");
    [|intros H; injection H as <- <-; reflexivity].
  destruct (match s' with
            | [] => (false, s')
            | sg :: r' =>
                if is_char sg "-" then (true, r')
                else if is_char sg "+" then (false, r') else (false, s')
            end) as [neg r1] eqn:Esign.
  assert (Hr1 : (length r1 <= length s')%nat).
  { destruct s' as [|sg r']; [injection Esign as <- <-; reflexivity|].
    destruct (is_char sg "-"); [injection Esign as <- <-; cbn [length]; lia|].
    destruct (is_char sg "+"); injection Esign as <- <-; cbn [length]; lia. }
  destruct (span_digits r1) as [[|d ds] r2] eqn:Espan.
  - intros H; injection H as <- <-. reflexivity.
  - intros H; injection H as <- <-. apply span_digits_length in Espan.
    cbn [length] in *. lia.
Qed.

Lemma match_number_length (s : pystr) (v : Value) (r : pystr) :
  match_number s = Some (v, r) -> (length r < length s)%nat.
Proof.
  unfold match_number.
  destruct (match s with
            | [] => (false, s)
            | c :: r0 => if is_char c "-" then (true, r0) else (false, s)
            end) as [neg s1] eqn:Esign.
  assert (Hs1 : (length s1 <= length s)%nat).
  { destruct s as [|c r0]; [injection Esign as <- <-; reflexivity|].
    destruct (is_char c "-"); injection Esign as <- <-; cbn [length]; lia. }
  destruct s1 as [|c r0]; [discriminate|].
  destruct (if is_char c "0" then Some ([0%Z], r0)
            else if is_digit c then Some (span_digits (c :: r0)) else None)
    as [[ids s2]|] eqn:Eint; [|discriminate].
  assert (Hs2 : (length s2 < length (c :: r0))%nat).
  { destruct (is_char c "0"); [injection Eint as <- <-; cbn [length]; lia|].
    destruct (is_digit c) eqn:Ed; [|discriminate]. injection Eint as Eint.
    cbn [span_digits] in Eint. rewrite Ed in Eint.
    destruct (span_digits r0) as [ds' r'] eqn:E. injection Eint as <- <-.
    apply span_digits_length in E. cbn [length]. lia. }
  destruct (match_fraction s2) as [fds s3] eqn:Ef.
  destruct (match_exponent s3) as [ex s4] eqn:Ee.
  apply match_fraction_length in Ef. apply match_exponent_length in Ee.
  intros H; injection H as <- <-. lia.
Qed.

Lemma scan_atom_length (s : pystr) (v : Value) (r : pystr) :
  scan_atom s = Ok (v, r) -> (length r < length s)%nat.
Proof.
  assert (Hnum : match match_number s with Some res => Ok res | None => Fail end
                 = Ok (v, r) -> (length r < length s)%nat).
  { destruct (match_number s) as [[v' r']|] eqn:E; [|discriminate].
    intros H; injection H as <- <-. now apply match_number_length in E. }
  assert (Hconst : forall word w other,
            lit word <> [] ->
            (other = Ok (v, r) -> (length r < length s)%nat) ->
            match strip_prefix (lit word) s with
            | Some r' => Ok (w, r')
            | None => other
            end = Ok (v, r) -> (length r < length s)%nat).
  { intros word w other Hne Hother.
    destruct (strip_prefix (lit word) s) as [r'|] eqn:E; [|exact Hother].
    intros H; injection H as <- <-. apply strip_prefix_length in E.
    destruct (lit word); [contradiction|]. cbn [length] in E. lia. }
  unfold scan_atom. cbv zeta. destruct s as [|c s']; [discriminate|].
  repeat match goal with
         | |- (if ?b then _ else _) = _ -> _ => destruct b
         end;
    try exact Hnum; apply Hconst; try exact Hnum; discriminate.
Qed.


(** A string and its closing quote take at least one character. *)
Lemma scanstring_length (n : nat) :
  forall s t r, (length s <= n)%nat -> scanstring s = Some (t, r) ->
                (length r < length s)%nat.
Proof.
  induction n as [|n IH]; intros s t r Hn.
  - destruct s; [discriminate | cbn [length] in Hn; lia].
  - assert (Hmore : forall (c : codepoint) (s' : pystr),
              (length s' < length s)%nat ->
              match scanstring s' with
              | Some (t', r') => Some (c :: t', r')
              | None => None
              end = Some (t, r) -> (length r < length s)%nat).
    { intros c s' Hs'. destruct (scanstring s') as [[t' r']|] eqn:E; [|discriminate].
      intros H; injection H as <- <-.
      apply IH in E; lia. }
    destruct s as [|c s1]; [discriminate|]. cbn [scanstring].
    destruct (N.eqb c dquote).
    { intros H; injection H as <- <-. cbn [length]. lia. }
    destruct (is_char c "\").
    2:{ destruct (N.leb c 31); [discriminate|]. apply Hmore. cbn [length]. lia. }
    destruct s1 as [|esc s2]; [discriminate|].
    destruct (is_char esc "u").
    2:{ destruct (unescape esc); [|discriminate]. apply Hmore. cbn [length]. lia. }
    destruct s2 as [|h1 [|h2 [|h3 [|h4 s6]]]]; try discriminate.
    destruct (hex4 h1 h2 h3 h4) as [uni|]; [|discriminate].
    destruct s6 as [|b [|u [|k1 [|k2 [|k3 [|k4 [|k5 s13]]]]]]];
      try (apply Hmore; cbn [length]; lia).
    destruct (is_high_surrogate uni && is_char b "\" && is_char u "u");
      [|apply Hmore; cbn [length]; lia].
    destruct (hex4 k1 k2 k3 k4) as [uni2|]; [|discriminate].
    destruct (is_low_surrogate uni2); apply Hmore; cbn [length]; lia.
Qed.

(** What a scan leaves is shorter than what it was given. *)
Lemma scan_length (f : nat) :
  (forall s v r, scan_once f s = Ok (v, r) -> (length r < length s)%nat)
  /\ (forall s acc v r, array_loop f s acc = Ok (v, r) -> (length r < length s)%nat)
  /\ (forall s d v r, object_loop f s d = Ok (v, r) -> (length r < length s)%nat).
Proof.
  induction f as [|f (IHs & IHa & IHo)]; [repeat split; discriminate|].
  split; [|split].
  - intros s v r. cbn [scan_once].
    destruct s as [|c s1]; [discriminate|].
    destruct (N.eqb c dquote).
    { destruct (scanstring s1) as [[t r']|] eqn:E; [|discriminate].
      intros H; injection H as <- <-.
      apply (scanstring_length _ _ _ _ (le_n _)) in E. cbn [length]. lia. }
    pose proof (skip_ws_length s1) as Hws.
    destruct (is_char c "{").
    { destruct (skip_ws s1) as [|c' r'] eqn:E; [discriminate|].
      destruct (is_char c' "}").
      - intros H; injection H as <- <-. cbn [length] in *. lia.
      - intros H. apply IHo in H. cbn [length] in *. lia. }
    destruct (is_char c "[").
    { destruct (skip_ws s1) as [|c' r'] eqn:E; [discriminate|].
      destruct (is_char c' "]").
      - intros H; injection H as <- <-. cbn [length] in *. lia.
      - intros H. apply IHa in H. cbn [length] in *. lia. }
    apply scan_atom_length.
  - intros s acc v r. cbn [array_loop].
    destruct (scan_once f s) as [[x r1]| |] eqn:E; try discriminate.
    apply IHs in E. pose proof (skip_ws_length r1) as Hws.
    destruct (skip_ws r1) as [|c r2]; [discriminate|].
    destruct (is_char c "]").
    + intros H; injection H as <- <-. cbn [length] in *. lia.
    + destruct (is_char c ","); [|discriminate].
      intros H. apply IHa in H. pose proof (skip_ws_length r2).
      cbn [length] in *. lia.
  - intros s d v r. cbn [object_loop].
    destruct s as [|q s1]; [discriminate|].
    destruct (N.eqb q dquote); [|discriminate].
    destruct (scanstring s1) as [[key r1]|] eqn:Ekey; [|discriminate].
    apply (scanstring_length _ _ _ _ (le_n _)) in Ekey.
    pose proof (skip_ws_length r1) as Hws1.
    destruct (skip_ws r1) as [|colon r2]; [discriminate|].
    destruct (is_char colon ":"); [|discriminate].
    pose proof (skip_ws_length r2) as Hws2.
    destruct (scan_once f (skip_ws r2)) as [[x r3]| |] eqn:E; try discriminate.
    apply IHs in E. pose proof (skip_ws_length r3) as Hws3.
    destruct (skip_ws r3) as [|c r4]; [discriminate|].
    destruct (is_char c "}").
    + intros H; injection H as <- <-. cbn [length] in *. lia.
    + destruct (is_char c ","); [|discriminate].
      intros H. apply IHo in H. pose proof (skip_ws_length r4).
      cbn [length] in *. lia.
Qed.

(** With fuel beyond twice the length of the text, no scan runs out of
    fuel. *)
Lemma scan_fuel (f : nat) :
  (forall s, (2 * length s < f)%nat -> scan_once f s <> OutOfFuel)
  /\ (forall s acc, (2 * length s + 1 < f)%nat -> array_loop f s acc <> OutOfFuel)
  /\ (forall s d, (2 * length s + 1 < f)%nat -> object_loop f s d <> OutOfFuel).
Proof.
  induction f as [|f (IHs & IHa & IHo)]; [repeat split; intros; lia|].
  destruct (scan_length f) as (Ls & La & Lo).
  split; [|split].
  - intros s Hf. cbn [scan_once].
    destruct s as [|c s1]; [discriminate|].
    destruct (N.eqb c dquote).
    { destruct (scanstring s1) as [[t r']|]; discriminate. }
    pose proof (skip_ws_length s1) as Hws. cbn [length] in Hf.
    destruct (is_char c "{").
    { destruct (skip_ws s1) as [|c' r'] eqn:E; [discriminate|].
      destruct (is_char c' "}"); [discriminate|]. apply IHo. lia. }
    destruct (is_char c "[").
    { destruct (skip_ws s1) as [|c' r'] eqn:E; [discriminate|].
      destruct (is_char c' "]"); [discriminate|]. apply IHa. lia. }
    unfold scan_atom. cbv zeta.
    repeat match goal with
           | |- (if ?b then _ else _) <> _ => destruct b
           | |- match strip_prefix ?p ?s with _ => _ end <> _ => destruct (strip_prefix p s)
           | |- match match_number ?s with _ => _ end <> _ => destruct (match_number s)
           end; discriminate.
  - intros s acc Hf. cbn [array_loop].
    pose proof (IHs s ltac:(lia)) as Hs.
    destruct (scan_once f s) as [[x r1]| |] eqn:E; [|discriminate|contradiction].
    apply Ls in E. pose proof (skip_ws_length r1) as Hws.
    destruct (skip_ws r1) as [|c r2]; [discriminate|].
    destruct (is_char c "]"); [discriminate|].
    destruct (is_char c ","); [|discriminate].
    apply IHa. pose proof (skip_ws_length r2). cbn [length] in *. lia.
  - intros s d Hf. cbn [object_loop].
    destruct s as [|q s1]; [discriminate|].
    destruct (N.eqb q dquote); [|discriminate].
    destruct (scanstring s1) as [[key r1]|] eqn:Ekey; [|discriminate].
    apply (scanstring_length _ _ _ _ (le_n _)) in Ekey.
    pose proof (skip_ws_length r1) as Hws1.
    destruct (skip_ws r1) as [|colon r2]; [discriminate|].
    destruct (is_char colon ":"); [|discriminate].
    pose proof (skip_ws_length r2) as Hws2. cbn [length] in *.
    pose proof (IHs (skip_ws r2) ltac:(lia)) as Hs.
    destruct (scan_once f (skip_ws r2)) as [[x r3]| |] eqn:E; [|discriminate|contradiction].
    apply Ls in E. pose proof (skip_ws_length r3) as Hws3.
    destruct (skip_ws r3) as [|c r4]; [discriminate|].
    destruct (is_char c "}"); [discriminate|].
    destruct (is_char c ","); [|discriminate].
    apply IHo. pose proof (skip_ws_length r4). cbn [length] in *. lia.
Qed.

(** The fuel of [loads] never runs out: a [None] of [loads] is a
    decoding error. *)
Theorem loads_fuel (s : pystr) :
  scan_once (2 * length s + 1) (skip_ws s) <> OutOfFuel.
Proof.
  apply (proj1 (scan_fuel _)). pose proof (skip_ws_length s). lia.
Qed.

(** [json.loads] reads back what [json.dumps] writes, with or without
    indentation and whatever whitespace follows: the value it returns is
    [reparse v]. *)
Theorem loads_dumps (indent : option nat) (v : Value) (w : pystr) :
  forallb is_ws w = true ->
  loads (dumps indent v ++ w) = Some (reparse v).
Proof.
  intros Hw. unfold loads, dumps.
  destruct (iterencode_start indent 0 v) as (c & r & Ec & Hc).
  assert (Hstop : stops w = true).
  { destruct w as [|c' w']; [reflexivity|]. cbn [forallb] in Hw.
    apply andb_true_iff in Hw as [Hc' _]. unfold stops. now rewrite Hc', !orb_true_r. }
  assert (Hskip : skip_ws (iterencode indent 0 v ++ w) = iterencode indent 0 v ++ w).
  { rewrite Ec. cbn [app]. now apply skip_ws_value. }
  assert (Hbom : startswith [65279%N] (iterencode indent 0 v ++ w) = false).
  { rewrite Ec. cbn [app]. unfold startswith. cbn [strip_prefix].
    destruct (value_start_spec c Hc) as (_ & _ & _ & _ & Hb).
    rewrite N.eqb_sym. now rewrite Hb. }
  rewrite Hbom, Hskip.
  set (text := iterencode indent 0 v ++ w).
  pose proof (scan_once_encoded v indent 0 w (size v) Hstop (le_n _)) as Hscan.
  fold text in Hscan.
  assert (Hfuel : scan_once (2 * length text + 1) text = Ok (reparse v, w)).
  { destruct (Nat.le_ge_cases (size v) (2 * length text + 1)) as [Hle|Hle].
    - rewrite (proj1 (fuel_mono _ _ Hle)); [exact Hscan|]. now rewrite Hscan.
    - rewrite <- (proj1 (fuel_mono _ _ Hle)); [exact Hscan|].
      apply (proj1 (scan_fuel _)). lia. }
  rewrite Hfuel. rewrite <- (app_nil_r w), skip_ws_app by exact Hw. reflexivity.
Qed.

End Fuel.

(* ================================================================== *)
(** * Rounding to binary64 *)
(* ================================================================== *)

Section Rounding.

Local Open Scope Z_scope.

Lemma float_eqb_eq (a b : pyfloat) : float_eqb a b = true -> a = b.
Proof.
  destruct a as [|s|s m e], b as [|t|t n f]; cbn [float_eqb]; try discriminate;
    try reflexivity.
  - intros H. apply eqb_prop in H. now subst.
  - intros H. apply andb_true_iff in H as [H He]. apply andb_true_iff in H as [Hs Hm].
    apply eqb_prop in Hs. apply Z.eqb_eq in Hm, He. now subst.
Qed.

Lemma float_eqb_refl (a : pyfloat) : float_eqb a a = true.
Proof.
  destruct a as [|s|s m e]; cbn [float_eqb]; [reflexivity|apply eqb_reflx|].
  now rewrite eqb_reflx, !Z.eqb_refl.
Qed.

Lemma pow2_pos (z : Z) : 0 <= z -> 0 < 2 ^ z.
Proof. intros H. apply Z.pow_pos_nonneg; lia. Qed.

Lemma pow10_pos (z : Z) : 0 <= z -> 0 < 10 ^ z.
Proof. intros H. apply Z.pow_pos_nonneg; lia. Qed.

Lemma pow2_succ (z : Z) : 0 <= z -> 2 ^ (z + 1) = 2 * 2 ^ z.
Proof. intros H. rewrite Z.pow_add_r by lia. lia. Qed.

(** [2^l <= num / den] *)
Lemma ge_pow2_step (num den l : Z) :
  0 < num -> 0 < den -> ge_pow2 num den (l + 1) = true -> ge_pow2 num den l = true.
Proof.
  intros Hn Hd. unfold ge_pow2.
  destruct (Z.leb_spec 0 (l + 1)) as [H1|H1], (Z.leb_spec 0 l) as [H0|H0]; try lia;
    rewrite !Z.leb_le.
  - rewrite pow2_succ by lia. pose proof (pow2_pos l H0). nia.
  - assert (l = -1) by lia. subst l. cbn. lia.
  - replace (- l) with (- (l + 1) + 1) by lia. rewrite pow2_succ by lia.
    pose proof (pow2_pos (- (l + 1)) ltac:(lia)). nia.
Qed.

Lemma ge_pow2_antitone (num den l l' : Z) :
  0 < num -> 0 < den -> l <= l' ->
  ge_pow2 num den l' = true -> ge_pow2 num den l = true.
Proof.
  intros Hn Hd Hl H.
  replace l with (l' - Z.of_nat (Z.to_nat (l' - l))) by lia.
  induction (Z.to_nat (l' - l)) as [|k IH]; [now rewrite Z.sub_0_r|].
  apply ge_pow2_step; [assumption..|].
  replace (l' - Z.of_nat (S k) + 1) with (l' - Z.of_nat k) by lia. exact IH.
Qed.

Lemma floor_log2_spec (num den : Z) :
  0 < num -> 0 < den ->
  ge_pow2 num den (floor_log2 num den) = true
  /\ ge_pow2 num den (floor_log2 num den + 1) = false.
Proof.
  intros Hn Hd. unfold floor_log2.
  destruct (Z.log2_spec num Hn) as [Ha1 Ha2], (Z.log2_spec den Hd) as [Hb1 Hb2].
  pose proof (Z.log2_nonneg num) as Ha. pose proof (Z.log2_nonneg den) as Hb.
  set (a := Z.log2 num) in *. set (b := Z.log2 den) in *.
  replace (Z.succ a) with (a + 1) in Ha2 by lia.
  replace (Z.succ b) with (b + 1) in Hb2 by lia.
  rewrite pow2_succ in Ha2, Hb2 by lia.
  assert (Hup : ge_pow2 num den (a - b + 1) = false).
  { unfold ge_pow2. destruct (Z.leb_spec 0 (a - b + 1)) as [H|H].
    - apply Z.leb_gt. 
      assert (E : 2 ^ (a + 1) = 2 ^ (a - b + 1) * 2 ^ b).
      { rewrite <- Z.pow_add_r by lia. f_equal. lia. }
      rewrite pow2_succ in E by lia. pose proof (pow2_pos (a - b + 1) H). nia.
    - apply Z.leb_gt.
      assert (E : 2 ^ b = 2 ^ (a + 1) * 2 ^ (- (a - b + 1))).
      { rewrite <- Z.pow_add_r by lia. f_equal. lia. }
      rewrite pow2_succ in E by lia. pose proof (pow2_pos (- (a - b + 1)) ltac:(lia)). nia. }
  assert (Hdown : ge_pow2 num den (a - b - 1) = true).
  { unfold ge_pow2. destruct (Z.leb_spec 0 (a - b - 1)) as [H|H].
    - apply Z.leb_le.
      assert (E : 2 ^ a = 2 ^ (a - b - 1) * (2 * 2 ^ b)).
      { rewrite <- pow2_succ, <- Z.pow_add_r by lia. f_equal. lia. }
      pose proof (pow2_pos (a - b - 1) H). nia.
    - apply Z.leb_le.
      assert (E : 2 * 2 ^ b = 2 ^ a * 2 ^ (- (a - b - 1))).
      { rewrite <- pow2_succ, <- Z.pow_add_r by lia. f_equal. lia. }
      pose proof (pow2_pos (- (a - b - 1)) ltac:(lia)). nia. }
  destruct (ge_pow2 num den (a - b)) eqn:E.
  - now split.
  - split; [exact Hdown|]. now replace (a - b - 1 + 1) with (a - b) by lia.
Qed.

Lemma floor_log2_unique (num den l : Z) :
  0 < num -> 0 < den ->
  ge_pow2 num den l = true -> ge_pow2 num den (l + 1) = false ->
  floor_log2 num den = l.
Proof.
  intros Hn Hd H1 H2. destruct (floor_log2_spec num den Hn Hd) as [F1 F2].
  destruct (Z.lt_trichotomy (floor_log2 num den) l) as [H|[H|H]]; [|exact H|].
  - rewrite (ge_pow2_antitone num den (floor_log2 num den + 1) l Hn Hd ltac:(lia) H1) in F2.
    discriminate.
  - rewrite (ge_pow2_antitone num den (l + 1) (floor_log2 num den) Hn Hd ltac:(lia) F1) in H2.
    discriminate.
Qed.

(** [2^(j+e) <= num / den] in terms of the numerator and denominator
    scaled for the exponent [e]. *)
Lemma ge_pow2_scaled (num den e j : Z) :
  0 < num -> 0 < den -> 0 <= j ->
  ge_pow2 num den (j + e) = (scaled_den den e * 2 ^ j <=? scaled_num num e).
Proof.
  intros Hn Hd Hj. unfold ge_pow2, scaled_den, scaled_num.
  destruct (Z.leb_spec 0 e) as [He|He].
  - replace (0 <=? j + e) with true by (symmetry; apply Z.leb_le; lia).
    rewrite Z.pow_add_r by lia. f_equal. ring.
  - pose proof (pow2_pos (- e) ltac:(lia)) as Hw. pose proof (pow2_pos j Hj) as Hpj.
    destruct (Z.leb_spec 0 (j + e)) as [H|H].
    + assert (E : 2 ^ j = 2 ^ (j + e) * 2 ^ (- e)).
      { rewrite <- Z.pow_add_r by lia. f_equal. lia. }
      pose proof (pow2_pos (j + e) H) as Hp.
      apply eq_true_iff_eq. rewrite !Z.leb_le. rewrite E. nia.
    + assert (E : 2 ^ (- e) = 2 ^ (- (j + e)) * 2 ^ j).
      { rewrite <- Z.pow_add_r by lia. f_equal. lia. }
      pose proof (pow2_pos (- (j + e)) ltac:(lia)) as Hp.
      apply eq_true_iff_eq. rewrite !Z.leb_le. rewrite E. nia.
Qed.

Lemma round_ratio_round_at (neg : bool) (num den : Z) :
  num <> 0 ->
  round_ratio neg num den
  = round_at neg num den (Z.max (floor_log2 num den - 52) emin).
Proof.
  intros H. unfold round_ratio. apply Z.eqb_neq in H. rewrite H. reflexivity.
Qed.

Lemma ge_pow2_scale (num den c l : Z) :
  0 < c -> ge_pow2 (num * c) (den * c) l = ge_pow2 num den l.
Proof.
  intros Hc. unfold ge_pow2. destruct (0 <=? l); apply eq_true_iff_eq; rewrite !Z.leb_le.
  - split; intros H; nia.
  - split; intros H; nia.
Qed.

Lemma floor_log2_scale (num den c : Z) :
  0 < num -> 0 < den -> 0 < c -> floor_log2 (num * c) (den * c) = floor_log2 num den.
Proof.
  intros Hn Hd Hc. destruct (floor_log2_spec num den Hn Hd) as [F1 F2].
  apply floor_log2_unique; try nia; now rewrite ge_pow2_scale.
Qed.

Lemma round_at_scale (neg : bool) (num den c e : Z) :
  0 < den -> 0 < c -> round_at neg (num * c) (den * c) e = round_at neg num den e.
Proof.
  intros Hd Hc. unfold round_at.
  assert (En : scaled_num (num * c) e = scaled_num num e * c).
  { unfold scaled_num. destruct (0 <=? e); ring. }
  assert (Ed : scaled_den (den * c) e = scaled_den den e * c).
  { unfold scaled_den. destruct (0 <=? e); ring. }
  assert (Hd2 : 0 < scaled_den den e).
  { unfold scaled_den. destruct (Z.leb_spec 0 e); [|exact Hd].
    pose proof (pow2_pos e ltac:(lia)). nia. }
  rewrite En, Ed.
  rewrite Z.div_mul_cancel_r by lia.
  rewrite Z.mul_mod_distr_r by lia.
  set (q := scaled_num num e / scaled_den den e).
  set (r := scaled_num num e mod scaled_den den e).
  set (d2 := scaled_den den e) in *.
  replace (d2 * c <? 2 * (r * c)) with (d2 <? 2 * r).
  2:{ apply eq_true_iff_eq. rewrite !Z.ltb_lt. split; intros H; nia. }
  replace (d2 * c =? 2 * (r * c)) with (d2 =? 2 * r).
  2:{ apply eq_true_iff_eq. rewrite !Z.eqb_eq. split; intros H; nia. }
  reflexivity.
Qed.

(** The float depends on the ratio only. *)
Lemma round_ratio_scale (neg : bool) (num den c : Z) :
  0 <= num -> 0 < den -> 0 < c ->
  round_ratio neg (num * c) (den * c) = round_ratio neg num den.
Proof.
  intros Hn Hd Hc. destruct (Z.eq_dec num 0) as [->|Hz]; [reflexivity|].
  rewrite !round_ratio_round_at by nia.
  rewrite floor_log2_scale by lia. now apply round_at_scale.
Qed.

(** ... and so does [float_of_decimal]: zeros at the end of the digits
    may go into the exponent. *)
Lemma float_of_decimal_shift (neg : bool) (mant exp10 j : Z) :
  0 <= mant -> 0 <= j ->
  float_of_decimal neg (mant * 10 ^ j) (exp10 - j) = float_of_decimal neg mant exp10.
Proof.
  intros Hm Hj. unfold float_of_decimal.
  pose proof (pow10_pos j Hj) as Hpj.
  destruct (Z.leb_spec 0 (exp10 - j)) as [H1|H1], (Z.leb_spec 0 exp10) as [H0|H0]; try lia.
  - f_equal. rewrite <- Z.mul_assoc, <- Z.pow_add_r by lia. do 2 f_equal. lia.
  - rewrite <- (round_ratio_scale neg (mant * 10 ^ exp10) 1 (10 ^ (- (exp10 - j))));
      [|pose proof (pow10_pos exp10 H0); nia | lia | apply pow10_pos; lia].
    f_equal; [|ring].
    rewrite <- Z.mul_assoc, <- Z.pow_add_r by lia. do 2 f_equal. lia.
  - rewrite <- (round_ratio_scale neg mant (10 ^ (- exp10)) (10 ^ j));
      [|lia | apply pow10_pos; lia | lia].
    f_equal. rewrite <- Z.pow_add_r by lia. f_equal. lia.
Qed.

Lemma scaled_den_pos (den e : Z) : 0 < den -> 0 < scaled_den den e.
Proof.
  intros Hd. unfold scaled_den. destruct (Z.leb_spec 0 e); [|exact Hd].
  pose proof (pow2_pos e ltac:(lia)). nia.
Qed.

Lemma scaled_num_pos (num e : Z) : 0 < num -> 0 < scaled_num num e.
Proof.
  intros Hd. unfold scaled_num. destruct (Z.leb_spec 0 e); [exact Hd|].
  pose proof (pow2_pos (- e) ltac:(lia)). nia.
Qed.

(** The quotient rounded to the nearest integer. *)
Lemma round_at_nearest (neg : bool) (num den m e : Z) :
  0 < den -> 0 < m < 2 ^ 53 -> e <= emax ->
  (2 * m - 1) * scaled_den den e < 2 * scaled_num num e ->
  2 * scaled_num num e < (2 * m + 1) * scaled_den den e ->
  round_at neg num den e = Fin neg m e.
Proof.
  intros Hd Hm He Hlo Hhi. unfold round_at.
  pose proof (scaled_den_pos den e Hd) as Hd2.
  set (n2 := scaled_num num e) in *. set (d2 := scaled_den den e) in *.
  destruct (Z_lt_le_dec n2 (m * d2)) as [Hlt|Hge].
  - assert (Eq : n2 / d2 = m - 1).
    { symmetry. apply (Z.div_unique n2 d2 (m - 1) (n2 - (m - 1) * d2)); [left; nia | ring]. }
    assert (Er : n2 mod d2 = n2 - (m - 1) * d2).
    { symmetry. apply (Z.mod_unique n2 d2 (m - 1)); [left; nia | ring]. }
    rewrite Eq, Er.
    replace (d2 <? 2 * (n2 - (m - 1) * d2)) with true by (symmetry; apply Z.ltb_lt; nia).
    cbn [orb]. replace (m - 1 + 1) with m by lia.
    replace (m =? 2 ^ 53) with false by (symmetry; apply Z.eqb_neq; lia).
    replace (emax <? e) with false by (symmetry; apply Z.ltb_ge; lia).
    reflexivity.
  - assert (Eq : n2 / d2 = m).
    { symmetry. apply (Z.div_unique n2 d2 m (n2 - m * d2)); [left; nia | ring]. }
    assert (Er : n2 mod d2 = n2 - m * d2).
    { symmetry. apply (Z.mod_unique n2 d2 m); [left; nia | ring]. }
    rewrite Eq, Er.
    replace (d2 <? 2 * (n2 - m * d2)) with false by (symmetry; apply Z.ltb_ge; nia).
    replace (d2 =? 2 * (n2 - m * d2)) with false by (symmetry; apply Z.eqb_neq; nia).
    cbn [orb andb].
    replace (m =? 2 ^ 53) with false by (symmetry; apply Z.eqb_neq; lia).
    replace (emax <? e) with false by (symmetry; apply Z.ltb_ge; lia).
    reflexivity.
Qed.

(** Just below a power of two the quotient is rounded up into the next
    binade. *)
Lemma round_at_carry (neg : bool) (num den e : Z) :
  0 < den -> e < emax ->
  (2 ^ 54 - 1) * scaled_den den e < 2 * scaled_num num e ->
  scaled_num num e < 2 ^ 53 * scaled_den den e ->
  round_at neg num den e = Fin neg (2 ^ 52) (e + 1).
Proof.
  intros Hd He Hlo Hhi. unfold round_at.
  pose proof (scaled_den_pos den e Hd) as Hd2.
  set (n2 := scaled_num num e) in *. set (d2 := scaled_den den e) in *.
  assert (Eq : n2 / d2 = 2 ^ 53 - 1).
  { symmetry. apply (Z.div_unique n2 d2 (2 ^ 53 - 1) (n2 - (2 ^ 53 - 1) * d2));
      [left; lia | ring]. }
  assert (Er : n2 mod d2 = n2 - (2 ^ 53 - 1) * d2).
  { symmetry. apply (Z.mod_unique n2 d2 (2 ^ 53 - 1)); [left; lia | ring]. }
  rewrite Eq, Er.
  replace (d2 <? 2 * (n2 - (2 ^ 53 - 1) * d2)) with true by (symmetry; apply Z.ltb_lt; lia).
  cbn [orb]. replace (2 ^ 53 - 1 + 1) with (2 ^ 53) by lia.
  rewrite Z.eqb_refl.
  replace (emax <? e + 1) with false by (symmetry; apply Z.ltb_ge; lia).
  reflexivity.
Qed.

Lemma scaled_pred (num den e : Z) :
  (scaled_num num (e - 1) = scaled_num num e
   /\ scaled_den den e = 2 * scaled_den den (e - 1))
  \/ (scaled_num num (e - 1) = 2 * scaled_num num e
      /\ scaled_den den (e - 1) = scaled_den den e).
Proof.
  unfold scaled_num, scaled_den.
  destruct (Z.leb_spec 0 e) as [H|H], (Z.leb_spec 0 (e - 1)) as [H1|H1]; try lia.
  - left. split; [reflexivity|].
    replace e with (e - 1 + 1) at 1 by lia. rewrite pow2_succ by lia. ring.
  - right. assert (e = 0) by lia. subst e.
    change (- (0 - 1)) with 1. rewrite Z.pow_1_r, Z.pow_0_r. split; lia.
  - right. split; [|reflexivity].
    replace (- (e - 1)) with (- e + 1) by lia. rewrite pow2_succ by lia. ring.
Qed.

(** A ratio within half a unit in the last place of a float, and within
    a quarter of it below a power of two, is rounded to that float. *)
Lemma round_ratio_nearest (neg : bool) (num den m e : Z) :
  0 < num -> 0 < den ->
  0 < m < 2 ^ 53 -> emin <= e <= emax -> (2 ^ 52 <= m \/ e = emin) ->
  (2 * m - 1) * scaled_den den e < 2 * scaled_num num e ->
  2 * scaled_num num e < (2 * m + 1) * scaled_den den e ->
  (m = 2 ^ 52 -> emin < e -> (4 * m - 1) * scaled_den den e < 4 * scaled_num num e) ->
  round_ratio neg num den = Fin neg m e.
Proof.
  intros Hn Hd Hm He Hcanon Hlo Hhi Hquarter.
  rewrite round_ratio_round_at by lia.
  pose proof (scaled_den_pos den e Hd) as Hd2.
  pose proof (ge_pow2_scaled num den e 52 Hn Hd ltac:(lia)) as G52.
  pose proof (ge_pow2_scaled num den e 53 Hn Hd ltac:(lia)) as G53.
  assert (H53 : ge_pow2 num den (53 + e) = false).
  { rewrite G53. apply Z.leb_gt.
    assert ((2 * m + 1) * scaled_den den e <= (2 ^ 54 - 1) * scaled_den den e)
      by (apply Z.mul_le_mono_nonneg_r; lia).
    lia. }
  destruct (Z_le_gt_dec (scaled_den den e * 2 ^ 52) (scaled_num num e)) as [Hin|Hbelow].
  - (* the ratio lies in the binade of the float *)
    assert (El : floor_log2 num den = 52 + e).
    { apply floor_log2_unique; try assumption.
      - rewrite G52. now apply Z.leb_le.
      - now replace (52 + e + 1) with (53 + e) by lia. }
    rewrite El. replace (Z.max (52 + e - 52) emin) with e by lia.
    apply round_at_nearest; try assumption; lia.
  - assert (Hl : floor_log2 num den <= 51 + e).
    { destruct (floor_log2_spec num den Hn Hd) as [F1 _].
      destruct (Z_le_gt_dec (floor_log2 num den) (51 + e)) as [H|H]; [exact H|].
      rewrite (ge_pow2_antitone num den (52 + e) (floor_log2 num den) Hn Hd ltac:(lia) F1)
        in G52.
      symmetry in G52. apply Z.leb_le in G52. lia. }
    destruct (Z.eq_dec e emin) as [Ee|Ee].
    + replace (Z.max (floor_log2 num den - 52) emin) with e by lia.
      apply round_at_nearest; try assumption; lia.
    + assert (Em : m = 2 ^ 52).
      { destruct (Z_le_gt_dec m (2 ^ 52)) as [H|H]; [lia|]. exfalso.
        assert ((2 ^ 53 + 1) * scaled_den den e <= (2 * m - 1) * scaled_den den e)
          by (apply Z.mul_le_mono_nonneg_r; lia).
        lia. }
      specialize (Hquarter Em ltac:(lia)). subst m.
      pose proof (ge_pow2_scaled num den e 51 Hn Hd ltac:(lia)) as G51.
      assert (El : floor_log2 num den = 51 + e).
      { apply floor_log2_unique; try assumption.
        - rewrite G51. apply Z.leb_le. lia.
        - replace (51 + e + 1) with (52 + e) by lia. rewrite G52. apply Z.leb_gt. lia. }
      rewrite El. replace (Z.max (51 + e - 52) emin) with (e - 1) by lia.
      replace e with (e - 1 + 1) at 2 by lia.
      pose proof (scaled_den_pos den (e - 1) Hd) as Hd1.
      destruct (scaled_pred num den e) as [[En Ed]|[En Ed]];
        apply round_at_carry; try assumption; lia.
Qed.

(** ** The shortest digits read back *)

Lemma shortest_from_eq (fuel : nat) (n : Z) (neg : bool) (m e num den k : Z) :
  shortest_from fuel n neg m e num den k
  = match fuel with
    | O => (Z.to_pos (pick_candidate n neg m e num den k), k - n)
    | S fuel' =>
        if reads_back neg m e (k - n) (dec_num n num k / dec_den n den k)
           || reads_back neg m e (k - n) (dec_num n num k / dec_den n den k + 1)
        then (Z.to_pos (pick_candidate n neg m e num den k), k - n)
        else shortest_from fuel' (n + 1) neg m e num den k
    end.
Proof. destruct fuel; reflexivity. Qed.

Lemma nearer_candidate_cases (n num den k : Z) :
  nearer_candidate n num den k = dec_num n num k / dec_den n den k
  \/ nearer_candidate n num den k = dec_num n num k / dec_den n den k + 1.
Proof. unfold nearer_candidate. destruct (_ || _); auto. Qed.

(** The candidate that is picked reads back as soon as one of the two
    candidates does, or the nearer one. *)
Lemma pick_candidate_reads (n : Z) (neg : bool) (m e num den k : Z) :
  reads_back neg m e (k - n) (dec_num n num k / dec_den n den k)
  || reads_back neg m e (k - n) (dec_num n num k / dec_den n den k + 1)
  || reads_back neg m e (k - n) (nearer_candidate n num den k) = true ->
  reads_back neg m e (k - n) (pick_candidate n neg m e num den k) = true.
Proof.
  unfold pick_candidate. cbv zeta.
  destruct (nearer_candidate_cases n num den k) as [E|E]; rewrite E;
    destruct (reads_back neg m e (k - n) (dec_num n num k / dec_den n den k)) eqn:Elo;
    destruct (reads_back neg m e (k - n) (dec_num n num k / dec_den n den k + 1)) eqn:Ehi;
    cbn [andb orb negb]; congruence.
Qed.

Lemma int_of_digits_bound (l : list Z) :
  Forall is_dec l -> 0 <= int_of_digits l < 10 ^ Z.of_nat (length l).
Proof.
  induction l as [|d l IH] using rev_ind; intros H.
  - cbn. lia.
  - apply Forall_app in H as [Hl Hd]. inversion Hd as [|? ? Hd' _]; subst.
    specialize (IH Hl). rewrite int_of_digits_app, length_app. cbn [length].
    rewrite Nat2Z.inj_add, Z.pow_add_r by lia.
    change (int_of_digits [d]) with (10 * 0 + d).
    change (10 ^ Z.of_nat 1) with 10. unfold is_dec in Hd'. nia.
Qed.

Lemma int_of_digits_lower (h : Z) (t : list Z) :
  1 <= h -> Forall is_dec t -> 10 ^ Z.of_nat (length t) <= int_of_digits (h :: t).
Proof.
  intros Hh Ht. rewrite int_of_digits_cons.
  pose proof (int_of_digits_bound t Ht).
  pose proof (pow10_pos (Z.of_nat (length t)) ltac:(lia)). nia.
Qed.

(** [10^(k-1) <= num / den] *)
Lemma leading_zeros_spec (fuel : nat) (num den j : Z) :
  0 < num -> den <= num * 10 ^ (Z.of_nat fuel + 1) ->
  exists t, 0 <= t /\ leading_zeros fuel num den j = j + t /\ den <= num * 10 ^ (t + 1).
Proof.
  revert num j; induction fuel as [|fuel IH]; intros num j Hn Hfuel.
  - exists 0. cbn [leading_zeros]. split; [lia|]. split; [lia | exact Hfuel].
  - cbn [leading_zeros]. destruct (Z.leb_spec den (num * 10)) as [H|H].
    + exists 0. split; [lia|]. split; [lia|]. now rewrite Z.pow_1_r.
    + destruct (IH (num * 10) (j + 1)) as (t & Ht & E & Hle); [lia| |].
      * rewrite Nat2Z.inj_succ in Hfuel.
        replace (Z.succ (Z.of_nat fuel) + 1) with (Z.succ (Z.of_nat fuel + 1)) in Hfuel by lia.
        rewrite Z.pow_succ_r in Hfuel by lia. lia.
      * exists (t + 1). split; [lia|]. split; [lia|].
        replace (t + 1 + 1) with (Z.succ (t + 1)) by lia.
        rewrite Z.pow_succ_r by lia. lia.
Qed.

Lemma decimal_point_lower (num den : Z) :
  0 < num -> 0 < den ->
  if 1 <=? decimal_point num den
  then 10 ^ (decimal_point num den - 1) * den <= num
  else den <= num * 10 ^ (1 - decimal_point num den).
Proof.
  intros Hn Hd. unfold decimal_point. destruct (Z.leb_spec den num) as [H|H].
  - assert (Hq : 1 <= num / den) by (apply Z.div_le_lower_bound; lia).
    destruct (digits_spec (num / den) ltac:(lia)) as (h & t & E & Hwf & Hpos & Hval).
    rewrite E in *. cbn [length]. rewrite Nat2Z.inj_succ.
    replace (1 <=? Z.succ (Z.of_nat (length t))) with true by (symmetry; apply Z.leb_le; lia).
    replace (Z.succ (Z.of_nat (length t)) - 1) with (Z.of_nat (length t)) by lia.
    inversion Hwf as [|? ? Hh Ht]; subst.
    pose proof (int_of_digits_lower h t ltac:(lia) Ht) as Hlow. rewrite Hval in Hlow.
    pose proof (Z.mul_div_le num den Hd). nia.
  - destruct (leading_zeros_spec (Z.to_nat (Z.log2 den)) num den 0 Hn) as (t & Ht & E & Hle).
    + rewrite Z2Nat.id by apply Z.log2_nonneg.
      destruct (Z.log2_spec den Hd) as [_ Hup].
      replace (Z.succ (Z.log2 den)) with (Z.log2 den + 1) in Hup by lia.
      pose proof (Z.log2_nonneg den).
      assert (2 ^ (Z.log2 den + 1) <= 10 ^ (Z.log2 den + 1))
        by (apply Z.pow_le_mono_l; lia).
      pose proof (pow10_pos (Z.log2 den + 1) ltac:(lia)). nia.
    + rewrite E. replace (1 <=? - (0 + t)) with false by (symmetry; apply Z.leb_gt; lia).
      now replace (1 - - (0 + t)) with (t + 1) by lia.
Qed.

(** Seventeen digits identify a binary64: [10^16 > 2^53]. *)
Lemma seventeen_digits_bounds (m c A D : Z) :
  0 < A -> 0 < D -> 0 < m < 2 ^ 53 ->
  10 ^ 16 * D <= m * A ->
  - D <= 2 * (c * D - m * A) <= D ->
  0 < c
  /\ (2 * m - 1) * A < 2 * (c * D)
  /\ 2 * (c * D) < (2 * m + 1) * A
  /\ (m = 2 ^ 52 -> (4 * m - 1) * A < 4 * (c * D)).
Proof.
  intros HA HD Hm Hlow Hnear.
  assert (HDA : D < A).
  { destruct (Z_lt_le_dec D A) as [H|H]; [exact H|]. exfalso.
    assert (10 ^ 16 * A <= 10 ^ 16 * D) by (apply Z.mul_le_mono_nonneg_l; lia).
    assert (m * A <= (2 ^ 53 - 1) * A) by (apply Z.mul_le_mono_nonneg_r; lia).
    lia. }
  split; [|split; [lia|split; [lia|]]].
  - assert (0 < c * D) by lia. nia.
  - intros ->.
    assert (2 * D < A); [|lia].
    destruct (Z_lt_le_dec (2 * D) A) as [H|H]; [exact H|]. exfalso.
    assert (10 ^ 16 * A <= 10 ^ 16 * (2 * D)) by (apply Z.mul_le_mono_nonneg_l; lia).
    lia.
Qed.

Lemma nearer_candidate_near (n num den k : Z) :
  0 < dec_den n den k ->
  - dec_den n den k
  <= 2 * (nearer_candidate n num den k * dec_den n den k - dec_num n num k)
  <= dec_den n den k.
Proof.
  intros Hd. unfold nearer_candidate. cbv zeta.
  pose proof (Z.div_mod (dec_num n num k) (dec_den n den k) ltac:(lia)) as E.
  pose proof (Z.mod_pos_bound (dec_num n num k) (dec_den n den k) Hd) as Hr.
  set (N := dec_num n num k) in *. set (D := dec_den n den k) in *.
  set (q := N / D) in *. set (r := N mod D) in *.
  destruct (Z.ltb_spec (2 * r) D) as [H|H]; cbn [orb].
  - nia.
  - destruct (Z.eqb_spec (2 * r) D) as [H2|H2]; cbn [andb].
    + destruct (Z.even q); nia.
    + nia.
Qed.

(** The numerator and denominator of a float. *)
Lemma float_ratio_cases (m e : Z) :
  exists Wpos Wneg,
    0 < Wpos /\ 0 < Wneg
    /\ (if 0 <=? e then m * 2 ^ e else m) = m * Wpos
    /\ (if 0 <=? e then 1 else 2 ^ (- e)) = Wneg
    /\ (forall x, scaled_num x e = x * Wneg)
    /\ (forall x, scaled_den x e = x * Wpos).
Proof.
  unfold scaled_num, scaled_den. destruct (Z.leb_spec 0 e) as [H|H].
  - exists (2 ^ e), 1. pose proof (pow2_pos e H).
    repeat split; try lia; intros; ring.
  - exists 1, (2 ^ (- e)). pose proof (pow2_pos (- e) ltac:(lia)).
    repeat split; try lia; intros; ring.
Qed.

Lemma decimal_scale_cases (n k : Z) :
  exists Tpos Tneg,
    0 < Tpos /\ 0 < Tneg
    /\ (forall x, dec_num n x k = x * Tneg)
    /\ (forall x, dec_den n x k = x * Tpos)
    /\ (forall neg c, float_of_decimal neg c (k - n) = round_ratio neg (c * Tpos) Tneg)
    /\ (forall num den,
          (if 1 <=? k then 10 ^ (k - 1) * den <= num else den <= num * 10 ^ (1 - k)) ->
          1 <= n -> 10 ^ (n - 1) * (den * Tpos) <= num * Tneg).
Proof.
  unfold dec_num, dec_den, float_of_decimal.
  destruct (Z.leb_spec 0 (n - k)) as [H|H].
  - exists 1, (10 ^ (n - k)). pose proof (pow10_pos (n - k) H) as Hp.
    split; [lia|]. split; [lia|]. split; [intros; ring|]. split; [intros; ring|]. split.
    + intros neg c. rewrite Z.mul_1_r.
      destruct (Z.leb_spec 0 (k - n)) as [H'|H'].
      * assert (k = n) by lia. subst k. rewrite !Z.sub_diag, Z.pow_0_r. f_equal. lia.
      * f_equal. f_equal. lia.
    + intros num den Hlow Hn. rewrite Z.mul_1_r.
      destruct (Z.leb_spec 1 k) as [Hk|Hk].
      * assert (E : 10 ^ (n - 1) = 10 ^ (k - 1) * 10 ^ (n - k)).
        { rewrite <- Z.pow_add_r by lia. f_equal. lia. }
        rewrite E. nia.
      * assert (E : 10 ^ (n - k) = 10 ^ (n - 1) * 10 ^ (1 - k)).
        { rewrite <- Z.pow_add_r by lia. f_equal. lia. }
        rewrite E. pose proof (pow10_pos (n - 1) ltac:(lia)). nia.
  - exists (10 ^ (k - n)), 1. pose proof (pow10_pos (k - n) ltac:(lia)) as Hp.
    split; [lia|]. split; [lia|]. split; [intros; ring|]. split; [intros; ring|]. split.
    + intros neg c. replace (0 <=? k - n) with true by (symmetry; apply Z.leb_le; lia).
      reflexivity.
    + intros num den Hlow Hn.
      replace (1 <=? k) with true in Hlow by (symmetry; apply Z.leb_le; lia).
      assert (E : 10 ^ (k - 1) = 10 ^ (n - 1) * 10 ^ (k - n)).
      { rewrite <- Z.pow_add_r by lia. f_equal. lia. }
      rewrite E in Hlow. lia.
Qed.

Lemma seventeen_digits_read (neg : bool) (m e : Z) :
  0 < m < 2 ^ 53 -> emin <= e <= emax -> (2 ^ 52 <= m \/ e = emin) ->
  reads_back neg m e
    (decimal_point (if 0 <=? e then m * 2 ^ e else m) (if 0 <=? e then 1 else 2 ^ (- e)) - 17)
    (nearer_candidate 17 (if 0 <=? e then m * 2 ^ e else m)
                         (if 0 <=? e then 1 else 2 ^ (- e))
                         (decimal_point (if 0 <=? e then m * 2 ^ e else m)
                                        (if 0 <=? e then 1 else 2 ^ (- e)))) = true.
Proof.
  intros Hm He Hcanon.
  destruct (float_ratio_cases m e) as (Wpos & Wneg & HWp & HWn & En & Ed & Hsn & Hsd).
  rewrite En, Ed.
  set (k := decimal_point (m * Wpos) Wneg).
  pose proof (decimal_point_lower (m * Wpos) Wneg ltac:(apply Z.mul_pos_pos; lia) HWn) as Hlow. fold k in Hlow.
  destruct (decimal_scale_cases 17 k) as (Tpos & Tneg & HTp & HTn & Hdn & Hdd & Hfd & Hk).
  specialize (Hk _ _ Hlow ltac:(lia)). change (17 - 1) with 16 in Hk.
  pose proof (nearer_candidate_near 17 (m * Wpos) Wneg k) as Hnear.
  rewrite Hdn, Hdd in Hnear. specialize (Hnear ltac:(apply Z.mul_pos_pos; lia)).
  set (c := nearer_candidate 17 (m * Wpos) Wneg k) in *.
  assert (HA : 0 < Tneg * Wpos) by (apply Z.mul_pos_pos; lia).
  assert (HD : 0 < Wneg * Tpos) by (apply Z.mul_pos_pos; lia).
  destruct (seventeen_digits_bounds m c (Tneg * Wpos) (Wneg * Tpos) HA HD Hm)
    as (Hc & Hlo & Hhi & Hq).
  { replace (m * (Tneg * Wpos)) with (m * Wpos * Tneg) by ring. exact Hk. }
  { replace (m * (Tneg * Wpos)) with (m * Wpos * Tneg) by ring. exact Hnear. }
  unfold reads_back. replace (0 <? c) with true by (symmetry; apply Z.ltb_lt; lia).
  cbn [andb]. rewrite Hfd.
  assert (R : round_ratio neg (c * Tpos) Tneg = Fin neg m e).
  { apply round_ratio_nearest; try assumption.
    - apply Z.mul_pos_pos; lia.
    - rewrite Hsn, Hsd. replace (c * Tpos * Wneg) with (c * (Wneg * Tpos)) by ring.
      exact Hlo.
    - rewrite Hsn, Hsd. replace (c * Tpos * Wneg) with (c * (Wneg * Tpos)) by ring.
      exact Hhi.
    - intros E1 _. rewrite Hsn, Hsd.
      replace (c * Tpos * Wneg) with (c * (Wneg * Tpos)) by ring. exact (Hq E1). }
  rewrite R. apply float_eqb_refl.
Qed.

Lemma reads_back_value (neg : bool) (m e x c : Z) :
  reads_back neg m e x c = true ->
  0 < c /\ float_of_decimal neg c x = Fin neg m e.
Proof.
  unfold reads_back. intros H. apply andb_true_iff in H as [Hc Hf].
  apply Z.ltb_lt in Hc. apply float_eqb_eq in Hf. now split.
Qed.

(** The candidate [shortest_from] returns reads back as the float. *)
Lemma shortest_from_reads (neg : bool) (m e : Z) (fuel : nat) (n : Z) :
  0 < m < 2 ^ 53 -> emin <= e <= emax -> (2 ^ 52 <= m \/ e = emin) ->
  n + Z.of_nat fuel = 17 ->
  float_of_decimal neg
    (Z.pos (fst (shortest_from fuel n neg m e
                   (if 0 <=? e then m * 2 ^ e else m) (if 0 <=? e then 1 else 2 ^ (- e))
                   (decimal_point (if 0 <=? e then m * 2 ^ e else m)
                                  (if 0 <=? e then 1 else 2 ^ (- e))))))
    (snd (shortest_from fuel n neg m e
            (if 0 <=? e then m * 2 ^ e else m) (if 0 <=? e then 1 else 2 ^ (- e))
            (decimal_point (if 0 <=? e then m * 2 ^ e else m)
                           (if 0 <=? e then 1 else 2 ^ (- e)))))
  = Fin neg m e.
Proof.
  intros Hm He Hcanon.
  set (num := if 0 <=? e then m * 2 ^ e else m).
  set (den := if 0 <=? e then 1 else 2 ^ (- e)).
  set (k := decimal_point num den).
  assert (Hpick : forall n,
             reads_back neg m e (k - n) (pick_candidate n neg m e num den k) = true ->
             float_of_decimal neg (Z.pos (Z.to_pos (pick_candidate n neg m e num den k)))
               (k - n) = Fin neg m e).
  { intros n' H. apply reads_back_value in H as [Hc Hf]. now rewrite Z2Pos.id. }
  revert n; induction fuel as [|fuel IH]; intros n Hn; rewrite shortest_from_eq.
  - cbn [fst snd]. apply Hpick. apply pick_candidate_reads.
    assert (n = 17) by lia. subst n.
    pose proof (seventeen_digits_read neg m e Hm He Hcanon) as H17.
    fold num den k in H17. rewrite H17. now rewrite orb_true_r.
  - destruct (reads_back neg m e (k - n) (dec_num n num k / dec_den n den k)
              || reads_back neg m e (k - n) (dec_num n num k / dec_den n den k + 1)) eqn:E.
    + cbn [fst snd]. apply Hpick. apply pick_candidate_reads. now rewrite E.
    + apply IH. lia.
Qed.

Lemma drop_zeros_spec (l : list Z) :
  exists z, l = repeat 0 z ++ drop_zeros l.
Proof.
  induction l as [|d l (z & IH)]; [now exists 0%nat|].
  destruct d as [|p|p]; [|now exists 0%nat..].
  exists (S z). cbn [repeat app drop_zeros]. now rewrite <- IH.
Qed.

Lemma rev_repeat_zero (z : nat) : rev (repeat 0 z) = repeat 0 z.
Proof.
  induction z as [|z IH]; [reflexivity|]. cbn [repeat rev]. rewrite IH.
  clear IH. induction z as [|z IH]; [reflexivity|]. cbn [repeat app]. now rewrite IH.
Qed.

Lemma strip_trailing_zeros_spec (l : list Z) :
  exists z, l = strip_trailing_zeros l ++ repeat 0 z.
Proof.
  unfold strip_trailing_zeros. destruct (drop_zeros_spec (rev l)) as (z & E).
  exists z. rewrite <- (rev_involutive l) at 1. rewrite E at 1.
  now rewrite rev_app_distr, rev_repeat_zero.
Qed.

Lemma int_of_digits_zeros (z : nat) : int_of_digits (repeat 0 z) = 0.
Proof.
  induction z as [|z IH]; [reflexivity|]. cbn [repeat].
  rewrite int_of_digits_cons, IH. lia.
Qed.

(** The digits of [repr] stand for a decimal that reads back as the
    float. *)
Lemma shortest_digits_value (neg : bool) (m e : Z) :
  0 < m < 2 ^ 53 -> emin <= e <= emax -> (2 ^ 52 <= m \/ e = emin) ->
  exists h t decpt,
    shortest_digits neg m e = (h :: t, decpt)
    /\ 1 <= h <= 9 /\ Forall is_dec t
    /\ float_of_decimal neg (int_of_digits (h :: t)) (decpt - Z.of_nat (length (h :: t)))
       = Fin neg m e.
Proof.
  intros Hm He Hcanon.
  destruct (shortest_digits_spec neg m e) as (h & t & decpt & E & Hh & Ht).
  exists h, t, decpt. split; [exact E|]. split; [exact Hh|]. split; [exact Ht|].
  pose proof (shortest_from_reads neg m e 16 1 Hm He Hcanon eq_refl) as Hr.
  revert E. unfold shortest_digits. cbv zeta.
  destruct (shortest_from 16 1 neg m e _ _ _) as [c x]. cbn [fst snd] in Hr.
  intros E. injection E as Eds Edp.
  destruct (strip_trailing_zeros_spec (digits (Z.pos c))) as (z & Ez).
  rewrite Eds in Ez.
  destruct (digits_spec (Z.pos c) ltac:(lia)) as (_ & _ & _ & _ & _ & Hval).
  rewrite Ez, int_of_digits_app, int_of_digits_zeros, repeat_length, Z.add_0_r in Hval.
  assert (Hlen : Z.of_nat (length (digits (Z.pos c)))
                 = Z.of_nat (length (h :: t)) + Z.of_nat z).
  { rewrite Ez, length_app, repeat_length. lia. }
  rewrite <- Hr, <- Hval, <- Edp, Hlen.
  rewrite <- (float_of_decimal_shift neg (int_of_digits (h :: t))
                (Z.of_nat (length (h :: t)) + Z.of_nat z + x - Z.of_nat (length (h :: t)))
                (Z.of_nat z)); [|apply int_of_digits_bound|lia].
  - f_equal. lia.
  - constructor; [unfold is_dec; lia | exact Ht].
Qed.

Lemma two_digits_value (n : Z) :
  0 <= n ->
  exists eds, two_digits n = map digit_char eds /\ eds <> [] /\ Forall is_dec eds
              /\ int_of_digits eds = n.
Proof.
  intros Hn. unfold two_digits.
  destruct (digits_spec n Hn) as (h & t & E & Hwf & _ & Hval).
  destruct (n <? 10).
  - exists (0 :: digits n). split; [reflexivity|]. split; [discriminate|]. split.
    + constructor; [unfold is_dec; lia | now rewrite E].
    + rewrite int_of_digits_cons, Hval. lia.
  - exists (digits n). split; [reflexivity|]. rewrite E at 1 2.
    split; [discriminate|]. split; [exact Hwf | exact Hval].
Qed.

(** The layout of [repr] is the text of a JSON number that stands for
    the decimal of the digits. *)
Lemma format_repr_value (neg : bool) (h : Z) (t : list Z) (decpt : Z) :
  1 <= h <= 9 -> Forall is_dec t ->
  exists ids fds ex,
    format_repr (h :: t) decpt = map digit_char ids ++ frac_text fds ++ exp_text ex
    /\ integer_digits ids
    /\ Forall is_dec fds
    /\ match ex with
       | Some (_, eds) => eds <> [] /\ Forall is_dec eds
       | None => True
       end
    /\ number_value neg ids fds (exp_value ex)
       = PyFloat (float_of_decimal neg (int_of_digits (h :: t))
                    (decpt - Z.of_nat (length (h :: t)))).
Proof.
  intros Hh Ht. unfold format_repr.
  assert (Hd : is_dec h) by (unfold is_dec; lia).
  assert (Hwf : Forall is_dec (h :: t)) by now constructor.
  destruct ((decpt <=? -4) || (16 <? decpt)).
  - destruct (two_digits_value (Z.abs (decpt - 1)) (Z.abs_nonneg _))
      as (eds & E & Hne & Heds & Hval).
    exists [h], t, (Some (decpt - 1 <? 0, eds)).
    split; [|split; [|split; [|split]]].
    + cbn [firstn skipn map app frac_text exp_text]. rewrite E.
      destruct t; reflexivity.
    + right. exists h, []. now repeat split.
    + exact Ht.
    + now split.
    + cbn [exp_value]. rewrite Hval.
      assert (Ex : (if decpt - 1 <? 0 then - Z.abs (decpt - 1) else Z.abs (decpt - 1))
                   = decpt - 1).
      { destruct (Z.ltb_spec (decpt - 1) 0); lia. }
      rewrite Ex. unfold number_value, float_of_parts. cbn [app length].
      destruct t; do 2 f_equal; cbn [length]; lia.
  - destruct (decpt <=? 0) eqn:E0.
    + apply Z.leb_le in E0.
      exists [0], (repeat 0 (Z.to_nat (- decpt)) ++ h :: t), None.
      split; [|split; [|split; [|split]]].
      * cbn [exp_text]. rewrite app_nil_r, map_digit_char_zeros, <- map_app.
        destruct (repeat 0 (Z.to_nat (- decpt)) ++ h :: t) eqn:E.
        -- destruct (repeat 0 (Z.to_nat (- decpt))); discriminate.
        -- reflexivity.
      * now left.
      * apply Forall_app. split; [apply Forall_repeat_zero | now constructor].
      * trivial.
      * cbn [exp_value]. unfold number_value, float_of_parts.
        destruct (repeat 0 (Z.to_nat (- decpt)) ++ h :: t) eqn:E.
        { destruct (repeat 0 (Z.to_nat (- decpt))); discriminate. }
        rewrite <- E. do 2 f_equal.
        -- change ([0] ++ ?l) with (0 :: l). rewrite int_of_digits_cons.
           rewrite int_of_digits_app, int_of_digits_zeros. lia.
        -- rewrite length_app, repeat_length. lia.
    + apply Z.leb_gt in E0.
      destruct (Z.of_nat (length (h :: t)) <=? decpt) eqn:Elen.
      * apply Z.leb_le in Elen.
        exists (h :: t ++ repeat 0 (Z.to_nat (decpt - Z.of_nat (length (h :: t))))),
          [0], None.
        split; [|split; [|split; [|split]]].
        -- cbn [exp_text frac_text]. rewrite app_nil_r, map_digit_char_zeros.
           change (h :: t ++ ?l) with ((h :: t) ++ l).
           rewrite map_app, <- app_assoc. reflexivity.
        -- right. eexists h, _. split; [reflexivity|]. split; [exact Hh|].
           apply Forall_app. split; [exact Ht | apply Forall_repeat_zero].
        -- repeat constructor; unfold is_dec; lia.
        -- trivial.
        -- cbn [exp_value]. unfold number_value, float_of_parts. f_equal.
           set (z := Z.to_nat (decpt - Z.of_nat (length (h :: t)))).
           change (h :: t ++ repeat 0 z) with ((h :: t) ++ repeat 0 z).
           rewrite <- app_assoc, int_of_digits_app.
           replace (int_of_digits (repeat 0 z ++ [0])) with 0.
           2:{ rewrite int_of_digits_app, int_of_digits_zeros. reflexivity. }
           rewrite Z.add_0_r, length_app, repeat_length.
           rewrite <- (float_of_decimal_shift neg (int_of_digits (h :: t))
                         (decpt - Z.of_nat (length (h :: t)))
                         (Z.of_nat (z + 1))); [|apply int_of_digits_bound; exact Hwf|lia].
           f_equal. subst z. cbn [length] in *. lia.
      * apply Z.leb_gt in Elen.
        destruct (Z.to_nat decpt) as [|k] eqn:Ek; [lia|].
        exists (h :: firstn k t), (skipn k t), None.
        assert (Hskip : skipn k t <> []).
        { intros Es. assert (Hl : length (skipn k t) = 0%nat) by now rewrite Es.
          rewrite length_skipn in Hl. cbn [length] in Elen. lia. }
        split; [|split; [|split; [|split]]].
        -- cbn [firstn skipn map app exp_text]. rewrite app_nil_r.
           destruct (skipn k t) eqn:Es; [contradiction | reflexivity].
        -- right. exists h, (firstn k t). split; [reflexivity|]. split; [exact Hh|].
           apply (Forall_firstn_skipn is_dec k t Ht).
        -- apply (Forall_firstn_skipn is_dec k t Ht).
        -- trivial.
        -- cbn [exp_value]. unfold number_value, float_of_parts.
           destruct (skipn k t) eqn:Es; [contradiction|]. rewrite <- Es.
           change ((h :: firstn k t) ++ skipn k t) with (h :: (firstn k t ++ skipn k t)).
           rewrite firstn_skipn. do 2 f_equal.
           rewrite length_skipn. cbn [length] in *. lia.
Qed.

(** [float(repr(x)) == x]: the text [repr] writes for a finite float
    reads back as that float. *)
Lemma repr_finite_reads_back (neg : bool) (m e : Z) :
  canonical_float (Fin neg m e) = true ->
  reparse_number (repr_finite neg m e) = PyFloat (Fin neg m e).
Proof.
  unfold canonical_float. intros H.
  apply andb_true_iff in H as [H H5]. apply andb_true_iff in H as [H H4].
  apply andb_true_iff in H as [H H3]. apply andb_true_iff in H as [H1 H2].
  apply Z.leb_le in H1, H3, H4. apply Z.ltb_lt in H2.
  unfold repr_finite. destruct (Z.eqb_spec m 0) as [->|Hm0].
  - assert (e = emin) as ->.
    { apply orb_true_iff in H5 as [H5|H5]; [discriminate | now apply Z.eqb_eq]. }
    destruct neg; reflexivity.
  - assert (Hcanon : 2 ^ 52 <= m \/ e = emin).
    { apply orb_true_iff in H5 as [H5|H5]; [left; now apply Z.leb_le | right; now apply Z.eqb_eq]. }
    destruct (shortest_digits_value neg m e ltac:(lia) ltac:(lia) Hcanon)
      as (h & t & decpt & -> & Hh & Ht & Hval).
    destruct (format_repr_value neg h t decpt Hh Ht)
      as (ids & fds & ex & -> & Hids & Hfds & Hex & Hnum).
    change (sign_text neg ++ map digit_char ids ++ frac_text fds ++ exp_text ex)
      with (number_text neg ids fds ex).
    rewrite (reparse_number_text neg ids fds ex Hids Hfds Hex), Hnum, Hval. reflexivity.
Qed.

End Rounding.

(* ================================================================== *)
(** * Values that are read back as they are *)
(* ================================================================== *)

Section Canonical.

Local Open Scope Z_scope.

Lemma canonical_float_intro (neg : bool) (m e : Z) :
  0 <= m < 2 ^ 53 -> emin <= e <= emax -> (2 ^ 52 <= m \/ e = emin) ->
  canonical_float (Fin neg m e) = true.
Proof.
  intros Hm He Hc. unfold canonical_float.
  replace (0 <=? m) with true by (symmetry; apply Z.leb_le; lia).
  replace (m <? 2 ^ 53) with true by (symmetry; apply Z.ltb_lt; lia).
  replace (emin <=? e) with true by (symmetry; apply Z.leb_le; lia).
  replace (e <=? emax) with true by (symmetry; apply Z.leb_le; lia).
  cbn [andb]. apply orb_true_iff.
  destruct Hc as [Hc|Hc]; [left; now apply Z.leb_le | right; now apply Z.eqb_eq].
Qed.

Lemma round_at_canonical (neg : bool) (num den e : Z) :
  0 < den -> 0 <= num -> emin <= e ->
  (scaled_den den e * 2 ^ 52 <= scaled_num num e \/ e = emin) ->
  scaled_num num e < scaled_den den e * 2 ^ 53 ->
  canonical_float (round_at neg num den e) = true.
Proof.
  intros Hd Hn He Hlow Hup. unfold round_at.
  pose proof (scaled_den_pos den e Hd) as Hd2.
  assert (Hn2 : 0 <= scaled_num num e).
  { unfold scaled_num. destruct (Z.leb_spec 0 e); [exact Hn|].
    pose proof (pow2_pos (- e) ltac:(lia)). nia. }
  set (n2 := scaled_num num e) in *. set (d2 := scaled_den den e) in *.
  assert (Hq0 : 0 <= n2 / d2 < 2 ^ 53).
  { split; [apply Z.div_pos; lia | apply Z.div_lt_upper_bound; lia]. }
  assert (Hq52 : 2 ^ 52 <= n2 / d2 \/ e = emin).
  { destruct Hlow as [Hlow|Hlow]; [left | now right].
    apply Z.div_le_lower_bound; lia. }
  set (q0 := n2 / d2) in *.
  set (q1 := if (d2 <? 2 * (n2 mod d2)) || ((d2 =? 2 * (n2 mod d2)) && Z.odd q0)
             then q0 + 1 else q0).
  assert (Hq1 : q0 <= q1 <= q0 + 1).
  { unfold q1. destruct (_ || _); lia. }
  destruct (Z.eqb_spec q1 (2 ^ 53)) as [E|E].
  - destruct (Z.ltb_spec emax (e + 1)); [reflexivity|].
    apply canonical_float_intro; lia.
  - destruct (Z.ltb_spec emax e); [reflexivity|].
    apply canonical_float_intro; lia.
Qed.

(** [round_ratio] returns a float in its one representation. *)
Lemma round_ratio_canonical (neg : bool) (num den : Z) :
  0 <= num -> 0 < den -> canonical_float (round_ratio neg num den) = true.
Proof.
  intros Hn Hd. destruct (Z.eq_dec num 0) as [->|Hz]; [reflexivity|].
  assert (Hn' : 0 < num) by lia.
  rewrite round_ratio_round_at by exact Hz.
  destruct (floor_log2_spec num den Hn' Hd) as [F1 F2].
  set (l := floor_log2 num den) in *.
  destruct (Z_le_gt_dec emin (l - 52)) as [H|H].
  - replace (Z.max (l - 52) emin) with (l - 52) by lia.
    pose proof (ge_pow2_scaled num den (l - 52) 52 Hn' Hd ltac:(lia)) as G52.
    pose proof (ge_pow2_scaled num den (l - 52) 53 Hn' Hd ltac:(lia)) as G53.
    replace (52 + (l - 52)) with l in G52 by lia.
    replace (53 + (l - 52)) with (l + 1) in G53 by lia.
    rewrite F1 in G52. rewrite F2 in G53. symmetry in G52, G53.
    apply Z.leb_le in G52. apply Z.leb_gt in G53.
    apply round_at_canonical; lia.
  - replace (Z.max (l - 52) emin) with emin by lia.
    pose proof (ge_pow2_scaled num den emin 52 Hn' Hd ltac:(lia)) as G52.
    assert (G : ge_pow2 num den (52 + emin) = false).
    { destruct (ge_pow2 num den (52 + emin)) eqn:E; [|reflexivity].
      rewrite (ge_pow2_antitone num den (l + 1) (52 + emin) Hn' Hd ltac:(lia) E) in F2.
      discriminate. }
    rewrite G in G52. symmetry in G52. apply Z.leb_gt in G52.
    pose proof (scaled_den_pos den emin Hd).
    apply round_at_canonical; lia.
Qed.

Lemma float_of_decimal_canonical (neg : bool) (mant exp10 : Z) :
  0 <= mant -> canonical_float (float_of_decimal neg mant exp10) = true.
Proof.
  intros Hm. unfold float_of_decimal. destruct (Z.leb_spec 0 exp10).
  - apply round_ratio_canonical; [|lia]. pose proof (pow10_pos exp10 ltac:(lia)). nia.
  - apply round_ratio_canonical; [exact Hm | apply pow10_pos; lia].
Qed.

Lemma int_of_digits_nonneg (l : list Z) :
  Forall (fun d => 0 <= d) l -> 0 <= int_of_digits l.
Proof.
  induction l as [|d l IH] using rev_ind; intros H; [cbn; lia|].
  apply Forall_app in H as [Hl Hd]. inversion Hd as [|? ? Hd' _]; subst.
  rewrite int_of_digits_app. change (int_of_digits [d]) with (10 * 0 + d).
  specialize (IH Hl). cbn [length]. change (10 ^ Z.of_nat 1) with 10. lia.
Qed.

Lemma span_digits_nonneg (s : pystr) : Forall (fun d => 0 <= d) (fst (span_digits s)).
Proof.
  induction s as [|c s IH]; cbn [span_digits]; [constructor|].
  destruct (is_digit c); [|constructor].
  destruct (span_digits s) as [ds r]. cbn [fst] in *.
  constructor; [unfold digit_value; lia | exact IH].
Qed.

Lemma match_number_canonical (s : pystr) (v : Value) (r : pystr) :
  match_number s = Some (v, r) -> canonical v = true.
Proof.
  unfold match_number.
  destruct (match s with
            | [] => (false, s)
            | c :: r0 => if is_char c "-" then (true, r0) else (false, s)
            end) as [neg s1].
  destruct s1 as [|c r1]; [discriminate|].
  assert (Hval : forall ids fds ex,
             Forall (fun d => 0 <= d) ids -> Forall (fun d => 0 <= d) fds ->
             canonical (number_value neg ids fds ex) = true).
  { intros ids fds ex Hi Hf. unfold number_value.
    assert (Hfloat : forall x, canonical (PyFloat (float_of_parts neg ids fds x)) = true).
    { intros x. cbn [canonical]. unfold float_of_parts.
      apply float_of_decimal_canonical, int_of_digits_nonneg, Forall_app. now split. }
    destruct fds; destruct ex; try apply Hfloat. reflexivity. }
  assert (Hfrac : forall s2, Forall (fun d => 0 <= d) (fst (match_fraction s2))).
  { intros s2. unfold match_fraction. destruct s2 as [|dot [|d r2]]; try constructor.
    destruct (is_char dot "." && is_digit d); [apply span_digits_nonneg | constructor]. }
  assert (Hrest : forall ids s2,
             Forall (fun d => 0 <= d) ids ->
             (let '(fds, s3) := match_fraction s2 in
              let '(ex, s4) := match_exponent s3 in
              Some (number_value neg ids fds ex, s4)) = Some (v, r) ->
             canonical v = true).
  { intros ids s2 Hi. pose proof (Hfrac s2) as Hf.
    destruct (match_fraction s2) as [fds s3]. destruct (match_exponent s3) as [ex s4].
    intros H; injection H as <- _. now apply Hval. }
  destruct (is_char c "0").
  - apply Hrest. repeat constructor. lia.
  - destruct (is_digit c); [|discriminate].
    pose proof (span_digits_nonneg (c :: r1)) as Hi.
    destruct (span_digits (c :: r1)) as [ids s2]. now apply Hrest.
Qed.

Lemma scan_atom_canonical (s : pystr) (v : Value) (r : pystr) :
  scan_atom s = Ok (v, r) -> canonical v = true.
Proof.
  assert (Hnum : match match_number s with Some res => Ok res | None => Fail end
                 = Ok (v, r) -> canonical v = true).
  { destruct (match_number s) as [[v' r']|] eqn:E; [|discriminate].
    intros H; injection H as <- <-. now apply match_number_canonical in E. }
  assert (Hconst : forall word w other,
            canonical w = true ->
            (other = Ok (v, r) -> canonical v = true) ->
            match strip_prefix (lit word) s with
            | Some r' => Ok (w, r')
            | None => other
            end = Ok (v, r) -> canonical v = true).
  { intros word w other Hw Hother.
    destruct (strip_prefix (lit word) s) as [r'|] eqn:E; [|exact Hother].
    intros H; injection H as <- <-. exact Hw. }
  unfold scan_atom. cbv zeta. destruct s as [|c s']; [discriminate|].
  repeat match goal with
         | |- (if ?b then _ else _) = _ -> _ => destruct b
         end;
    try exact Hnum; apply Hconst; try exact Hnum; reflexivity.
Qed.

Lemma unique_keys_NoDup (keys : list pystr) : unique_keys keys = true <-> NoDup keys.
Proof.
  induction keys as [|k rest IH]; cbn [unique_keys].
  - split; [constructor | reflexivity].
  - rewrite andb_true_iff, negb_true_iff, IH. split.
    + intros [Hk Hr]. constructor; [|exact Hr]. intros Hin.
      assert (existsb (str_eqb k) rest = true); [|congruence].
      apply existsb_exists. exists k. split; [exact Hin | apply str_eqb_refl].
    + intros H. inversion H as [|? ? Hk Hr]; subst. split; [|exact Hr].
      destruct (existsb (str_eqb k) rest) eqn:E; [|reflexivity].
      apply existsb_exists in E as (x & Hx & Ex). apply str_eqb_eq in Ex. now subst.
Qed.

Lemma dict_set_new (d : dict) (k : pystr) (v : Value) :
  ~ In k (map fst d) -> dict_set d k v = d ++ [(k, v)].
Proof.
  induction d as [|[k' v'] d IH]; intros Hin; [reflexivity|].
  cbn [dict_set map fst In app] in *.
  destruct (str_eqb k k') eqn:E.
  - apply str_eqb_eq in E. subst. tauto.
  - rewrite IH; [reflexivity | tauto].
Qed.

Lemma dict_set_keys (d : dict) (k : pystr) (v : Value) :
  (In k (map fst d) /\ map fst (dict_set d k v) = map fst d)
  \/ (~ In k (map fst d) /\ map fst (dict_set d k v) = map fst d ++ [k]).
Proof.
  induction d as [|[k' v'] d IH]; [right; split; [tauto | reflexivity]|].
  cbn [dict_set map fst In].
  destruct (str_eqb k k') eqn:E.
  - apply str_eqb_eq in E. subst. left. split; [now left | reflexivity].
  - apply str_eqb_neq in E. destruct IH as [[Hin Ek]|[Hin Ek]].
    + left. split; [now right|]. cbn [map fst]. now rewrite Ek.
    + right. split; [intros [H|H]; [congruence | tauto]|]. cbn [map fst app]. now rewrite Ek.
Qed.

Lemma dict_set_values (d : dict) (k : pystr) (v : Value) (P : Value -> bool) :
  forallb (fun kv => P (snd kv)) d = true -> P v = true ->
  forallb (fun kv => P (snd kv)) (dict_set d k v) = true.
Proof.
  intros Hd Hv. induction d as [|[k' v'] d IH]; cbn [dict_set forallb snd] in *.
  - now rewrite Hv.
  - apply andb_true_iff in Hd as [H1 H2].
    destruct (str_eqb k k'); cbn [forallb snd].
    + now rewrite Hv, H2.
    + now rewrite H1, IH.
Qed.

Lemma dict_set_canonical (d : dict) (k : pystr) (v : Value) :
  canonical (PyDict d) = true -> canonical v = true ->
  canonical (PyDict (dict_set d k v)) = true.
Proof.
  cbn [canonical]. intros Hd Hv. apply andb_true_iff in Hd as [Hk Hvals].
  apply andb_true_iff. split; [|now apply dict_set_values].
  apply unique_keys_NoDup. apply unique_keys_NoDup in Hk.
  destruct (dict_set_keys d k v) as [[_ ->]|[Hin ->]]; [exact Hk|].
  apply NoDup_app; [exact Hk | repeat constructor; tauto |].
  intros x Hx [<-|[]]. contradiction.
Qed.

(** What the scanner returns is a canonical value. *)
Lemma scan_canonical (f : nat) :
  (forall s v r, scan_once f s = Ok (v, r) -> canonical v = true)
  /\ (forall s acc v r, array_loop f s acc = Ok (v, r) ->
                        forallb canonical acc = true -> canonical v = true)
  /\ (forall s d v r, object_loop f s d = Ok (v, r) ->
                      canonical (PyDict d) = true -> canonical v = true).
Proof.
  induction f as [|f (IHs & IHa & IHo)]; [repeat split; discriminate|].
  split; [|split].
  - intros s v r. cbn [scan_once].
    destruct s as [|c s1]; [discriminate|].
    destruct (N.eqb c dquote).
    { destruct (scanstring s1) as [[t r']|]; [|discriminate].
      intros H; injection H as <- _. reflexivity. }
    destruct (is_char c "{").
    { destruct (skip_ws s1) as [|c' r']; [discriminate|].
      destruct (is_char c' "}").
      - intros H; injection H as <- _. reflexivity.
      - intros H. now apply IHo in H. }
    destruct (is_char c "[").
    { destruct (skip_ws s1) as [|c' r']; [discriminate|].
      destruct (is_char c' "]").
      - intros H; injection H as <- _. reflexivity.
      - intros H. now apply IHa in H. }
    apply scan_atom_canonical.
  - intros s acc v r. cbn [array_loop].
    destruct (scan_once f s) as [[x r1]| |] eqn:E; try discriminate.
    apply IHs in E.
    destruct (skip_ws r1) as [|c r2]; [discriminate|].
    assert (Hacc : forallb canonical acc = true -> forallb canonical (acc ++ [x]) = true).
    { intros Hacc. rewrite forallb_app, Hacc. cbn [forallb]. now rewrite E. }
    destruct (is_char c "]").
    + intros H; injection H as <- _. exact Hacc.
    + destruct (is_char c ","); [|discriminate].
      intros H Ha. apply IHa in H; auto.
  - intros s d v r. cbn [object_loop].
    destruct s as [|q s1]; [discriminate|].
    destruct (N.eqb q dquote); [|discriminate].
    destruct (scanstring s1) as [[key r1]|]; [|discriminate].
    destruct (skip_ws r1) as [|colon r2]; [discriminate|].
    destruct (is_char colon ":"); [|discriminate].
    destruct (scan_once f (skip_ws r2)) as [[x r3]| |] eqn:E; try discriminate.
    apply IHs in E.
    destruct (skip_ws r3) as [|c r4]; [discriminate|].
    destruct (is_char c "}").
    + intros H; injection H as <- _. intros Hd. now apply dict_set_canonical.
    + destruct (is_char c ","); [|discriminate].
      intros H Hd. apply IHo in H; [exact H|]. now apply dict_set_canonical.
Qed.

Lemma loads_canonical (s : pystr) (v : Value) :
  loads s = Some v -> canonical v = true.
Proof.
  unfold loads. destruct (startswith [65279%N] s); [discriminate|].
  destruct (scan_once _ _) as [[v' r]| |] eqn:E; try discriminate.
  destruct (skip_ws r); [|discriminate]. intros H; injection H as <-.
  now apply (proj1 (scan_canonical _)) in E.
Qed.

Lemma set_items_fresh (items d : dict) :
  NoDup (map fst (d ++ items)) ->
  fold_left (fun d kv => dict_set d (fst kv) (snd kv)) items d = d ++ items.
Proof.
  revert d; induction items as [|[k v] items IH]; intros d Hnd; cbn [fold_left fst snd].
  - now rewrite app_nil_r.
  - rewrite dict_set_new.
    + rewrite IH; rewrite <- app_assoc; [reflexivity | exact Hnd].
    + rewrite map_app in Hnd. apply NoDup_remove_2 in Hnd.
      intros Hin. apply Hnd. apply in_or_app. now left.
Qed.

(** A canonical value is what the scanner makes of its text. *)
Lemma reparse_canonical (v : Value) : canonical v = true -> reparse v = v.
Proof.
  induction v as [|b|n|f|s|items IH|items IH] using Value_ind; try reflexivity.
  - destruct f as [| |neg m e]; try reflexivity.
    cbn [canonical reparse]. apply repr_finite_reads_back.
  - cbn [canonical reparse]. intros H. f_equal.
    induction IH as [|x l Hx _ IHl]; [reflexivity|].
    cbn [forallb] in H. apply andb_true_iff in H as [H1 H2].
    cbn [map]. now rewrite (Hx H1), (IHl H2).
  - cbn [canonical reparse]. intros H. apply andb_true_iff in H as [Hk Hv]. f_equal.
    assert (E : map (fun kv => (fst kv, reparse (snd kv))) items = items).
    { clear Hk. induction IH as [|[k x] l Hx _ IHl]; [reflexivity|].
      cbn [forallb snd] in Hv. apply andb_true_iff in Hv as [H1 H2].
      cbn [map fst snd] in *. now rewrite (Hx H1), (IHl H2). }
    rewrite E. apply (set_items_fresh items []). now apply unique_keys_NoDup.
Qed.

End Canonical.
(* ================================================================== *)
(** * What the command prints *)
(* ================================================================== *)

(** Both ways of printing are read back as the same data. *)
Lemma loads_output (pretty : bool) (summary : dict) :
  loads (output pretty summary) = Some (reparse (PyDict summary)).
Proof.
  unfold output. apply loads_dumps. now destruct pretty.
Qed.

Lemma dict_get_canonical (d : dict) (k : pystr) (v : Value) :
  canonical (PyDict d) = true -> dict_get d k = Some v -> canonical v = true.
Proof.
  cbn [canonical]. intros H. apply andb_true_iff in H as [_ H].
  induction d as [|[k' v'] d IH]; cbn [dict_get]; [discriminate|].
  cbn [forallb snd] in H. apply andb_true_iff in H as [H1 H2].
  destruct (str_eqb k k'); [|now apply IH].
  intros E; injection E as <-. exact H1.
Qed.

(** The three members, with values as the decoder makes them, are read
    back as they are. *)
Lemma loads_output_exact (pretty : bool) (a t c : Value) :
  canonical a = true -> canonical t = true -> canonical c = true ->
  loads (output pretty [ (lit "ratingAverage", a);
                         (lit "totalNumberOfRatings", t);
                         (lit "ratingCounts", c) ])
  = Some (PyDict [ (lit "ratingAverage", a);
                   (lit "totalNumberOfRatings", t);
                   (lit "ratingCounts", c) ]).
Proof.
  intros Ha Ht Hc. rewrite loads_output. rewrite reparse_canonical; [reflexivity|].
  cbn [canonical map fst forallb snd]. rewrite Ha, Ht, Hc. reflexivity.
Qed.

Section Output.

Variable py : Interpreter.
Variable decode_error : pystr -> pystr.

(** What is written, when [print] returns, is the text of
    [json.dumps] and the ending. *)
Lemma print_summary_return (pretty : bool) (summary : dict) (written : pystr) :
  print_summary py pretty summary = Return written ->
  written = output pretty summary.
Proof.
  unfold print_summary, json_dumps, print_stdout, output, bind.
  destruct (if short _ then None else dumps_limit py _ _); [discriminate|].
  destruct (if is_ascii _ then None else encode_error py _); [discriminate|].
  intros H; now injection H as <-.
Qed.

(** A record that extraction returns is as [json.loads] made it. *)
Lemma extract_canonical (text : pystr) (parsed : dict) :
  _extract_product_ratings py decode_error text = Return parsed ->
  canonical (PyDict parsed) = true.
Proof.
  unfold _extract_product_ratings.
  destruct (PRODUCT_RATINGS_PATTERN_search text) as [[i block]|]; [|discriminate].
  destruct (json_loads py (lit "[" ++ block ++ lit "]")) as [v| |exc] eqn:Hl;
    try discriminate.
  apply json_loads_loaded, loads_canonical in Hl.
  destruct v as [| | | | |[|[| | | | | |d] rest]|]; try discriminate.
  cbn [canonical forallb] in Hl. apply andb_true_iff in Hl as [Hd _].
  destruct (filter _ required_keys); [|discriminate].
  destruct (dict_get d (lit "ratingCounts")) as [[| | | | |counts|]|]; try discriminate.
  destruct (negb (length counts =? 5)%nat); [discriminate|].
  intros H; injection H as <-. exact Hd.
Qed.

Section Fetched.

Variable requests_get : pystr -> list (pystr * pystr) -> Z -> HttpOutcome.

(** A summary that [fetch_product_ratings] returns has the three
    members, in the order of the [return] statement, with values as
    [json.loads] made them. *)
Lemma fetch_return (app country : pystr) (summary : dict) :
  fetch_product_ratings py requests_get decode_error app country = Return summary ->
  exists a t c,
    summary = [ (lit "ratingAverage", a);
                (lit "totalNumberOfRatings", t);
                (lit "ratingCounts", c) ]
    /\ canonical a = true /\ canonical t = true /\ canonical c = true.
Proof.
  intros Hf. pose proof Hf as Hf'. revert Hf'. unfold fetch_product_ratings.
  destruct (requests_get _ _ _) as [what|status_code text] eqn:Hget; [discriminate|].
  destruct (raises_for_status status_code) eqn:Hst; [discriminate|].
  destruct (_extract_product_ratings py decode_error text) as [parsed|e] eqn:Hex;
    [|discriminate].
  intros _.
  destruct (fetch_extracted py decode_error requests_get app country text
              status_code parsed Hget Hst Hex) as (a & t & c & Ha & Ht & Hc & E).
  rewrite E in Hf. injection Hf as <-.
  pose proof (extract_canonical _ _ Hex) as Hcanon.
  exists a, t, c. split; [reflexivity|].
  split; [|split]; eapply dict_get_canonical; eassumption.
Qed.

(** A run that exits with status 0 has fetched a summary and printed
    it. *)
Lemma run_exit_zero (args : Namespace) :
  exit_code (run py requests_get decode_error args) = 0%Z ->
  exists summary,
    fetch_product_ratings py requests_get decode_error (app_id args) (country args)
      = Return summary
    /\ run py requests_get decode_error args
       = {| stdout := output (pretty args) summary; stderr := []; exit_code := 0 |}.
Proof.
  unfold run.
  destruct (fetch_product_ratings py requests_get decode_error (app_id args) (country args))
    as [summary|exc]; [|discriminate].
  destruct (print_summary py (pretty args) summary) as [written|exc] eqn:Hp; [|discriminate].
  intros _. exists summary. split; [reflexivity|].
  now rewrite (print_summary_return _ _ _ Hp).
Qed.

(** ... and every other run has printed nothing on standard output. *)
Lemma run_exit_other (args : Namespace) :
  exit_code (run py requests_get decode_error args) <> 0%Z ->
  stdout (run py requests_get decode_error args) = []
  /\ exit_code (run py requests_get decode_error args) = 1%Z.
Proof.
  unfold run.
  destruct (fetch_product_ratings py requests_get decode_error (app_id args) (country args))
    as [summary|exc]; [|now split].
  destruct (print_summary py (pretty args) summary) as [written|exc]; [|now split].
  cbn [exit_code]. contradiction.
Qed.

Section Invocation.

Variable usage_text : list pystr -> pystr.
Variable sys_argv : list pystr.

Lemma main_exit_zero (argv : option (list pystr)) (args : Namespace) (p : Process) :
  parse_args (effective_argv sys_argv argv) = Some (Args args) ->
  main py requests_get decode_error usage_text sys_argv argv = Some p ->
  exit_code p = 0%Z ->
  exists summary,
    fetch_product_ratings py requests_get decode_error (app_id args) (country args)
      = Return summary
    /\ p = {| stdout := output (pretty args) summary; stderr := []; exit_code := 0 |}.
Proof.
  intros Hargs Hmain Hexit. unfold main in Hmain. rewrite Hargs in Hmain.
  injection Hmain as <-. destruct (run_exit_zero args Hexit) as (summary & Hf & Hr).
  exists summary. now split.
Qed.

(** C3, as the code has it.  A successful run without [--pretty] prints
    the record on one line: no character below U+0020 is in it, so no
    line feed, carriage return or tab; it ends with the closing brace,
    with no line feed after it.  It does hold spaces: [json.dumps]
    writes one after each colon and each comma between members. *)
Theorem compact_output_one_line
    (argv : option (list pystr)) (args : Namespace) (p : Process) :
  parse_args (effective_argv sys_argv argv) = Some (Args args) ->
  pretty args = false ->
  main py requests_get decode_error usage_text sys_argv argv = Some p ->
  exit_code p = 0%Z ->
  no_control (stdout p)
  /\ (exists a t c,
        stdout p = jlit "{'ratingAverage': " ++ dumps None a
                   ++ jlit ", 'totalNumberOfRatings': " ++ dumps None t
                   ++ jlit ", 'ratingCounts': " ++ dumps None c ++ lit "}")
  /\ stderr p = [].
Proof.
  intros Hargs Hpretty Hmain Hexit.
  destruct (main_exit_zero argv args p Hargs Hmain Hexit) as (summary & Hf & ->).
  cbn [stdout stderr]. rewrite Hpretty.
  split; [|split; [|reflexivity]].
  - unfold output, dumps. rewrite app_nil_r. apply no_control_compact.
  - destruct (fetch_return _ _ _ Hf) as (a & t & c & -> & _).
    exists a, t, c. apply output_compact_text.
Qed.



(** What the command prints when it succeeds, with or without
    [--pretty], is read by [json.loads] as the object of the three
    members with exactly the values that were decoded from the page. *)
Theorem printed_record_reads_back
    (argv : option (list pystr)) (args : Namespace) (status_code : Z)
    (text : pystr) (parsed : dict) (p : Process) :
  parse_args (effective_argv sys_argv argv) = Some (Args args) ->
  requests_get (page_url (app_id args) (country args)) HEADERS 15
    = Response status_code text ->
  ~ (400 <= status_code < 600)%Z ->
  _extract_product_ratings py decode_error text = Return parsed ->
  main py requests_get decode_error usage_text sys_argv argv = Some p ->
  exit_code p = 0%Z ->
  exists a t c,
    dict_get parsed (lit "ratingAverage") = Some a
    /\ dict_get parsed (lit "totalNumberOfRatings") = Some t
    /\ dict_get parsed (lit "ratingCounts") = Some c
    /\ stderr p = []
    /\ loads (stdout p) = Some (PyDict [ (lit "ratingAverage", a);
                                         (lit "totalNumberOfRatings", t);
                                         (lit "ratingCounts", c) ]).
Proof.
  intros Hargs Hget Hst Hex Hmain Hexit. apply raises_for_status_false in Hst.
  destruct (fetch_extracted py decode_error requests_get _ _ _ _ _ Hget Hst Hex)
    as (a & t & c & Ha & Ht & Hc & Hf).
  pose proof (extract_canonical _ _ Hex) as Hcanon.
  destruct (main_exit_zero argv args p Hargs Hmain Hexit) as (summary & Hf' & ->).
  rewrite Hf in Hf'. injection Hf' as <-.
  exists a, t, c. split; [exact Ha|]. split; [exact Ht|]. split; [exact Hc|].
  split; [reflexivity|]. cbn [stdout].
  apply loads_output_exact; eapply dict_get_canonical; eassumption.
Qed.

End Invocation.

End Fetched.

End Output.

(* ================================================================== *)
(** * Further properties of the program *)
(* ================================================================== *)

(** The lazy star stops at the first place where the rest of the
    pattern matches. *)
Lemma lazy_dotall_first (close s u rest : pystr) :
  lazy_dotall close s = Some (u, rest) ->
  forall j, (j < length u)%nat -> strip_prefix close (skipn j s) = None.
Proof.
  revert u; induction s as [|c s IH]; intros u; cbn [lazy_dotall].
  - destruct (strip_prefix close []); [|discriminate].
    intros H; injection H as <- _. cbn [length]. lia.
  - destruct (strip_prefix close (c :: s)) eqn:E.
    + intros H; injection H as <- _. cbn [length]. lia.
    + destruct (lazy_dotall close s) as [[u' rest']|] eqn:El; [|discriminate].
      intros H; injection H as <- <-. intros [|j] Hj; [exact E|].
      cbn [skipn]. apply (IH u' eq_refl). cbn [length] in Hj. lia.
Qed.

Lemma lazy_dotall_app (close u rest : pystr) :
  (forall j, (j < length u)%nat -> strip_prefix close (skipn j (u ++ close ++ rest)) = None) ->
  lazy_dotall close (u ++ close ++ rest) = Some (u, rest).
Proof.
  induction u as [|c u IH]; intros H.
  - cbn [app]. destruct (close ++ rest) eqn:E; cbn [lazy_dotall];
      rewrite <- E, strip_prefix_app; reflexivity.
  - cbn [app lazy_dotall].
    pose proof (H 0%nat ltac:(cbn [length]; lia)) as H0. cbn [skipn app] in H0.
    rewrite H0, IH; [reflexivity|].
    intros j Hj. apply (H (S j)). cbn [length]. lia.
Qed.

Lemma match_at_first_close (u rest : pystr) :
  (forall j, (j < length u)%nat -> ~ occurs_at (lit "}]") (u ++ lit "}]" ++ rest) j) ->
  PRODUCT_RATINGS_PATTERN_match (marker ++ lit "{" ++ u ++ lit "}]" ++ rest)
  = Some (lit "{" ++ u ++ lit "}").
Proof.
  intros Hfirst. unfold PRODUCT_RATINGS_PATTERN_match.
  rewrite strip_prefix_app, strip_prefix_app, lazy_dotall_app; [reflexivity|].
  intros j Hj. apply strip_prefix_none. intros Ho. apply (Hfirst j Hj).
  apply occurs_at_skipn. split; [|exact Ho].
  rewrite length_app. lia.
Qed.

(** The group of the pattern runs from the brace after the marker to
    the first [}]] after it, whatever that brace and bracket close in
    the page: a record that holds an array of objects is cut inside
    it. *)
Theorem group_ends_at_first_close (s block : pystr) :
  PRODUCT_RATINGS_PATTERN_match s = Some block <->
  exists u rest,
    s = marker ++ lit "{" ++ u ++ lit "}]" ++ rest
    /\ block = lit "{" ++ u ++ lit "}"
    /\ forall j, (j < length u)%nat ->
                 ~ occurs_at (lit "}]") (u ++ lit "}]" ++ rest) j.
Proof.
  unfold PRODUCT_RATINGS_PATTERN_match. split.
  - destruct (strip_prefix marker s) as [s1|] eqn:E1; [|discriminate].
    destruct (strip_prefix (lit "{") s1) as [s2|] eqn:E2; [|discriminate].
    destruct (lazy_dotall (lit "}]") s2) as [[u rest]|] eqn:E3; [|discriminate].
    intros H; injection H as <-.
    apply strip_prefix_some in E1, E2. subst s s1.
    pose proof (lazy_dotall_some _ _ _ _ E3) as ->.
    exists u, rest. split; [reflexivity|]. split; [reflexivity|].
    intros j Hj Ho. apply occurs_at_skipn in Ho as [_ Ho].
    apply strip_prefix_none in Ho; [exact Ho|].
    exact (lazy_dotall_first _ _ _ _ E3 j Hj).
  - intros (u & rest & -> & -> & Hfirst).
    fold (PRODUCT_RATINGS_PATTERN_match (marker ++ lit "{" ++ u ++ lit "}]" ++ rest)).
    now apply match_at_first_close.
Qed.

Section MoreExtraction.

Variable py : Interpreter.
Variable decode_error : pystr -> pystr.

(** The check on [ratingCounts] of a record that has the three keys:
    the record is returned, as it is and with all its members, when
    [ratingCounts] is a list of five items; otherwise extraction fails
    with the shape error. *)
Theorem rating_counts_length_checked
    (text block : pystr) (i : nat) (parsed : dict) (rest : list Value)
    (rating_counts : Value) :
  PRODUCT_RATINGS_PATTERN_search text = Some (i, block) ->
  json_loads py (lit "[" ++ block ++ lit "]") = Loaded (PyList (PyDict parsed :: rest)) ->
  (forall key, In key required_keys -> dict_contains parsed key = true) ->
  dict_get parsed (lit "ratingCounts") = Some rating_counts ->
  _extract_product_ratings py decode_error text
  = match rating_counts with
    | PyList items =>
        if (length items =? 5)%nat then Return parsed
        else Raise (RuntimeError shape_message)
    | _ => Raise (RuntimeError shape_message)
    end.
Proof.
  intros Hs Hl Hkeys Hget.
  rewrite (extract_decoded py decode_error _ _ _ _ _ Hs Hl). unfold check_record.
  assert (Hf : filter (fun key => negb (dict_contains parsed key)) required_keys = []).
  { unfold required_keys. cbn [filter].
    rewrite !Hkeys by (unfold required_keys; simpl; auto). reflexivity. }
  rewrite Hf, Hget.
  destruct rating_counts as [| | | | |items|]; try reflexivity.
  now destruct (length items =? 5)%nat.
Qed.

Section MoreCommand.

Variable requests_get : pystr -> list (pystr * pystr) -> Z -> HttpOutcome.
Variable usage_text : list pystr -> pystr.
Variable sys_argv : list pystr.

(** A request that fails in the transport is reported with the text of
    its exception after [Failed to fetch App Store page: ], on standard
    error, with exit status 1. *)
Theorem transport_error_reported
    (argv : option (list pystr)) (args : Namespace) (what : pystr) :
  parse_args (effective_argv sys_argv argv) = Some (Args args) ->
  requests_get (page_url (app_id args) (country args)) HEADERS 15 = TransportError what ->
  main py requests_get decode_error usage_text sys_argv argv
  = Some {| stdout := [];
            stderr := lit "error: Failed to fetch App Store page: " ++ what ++ [10%N];
            exit_code := 1 |}.
Proof.
  intros Hargs Hget. unfold main, run, fetch_product_ratings.
  rewrite Hargs, Hget. cbn [exn_str]. now rewrite <- !app_assoc.
Qed.

(** [argv or sys.argv[1:]]: an empty list of arguments is as good as
    none, the command then reads the arguments of the process. *)
Theorem empty_argv_reads_sys_argv :
  main py requests_get decode_error usage_text sys_argv (Some [])
  = main py requests_get decode_error usage_text sys_argv None.
Proof. reflexivity. Qed.

(** With [app_id] as the only argument the storefront is [ua], the
    page requested is [https://apps.apple.com/ua/app/id<app_id>], and
    the output is compact: when the summary is fetched and [print]
    returns, standard output is the text of [json.dumps] without
    indent and without a line feed after it; when [print] raises,
    standard output is empty and the status is 1. *)
Theorem default_country_and_url (app : pystr) :
  is_option app = false ->
  parse_args [app] = Some (Args {| app_id := app; country := lit "ua"; pretty := false |})
  /\ page_url app (lit "ua") = lit "https://apps.apple.com/ua/app/id" ++ app
  /\ main py requests_get decode_error usage_text sys_argv (Some [app])
     = match fetch_product_ratings py requests_get decode_error app (lit "ua") with
       | Return summary =>
           match print_summary py false summary with
           | Return _ =>
               Some {| stdout := dumps None (PyDict summary); stderr := [];
                       exit_code := 0 |}
           | Raise exc =>
               Some {| stdout := []; stderr := traceback py exc; exit_code := 1 |}
           end
       | Raise exc =>
           Some {| stdout := []; stderr := lit "error: " ++ exn_str exc ++ [10%N];
                   exit_code := 1 |}
       end.
Proof.
  intros Hopt.
  assert (Hargs : parse_args [app]
                  = Some (Args {| app_id := app; country := lit "ua"; pretty := false |})).
  { unfold parse_args, modelled. cbn [forallb]. rewrite Hopt. cbn [negb orb andb consume].
    assert (Hp : str_eqb app (lit "--pretty") = false).
    { apply str_eqb_neq. intros ->. discriminate Hopt. }
    assert (Hc : str_eqb app (lit "--country") = false).
    { apply str_eqb_neq. intros ->. discriminate Hopt. }
    now rewrite Hp, Hc. }
  split; [exact Hargs|]. split; [reflexivity|].
  unfold main, run. cbn [effective_argv]. rewrite Hargs. cbn [app_id country pretty].
  destruct (fetch_product_ratings _ _ _ _ _) as [summary|exc]; [|reflexivity].
  destruct (print_summary py false summary) as [written|exc] eqn:Hw; [|reflexivity].
  apply print_summary_return in Hw. subst written.
  unfold output. now rewrite app_nil_r.
Qed.

End MoreCommand.

End MoreExtraction.

(* ================================================================== *)
(** * The command line *)
(* ================================================================== *)

Section CommandLine.

(** Induction over the arguments as [consume] takes them: one at a
    time, or an option with its value. *)
Lemma args_ind (P : list pystr -> Prop) :
  P [] ->
  (forall arg rest, P rest -> P (tl rest) -> P (arg :: rest)) ->
  forall args, P args.
Proof.
  intros Hnil Hcons args.
  assert (H : P args /\ P (tl args)); [|apply H].
  induction args as [|arg rest [IH1 IH2]]; [now split|].
  split; [now apply Hcons | exact IH1].
Qed.

(** The namespace with the flag set, and with another storefront. *)
Lemma consume_flag (args : list pystr) (id : option pystr) (ctry : pystr) (flag : bool)
    (ns : Namespace) :
  consume args id ctry flag = Args ns ->
  consume args id ctry true
  = Args {| app_id := app_id ns; country := country ns; pretty := true |}.
Proof.
  revert id ctry flag; induction args as [|arg rest IH IH2] using args_ind; intros id ctry flag; cbn [consume].
  - destruct id; [|discriminate]. intros H; injection H as <-. reflexivity.
  - destruct (str_eqb arg (lit "--pretty")); [apply IH|].
    destruct (str_eqb arg (lit "--country")).
    + destruct rest as [|v rest']; [discriminate|].
      destruct (is_option v); [discriminate|]. apply IH2.
    + destruct id; [discriminate|]. apply IH.
Qed.

Lemma consume_app_flag (args : list pystr) (id : option pystr) (ctry : pystr) (flag : bool)
    (ns : Namespace) :
  consume args id ctry flag = Args ns ->
  consume (args ++ [lit "--pretty"]) id ctry flag
  = Args {| app_id := app_id ns; country := country ns; pretty := true |}.
Proof.
  revert id ctry flag; induction args as [|arg rest IH IH2] using args_ind; intros id ctry flag;
    cbn [consume app].
  - destruct id; [|discriminate]. intros H; injection H as <-. reflexivity.
  - destruct (str_eqb arg (lit "--pretty")); [apply IH|].
    destruct (str_eqb arg (lit "--country")).
    + destruct rest as [|v rest']; [discriminate|]. cbn [app].
      destruct (is_option v); [discriminate|]. apply IH2.
    + destruct id; [discriminate|]. apply IH.
Qed.

Lemma consume_flag_in (args : list pystr) (id : option pystr) (ctry : pystr) (flag : bool)
    (ns : Namespace) :
  consume args id ctry flag = Args ns ->
  pretty ns = true <-> flag = true \/ In (lit "--pretty") args.
Proof.
  revert id ctry flag; induction args as [|arg rest IH IH2] using args_ind; intros id ctry flag; cbn [consume].
  - destruct id; [|discriminate]. intros H; injection H as <-. cbn [pretty In]. tauto.
  - destruct (str_eqb arg (lit "--pretty")) eqn:Ep.
    { apply str_eqb_eq in Ep. subst arg. intros H. apply IH in H. cbn [In]. tauto. }
    apply str_eqb_neq in Ep.
    destruct (str_eqb arg (lit "--country")).
    + destruct rest as [|v rest']; [discriminate|].
      destruct (is_option v) eqn:Ev; [discriminate|].
      intros H. apply IH2 in H. rewrite H. cbn [In tl].
      assert (v <> lit "--pretty") by (intros ->; discriminate Ev).
      intuition congruence.
    + destruct id; [discriminate|]. intros H. apply IH in H. rewrite H. cbn [In].
      intuition congruence.
Qed.

Lemma consume_app_country (args : list pystr) (id : option pystr) (ctry c : pystr)
    (flag : bool) (ns : Namespace) :
  is_option c = false ->
  consume args id ctry flag = Args ns ->
  consume (args ++ [lit "--country"; c]) id ctry flag
  = Args {| app_id := app_id ns; country := c; pretty := pretty ns |}.
Proof.
  intros Hc.
  revert id ctry flag; induction args as [|arg rest IH IH2] using args_ind; intros id ctry flag;
    cbn [consume app].
  - destruct id; [|discriminate]. intros H; injection H as <-.
    change (str_eqb (lit "--country") (lit "--pretty")) with false.
    change (str_eqb (lit "--country") (lit "--country")) with true.
    cbv iota. now rewrite Hc.
  - destruct (str_eqb arg (lit "--pretty")); [apply IH|].
    destruct (str_eqb arg (lit "--country")).
    + destruct rest as [|v rest']; [discriminate|]. cbn [app].
      destruct (is_option v); [discriminate|]. apply IH2.
    + destruct id; [discriminate|]. apply IH.
Qed.

Lemma consume_app_positional (args : list pystr) (id : option pystr) (ctry x : pystr)
    (flag : bool) (ns : Namespace) :
  is_option x = false ->
  consume args id ctry flag = Args ns ->
  consume (args ++ [x]) id ctry flag = UsageError.
Proof.
  intros Hx.
  assert (Hp : str_eqb x (lit "--pretty") = false).
  { apply str_eqb_neq. intros ->. discriminate Hx. }
  assert (Hc : str_eqb x (lit "--country") = false).
  { apply str_eqb_neq. intros ->. discriminate Hx. }
  revert id ctry flag; induction args as [|arg rest IH IH2] using args_ind; intros id ctry flag;
    cbn [consume app].
  - destruct id; [|discriminate]. intros _. now rewrite Hp, Hc.
  - destruct (str_eqb arg (lit "--pretty")); [apply IH|].
    destruct (str_eqb arg (lit "--country")).
    + destruct rest as [|v rest']; [discriminate|]. cbn [app].
      destruct (is_option v); [discriminate|]. apply IH2.
    + destruct id; [discriminate|]. apply IH.
Qed.

Lemma consume_options_only (args : list pystr) (ctry : pystr) (flag : bool) :
  forallb modelled args = true ->
  forallb is_option args = true -> consume args None ctry flag = UsageError.
Proof.
  revert ctry flag; induction args as [|arg rest IH IH2] using args_ind;
    intros ctry flag Hm Hall; [reflexivity|].
  cbn [forallb] in Hm, Hall.
  apply andb_true_iff in Hm as [Hmarg Hmrest].
  apply andb_true_iff in Hall as [Harg Hrest]. cbn [consume].
  unfold modelled in Hmarg. rewrite Harg in Hmarg. cbn [negb orb] in Hmarg.
  destruct (str_eqb arg (lit "--pretty")); [now apply IH|].
  cbn [orb] in Hmarg. rewrite Hmarg.
  destruct rest as [|v rest']; [reflexivity|].
  cbn [forallb] in Hrest. apply andb_true_iff in Hrest as [Hv _]. now rewrite Hv.
Qed.


Lemma consume_country_default (args : list pystr) (id : option pystr) (ctry : pystr)
    (flag : bool) (ns : Namespace) :
  consume args id ctry flag = Args ns ->
  ~ In (lit "--country") args -> country ns = ctry.
Proof.
  revert id ctry flag; induction args as [|arg rest IH IH2] using args_ind;
    intros id ctry flag; cbn [consume].
  - destruct id; [|discriminate]. intros H _; injection H as <-. reflexivity.
  - intros H Hin. cbn [In] in Hin.
    destruct (str_eqb arg (lit "--pretty")); [apply (IH _ _ _ H); tauto|].
    destruct (str_eqb arg (lit "--country")) eqn:Ec.
    + apply str_eqb_eq in Ec. tauto.
    + destruct id; [discriminate|]. apply (IH _ _ _ H); tauto.
Qed.

Lemma parse_args_modelled (argv : list pystr) (p : Parse) :
  parse_args argv = Some p ->
  forallb modelled argv = true /\ p = consume argv None (lit "ua") false.
Proof.
  unfold parse_args. destruct (forallb modelled argv); [|discriminate].
  intros H; injection H as <-. now split.
Qed.

Lemma parse_args_app (argv more : list pystr) (p : Parse) :
  parse_args argv = Some p ->
  forallb modelled more = true ->
  parse_args (argv ++ more) = Some (consume (argv ++ more) None (lit "ua") false).
Proof.
  intros H Hm. apply parse_args_modelled in H as [Ha _].
  unfold parse_args. now rewrite forallb_app, Ha, Hm.
Qed.

(** [--pretty] is a flag: it may stand before or after the other
    arguments, and the namespace has [pretty] set exactly when it is
    among them. *)
Theorem pretty_flag_anywhere (argv : list pystr) (ns : Namespace) :
  parse_args argv = Some (Args ns) ->
  (pretty ns = true <-> In (lit "--pretty") argv)
  /\ parse_args (lit "--pretty" :: argv)
     = Some (Args {| app_id := app_id ns; country := country ns; pretty := true |})
  /\ parse_args (argv ++ [lit "--pretty"])
     = Some (Args {| app_id := app_id ns; country := country ns; pretty := true |}).
Proof.
  intros H. pose proof (parse_args_modelled _ _ H) as [Hm Hc]. symmetry in Hc.
  split; [|split].
  - rewrite (consume_flag_in _ _ _ _ _ Hc). intuition discriminate.
  - unfold parse_args. cbn [forallb]. rewrite Hm.
    change (modelled (lit "--pretty")) with true. cbn [andb consume].
    change (str_eqb (lit "--pretty") (lit "--pretty")) with true. cbv iota.
    now rewrite (consume_flag _ _ _ _ _ Hc).
  - rewrite (parse_args_app _ [lit "--pretty"] _ H eq_refl).
    now rewrite (consume_app_flag _ _ _ _ _ Hc).
Qed.

(** The storefront is [ua] unless [--country] is given, and of several
    [--country] options the last one counts. *)
Theorem last_country_wins (argv : list pystr) (ns : Namespace) (c : pystr) :
  parse_args argv = Some (Args ns) ->
  is_option c = false ->
  (~ In (lit "--country") argv -> country ns = lit "ua")
  /\ parse_args (argv ++ [lit "--country"; c])
     = Some (Args {| app_id := app_id ns; country := c; pretty := pretty ns |}).
Proof.
  intros H Hopt. pose proof (parse_args_modelled _ _ H) as [Hm Hc]. symmetry in Hc.
  split.
  - now apply (consume_country_default _ _ _ _ _ Hc).
  - rewrite (parse_args_app _ [lit "--country"; c] _ H).
    + now rewrite (consume_app_country _ _ _ _ _ _ Hopt Hc).
    + cbn [forallb]. unfold modelled at 2. rewrite Hopt. reflexivity.
Qed.

Section Usage.

Variable py : Interpreter.
Variable requests_get : pystr -> list (pystr * pystr) -> Z -> HttpOutcome.
Variable decode_error : pystr -> pystr.
Variable usage_text : list pystr -> pystr.
Variable sys_argv : list pystr.

(** [app_id] is required and is the only positional argument: when
    every argument is an option, and when one more argument follows a
    complete command line, the command ends in the argument parser, with
    the usage message on standard error, nothing on standard output and
    exit status 2. *)
Theorem positional_argument_count
    (argv : option (list pystr)) (args : list pystr) :
  effective_argv sys_argv argv = args ->
  (forallb modelled args = true /\ forallb is_option args = true)
  \/ (exists ns before x, parse_args before = Some (Args ns)
                          /\ is_option x = false /\ args = before ++ [x]) ->
  main py requests_get decode_error usage_text sys_argv argv
  = Some {| stdout := []; stderr := usage_text args; exit_code := 2 |}.
Proof.
  intros Hargs Hcase. unfold main. rewrite Hargs.
  assert (Hp : parse_args args = Some UsageError); [|now rewrite Hp].
  destruct Hcase as [[Hm Hall]|(ns & before & x & Hb & Hx & ->)].
  - unfold parse_args. rewrite Hm. now rewrite consume_options_only.
  - pose proof (parse_args_modelled _ _ Hb) as [_ Hc]. symmetry in Hc.
    rewrite (parse_args_app _ [x] _ Hb).
    + now rewrite (consume_app_positional _ _ _ _ _ _ Hx Hc).
    + cbn [forallb]. unfold modelled. now rewrite Hx.
Qed.

(** The two streams are never both written: a run that prints the
    record prints nothing on standard error and exits with status 0, and
    every other run prints nothing on standard output and exits with
    status 1 or 2. *)
Theorem streams_and_exit_status (argv : option (list pystr)) (p : Process) :
  main py requests_get decode_error usage_text sys_argv argv = Some p ->
  (exit_code p = 0%Z /\ stderr p = [] /\ exists body, stdout p = lit "{" ++ body)
  \/ ((exit_code p = 1%Z \/ exit_code p = 2%Z) /\ stdout p = []).
Proof.
  unfold main, run.
  destruct (parse_args (effective_argv sys_argv argv)) as [[ns|]|]; [| |discriminate].
  - destruct (fetch_product_ratings py requests_get decode_error (app_id ns) (country ns))
      as [summary|exc] eqn:Hf.
    + destruct (print_summary py (pretty ns) summary) as [written|exc] eqn:Hw;
        intros H; injection H as <-.
      * left. split; [reflexivity|]. split; [reflexivity|]. cbn [stdout].
        apply print_summary_return in Hw. subst written.
        destruct (fetch_return _ _ _ _ _ _ Hf) as (a & t & c & -> & _).
        unfold output, dumps. cbn [iterencode].
        eexists. rewrite <- !app_assoc. reflexivity.
      * right. split; [now left | reflexivity].
    + intros H; injection H as <-. right. split; [now left | reflexivity].
  - intros H; injection H as <-. right. split; [now right | reflexivity].
Qed.

(** A record that is printed has a histogram of exactly five items. *)
Theorem summary_histogram_has_five_items (app country : pystr) (summary : dict) :
  fetch_product_ratings py requests_get decode_error app country = Return summary ->
  exists a t items,
    summary = [ (lit "ratingAverage", a);
                (lit "totalNumberOfRatings", t);
                (lit "ratingCounts", PyList items) ]
    /\ length items = 5%nat.
Proof.
  intros Hf. pose proof Hf as Hf'. revert Hf'. unfold fetch_product_ratings.
  destruct (requests_get _ _ _) as [what|status_code text] eqn:Hget; [discriminate|].
  destruct (raises_for_status status_code) eqn:Hst; [discriminate|].
  destruct (_extract_product_ratings py decode_error text) as [parsed|e] eqn:Hex;
    [|discriminate].
  intros _.
  pose proof (extract_outcome py decode_error text) as Hout. rewrite Hex in Hout.
  apply check_record_return in Hout as (_ & _ & items & Hitems & Hlen).
  destruct (fetch_extracted py decode_error requests_get app country text
              status_code parsed Hget Hst Hex) as (a & t & c & _ & _ & Hc & E).
  rewrite E in Hf. injection Hf as <-.
  rewrite Hitems in Hc. injection Hc as <-. now exists a, t, items.
Qed.

(** The message of an HTTP error tells the status code: responses with
    different codes from 400 to 599 give different errors. *)
Theorem status_code_in_message
    (other_get : pystr -> list (pystr * pystr) -> Z -> HttpOutcome)
    (app country text text' : pystr) (a b : Z) :
  requests_get (page_url app country) HEADERS 15 = Response a text ->
  other_get (page_url app country) HEADERS 15%Z = Response b text' ->
  (400 <= a < 600)%Z -> (400 <= b < 600)%Z ->
  fetch_product_ratings py requests_get decode_error app country
  = fetch_product_ratings py other_get decode_error app country ->
  a = b.
Proof.
  intros Ha Hb Hra Hrb. unfold fetch_product_ratings. rewrite Ha, Hb.
  unfold raises_for_status.
  replace (400 <=? a)%Z with true by (symmetry; apply Z.leb_le; lia).
  replace (a <? 600)%Z with true by (symmetry; apply Z.ltb_lt; lia).
  replace (400 <=? b)%Z with true by (symmetry; apply Z.leb_le; lia).
  replace (b <? 600)%Z with true by (symmetry; apply Z.ltb_lt; lia).
  cbn [andb]. intros H. injection H as H.
  pose proof (match_number_int a [] eq_refl) as Ma.
  pose proof (match_number_int b [] eq_refl) as Mb.
  rewrite H in Ma. rewrite Ma in Mb. now injection Mb.
Qed.

End Usage.

(** With [ensure_ascii=False] a string is written as it is between
    quotes, whatever its characters, when it has no quote, no backslash
    and no character below U+0020. *)
Theorem string_written_verbatim (indent : option nat) (s : pystr) :
  forallb (fun c => N.leb 32 c && negb (N.eqb c dquote) && negb (is_char c "\")) s = true ->
  dumps indent (PyStr s) = dquote :: s ++ [dquote].
Proof.
  intros H. unfold dumps. cbn [iterencode]. unfold encode_basestring. do 2 f_equal.
  induction s as [|c s IH]; [reflexivity|].
  cbn [forallb] in H. apply andb_true_iff in H as [Hc Hs].
  apply andb_true_iff in Hc as [Hc Hb]. apply andb_true_iff in Hc as [Hc Hq].
  cbn [flat_map]. rewrite (IH Hs). unfold escape_char.
  apply negb_true_iff in Hq, Hb. rewrite Hq, Hb.
  apply N.leb_le in Hc.
  replace (N.eqb c 8) with false by (symmetry; apply N.eqb_neq; lia).
  replace (N.eqb c 12) with false by (symmetry; apply N.eqb_neq; lia).
  replace (N.eqb c 10) with false by (symmetry; apply N.eqb_neq; lia).
  replace (N.eqb c 13) with false by (symmetry; apply N.eqb_neq; lia).
  replace (N.eqb c 9) with false by (symmetry; apply N.eqb_neq; lia).
  replace (N.ltb c 32) with false by (symmetry; apply N.ltb_ge; lia).
  reflexivity.
Qed.

End CommandLine.

(* ================================================================== *)
(** * Round trips *)
(* ================================================================== *)

(** [json.loads(json.dumps(v)) == v] for a canonical value, with any
    indentation and whatever whitespace follows the text: when
    [json.dumps] returns, [json.loads] gives the value back, unless it
    reaches a limit of the interpreter; it never rejects the text and
    never gives another value. *)
Theorem dumps_loads_round_trip
    (py : Interpreter) (indent : option nat) (v : Value) (w text : pystr) :
  canonical v = true ->
  forallb is_ws w = true ->
  json_dumps py indent v = Return text ->
  json_loads py (text ++ w) = Loaded v
  \/ (exists exc, loads_limit py (text ++ w) = Some exc
                  /\ json_loads py (text ++ w) = LoadsRaises exc).
Proof.
  intros Hv Hw. unfold json_dumps, json_loads.
  destruct (if short (dumps indent v) then None else dumps_limit py indent v);
    [discriminate|].
  intros H; injection H as <-.
  rewrite (loads_dumps indent v w Hw), reparse_canonical by exact Hv.
  destruct (short (dumps indent v ++ w)); [now left|].
  destruct (loads_limit py (dumps indent v ++ w)) as [exc|]; [right; now exists exc | now left].
Qed.

(** What [json.loads] returns is canonical: no [dict] has a key twice
    and every float is a binary64 in its one representation; written
    with [json.dumps] and read again it is the same value. *)
Theorem loads_is_stable (indent : option nat) (s : pystr) (v : Value) :
  loads s = Some v ->
  canonical v = true /\ loads (dumps indent v) = Some v.
Proof.
  intros H. apply loads_canonical in H. split; [exact H|].
  rewrite <- (app_nil_r (dumps indent v)).
  rewrite (loads_dumps indent v [] eq_refl). now rewrite reparse_canonical.
Qed.

(** The text of a value between brackets is read as the list of that
    one value. *)
Lemma loads_bracketed (indent : option nat) (level : nat) (v : Value) :
  loads (lit "[" ++ iterencode indent level v ++ lit "]") = Some (PyList [reparse v]).
Proof.
  unfold loads. cbn [lit list_ascii_of_string map app].
  change (startswith [65279%N] (cp "[" :: iterencode indent level v ++ [cp "]"])) with false.
  cbv iota.
  change (skip_ws (cp "[" :: iterencode indent level v ++ [cp "]"]))
    with (cp "[" :: iterencode indent level v ++ [cp "]"]).
  set (text := cp "[" :: iterencode indent level v ++ [cp "]"]).
  destruct (iterencode_start indent level v) as (c & r & Ec & Hc).
  assert (Hscan : scan_once (S (S (size v))) text = Ok (PyList [reparse v], [])).
  { unfold text.
    pose proof (scan_once_array_start (S (size v)) [] (iterencode indent level v ++ [cp "]"])
                  c (r ++ [cp "]"]) eq_refl) as Hstart.
    cbn [app] in Hstart. rewrite Hstart; [| now rewrite Ec | exact Hc].
    cbn [array_loop].
    rewrite (scan_once_encoded v indent level [cp "]"] (size v) eq_refl (le_n _)).
    reflexivity. }
  assert (Hfuel : scan_once (2 * length text + 1) text = Ok (PyList [reparse v], [])).
  { destruct (Nat.le_ge_cases (S (S (size v))) (2 * length text + 1)) as [Hle|Hle].
    - rewrite (proj1 (fuel_mono _ _ Hle)); [exact Hscan|]. now rewrite Hscan.
    - rewrite <- (proj1 (fuel_mono _ _ Hle)); [exact Hscan|].
      apply (proj1 (scan_fuel _)). lia. }
  rewrite Hfuel. reflexivity.
Qed.

(** The text of a [dict] is in braces. *)
Lemma dumps_dict_braces (indent : option nat) (items : dict) :
  exists u, dumps indent (PyDict items) = lit "{" ++ u ++ lit "}".
Proof.
  unfold dumps. destruct items as [|[k x] xs]; [now exists []|].
  cbn [iterencode].
  exists (newline_indent indent 1 ++ encode_basestring k ++ key_separator
          ++ iterencode indent 1 x
          ++ flat_map (fun kv => item_separator indent ++ newline_indent indent 1
                                 ++ encode_basestring (fst kv) ++ key_separator
                                 ++ iterencode indent 1 (snd kv)) xs
          ++ newline_indent indent 0).
  now rewrite <- !app_assoc.
Qed.

Section PageRoundTrip.

Variable py : Interpreter.
Variable decode_error : pystr -> pystr.

(** A page that carries the JSON text of a record after the marker is
    decoded to that record: when no marker stands before it and the
    record's text has no [}]] before its end, extraction comes to the
    checks on the record itself, unless [json.loads] reaches a limit of
    the interpreter on the text, whose exception is then raised. *)
Theorem record_page_round_trip
    (indent : option nat) (items : dict) (pre post u : pystr) :
  canonical (PyDict items) = true ->
  dumps indent (PyDict items) = lit "{" ++ u ++ lit "}" ->
  (forall j, (j < length pre)%nat ->
             ~ occurs_at (marker ++ lit "{")
                 (pre ++ marker ++ dumps indent (PyDict items) ++ lit "]" ++ post) j) ->
  (forall j, (j < length u)%nat -> ~ occurs_at (lit "}]") (u ++ lit "}]" ++ post) j) ->
  _extract_product_ratings py decode_error
    (pre ++ marker ++ dumps indent (PyDict items) ++ lit "]" ++ post)
  = match json_loads py (lit "[" ++ dumps indent (PyDict items) ++ lit "]") with
    | LoadsRaises exc => Raise exc
    | _ => check_record items
    end.
Proof.
  intros Hcanon Eu Hfirst Hclose.
  assert (Hm : PRODUCT_RATINGS_PATTERN_match
                 (marker ++ dumps indent (PyDict items) ++ lit "]" ++ post)
               = Some (dumps indent (PyDict items))).
  { rewrite Eu.
    transitivity (PRODUCT_RATINGS_PATTERN_match (marker ++ lit "{" ++ u ++ lit "}]" ++ post));
      [|now apply match_at_first_close].
    do 2 f_equal. now rewrite <- !app_assoc. }
  pose proof (search_first_match pre _ _ Hfirst Hm) as Hs.
  assert (Hl : loads (lit "[" ++ dumps indent (PyDict items) ++ lit "]")
               = Some (PyList [PyDict items])).
  { unfold dumps. rewrite loads_bracketed. now rewrite reparse_canonical. }
  destruct (json_loads py (lit "[" ++ dumps indent (PyDict items) ++ lit "]"))
    as [v| |exc] eqn:Hj.
  - pose proof (json_loads_loaded _ _ _ Hj) as Hv. rewrite Hl in Hv. injection Hv as <-.
    exact (extract_decoded py decode_error _ _ _ _ [] Hs Hj).
  - exfalso. revert Hj. unfold json_loads. rewrite Hl.
    now destruct (if short _ then None else loads_limit py _).
  - unfold _extract_product_ratings. now rewrite Hs, Hj.
Qed.

End PageRoundTrip.
(* ================================================================== *)
(** * Instances *)
(* ================================================================== *)

Lemma not_occurs_check (p s : pystr) (j : nat) :
  strip_prefix p (skipn j s) = None -> ~ occurs_at p s j.
Proof.
  intros H Ho. apply occurs_at_skipn in Ho as [_ Ho].
  now apply strip_prefix_none in H.
Qed.

Lemma not_occurs_before (p s : pystr) (n : nat) :
  forallb (fun j => match strip_prefix p (skipn j s) with None => true | Some _ => false end)
          (seq 0 n) = true ->
  forall j, (j < n)%nat -> ~ occurs_at p s j.
Proof.
  intros H j Hj. apply not_occurs_check.
  rewrite forallb_forall in H. specialize (H j).
  destruct (strip_prefix p (skipn j s)); [|reflexivity].
  discriminate H. apply in_seq. lia.
Qed.

(** C1 as stated fails: the page holds the scenario's block, but an
    earlier block is the one that is printed. *)
Lemma scenario_block_not_first :
  (exists pre post, two_block_page = pre ++ scenario_block ++ post)
  /\ main cpython_utf8 (fixed_page 200 two_block_page) no_text no_text []
          (Some [lit "1234567890"])
     = Some {| stdout := jlit "{'ratingAverage': 1.0, 'totalNumberOfRatings': 1, 'ratingCounts': [0, 0, 0, 0, 1]}";
               stderr := [];
               exit_code := 0 |}
  /\ str_eqb (jlit "{'ratingAverage': 1.0, 'totalNumberOfRatings': 1, 'ratingCounts': [0, 0, 0, 0, 1]}")
             scenario_output = false.
Proof.
  split; [|split].
  - exists (jlit "'contentType':'productRatings','marker':null,'items':[{'ratingAverage':1.0,'totalNumberOfRatings':1,'ratingCounts':[0,0,0,0,1]}]"), [].
    unfold two_block_page. now rewrite app_nil_r.
  - vm_compute. reflexivity.
  - vm_compute. reflexivity.
Qed.

Lemma scenario_first_block_witness :
  main cpython_utf8 (fixed_page 200 scenario_page) no_text no_text []
       (Some [lit "1234567890"])
  = Some {| stdout := scenario_output; stderr := []; exit_code := 0 |}.
Proof.
  apply (scenario_first_block cpython_utf8 no_text (fixed_page 200 scenario_page) no_text []
           (Some [lit "1234567890"])
           {| app_id := lit "1234567890"; country := lit "ua"; pretty := false |}
           200 (lit "<html>") (lit "</html>")).
  - reflexivity.
  - reflexivity.
  - reflexivity.
  - lia.
  - intros j Hj. apply not_occurs_check.
    do 6 (destruct j as [|j]; [reflexivity|]). simpl in Hj. lia.
Defined.



Lemma missing_keys_are_listed_witness :
  _extract_product_ratings cpython_utf8 no_text one_key_page
    = Raise (RuntimeError (lit "Missing expected keys in productRatings block: totalNumberOfRatings, ratingCounts"))
  /\ contains (lit "ratingAverage")
       (lit "Missing expected keys in productRatings block: totalNumberOfRatings, ratingCounts")
     = false
  /\ contains (lit "ratingCounts")
       (lit "Missing expected keys in productRatings block: totalNumberOfRatings, ratingCounts")
     = true.
Proof.
  destruct (missing_keys_are_listed cpython_utf8 no_text one_key_page
              (jlit "{'ratingAverage':4.5}") 0
              [(lit "ratingAverage", PyFloat (Fin false 5066549580791808 (-50)))] []
              [lit "totalNumberOfRatings"; lit "ratingCounts"])
    as (message & Hraise & Hmessage & _ & _ & Hkeys).
  - vm_compute. reflexivity.
  - vm_compute. reflexivity.
  - reflexivity.
  - discriminate.
  - rewrite Hraise, Hmessage. split; [reflexivity|]. split; reflexivity.
Defined.

Lemma block_not_found_witness :
  _extract_product_ratings cpython_utf8 no_text (lit "<html></html>")
  = Raise (RuntimeError not_found_message)
  /\ _extract_product_ratings cpython_utf8 no_text
       (jlit "'contentType':'productRatings','marker':'x','items':[{'ratingAverage':4.5}]")
     = Raise (RuntimeError not_found_message).
Proof.
  split.
  - apply (proj1 (block_not_found cpython_utf8 no_text)). vm_compute. reflexivity.
  - apply (proj1 (block_not_found cpython_utf8 no_text)). vm_compute. reflexivity.
Defined.

(** C7 as stated fails: a 304 is not a 2xx status, yet the fetch goes
    on to the extraction, and the error it ends with says nothing of the
    status. *)
Lemma status_304_not_reported :
  ~ (200 <= 304 < 300)%Z
  /\ fetch_product_ratings cpython_utf8 (fixed_page 304 []) no_text
       (lit "1234567890") (lit "ua")
     = Raise (RuntimeError not_found_message)
  /\ str_eqb not_found_message (lit "App Store page returned HTTP " ++ str_of_int 304) = false.
Proof.
  split; [lia|]. split; vm_compute; reflexivity.
Qed.

Lemma http_error_status_witness :
  main cpython_utf8 (fixed_page 404 []) no_text no_text [] (Some [lit "1234567890"])
  = Some {| stdout := [];
            stderr := lit "error: App Store page returned HTTP 404" ++ [10%N];
            exit_code := 1 |}.
Proof.
  apply (proj2 (proj2 (http_error_status cpython_utf8 no_text (fixed_page 404 []) no_text []
                         (Some [lit "1234567890"])
                         {| app_id := lit "1234567890"; country := lit "ua"; pretty := false |}
                         404 [] eq_refl eq_refl ltac:(lia)))).
  reflexivity.
Defined.



Lemma earliest_match_first_object_witness :
  PRODUCT_RATINGS_PATTERN_search (lit "<html>" ++ two_object_page)
  = Some (6%nat,
          jlit "{'ratingAverage':3.5,'totalNumberOfRatings':2,'ratingCounts':[1,0,0,0,1]},{'ratingAverage':2.0}")
  /\ _extract_product_ratings cpython_utf8 no_text (lit "<html>" ++ two_object_page)
     = check_record [ (lit "ratingAverage", PyFloat (Fin false 7881299347898368 (-51)));
                      (lit "totalNumberOfRatings", PyInt 2);
                      (lit "ratingCounts",
                       PyList [PyInt 1; PyInt 0; PyInt 0; PyInt 0; PyInt 1]) ].
Proof.
  destruct (earliest_match_first_object cpython_utf8 no_text) as (_ & Hsearch & Hfirst).
  assert (Hs : PRODUCT_RATINGS_PATTERN_search (lit "<html>" ++ two_object_page)
               = Some (6%nat,
                       jlit "{'ratingAverage':3.5,'totalNumberOfRatings':2,'ratingCounts':[1,0,0,0,1]},{'ratingAverage':2.0}")).
  { apply (Hsearch (lit "<html>")
             (jlit "'ratingAverage':3.5,'totalNumberOfRatings':2,'ratingCounts':[1,0,0,0,1]},{'ratingAverage':2.0")
             scenario_block).
    - apply not_occurs_before. vm_compute. reflexivity.
    - apply not_occurs_before. vm_compute. reflexivity. }
  split; [exact Hs|].
  destruct (Hfirst _ _ _
              (PyDict [ (lit "ratingAverage", PyFloat (Fin false 7881299347898368 (-51)));
                        (lit "totalNumberOfRatings", PyInt 2);
                        (lit "ratingCounts",
                         PyList [PyInt 1; PyInt 0; PyInt 0; PyInt 0; PyInt 1]) ])
              [PyDict [(lit "ratingAverage", PyFloat (Fin false 4503599627370496 (-51)))]]
              Hs)
    as (parsed & E & H).
  - vm_compute. reflexivity.
  - injection E as <-. exact H.
Defined.

(** C4: the check on [ratingCounts] looks at the number of items only.
    A histogram of five strings passes it, and the command prints it. *)
Theorem five_strings_accepted :
  _extract_product_ratings cpython_utf8 no_text five_strings_page
  = Return [ (lit "ratingAverage", PyFloat (Fin false 5066549580791808 (-50)));
             (lit "totalNumberOfRatings", PyInt 120);
             (lit "ratingCounts", PyList [PyStr (lit "a"); PyStr (lit "b"); PyStr (lit "c");
                                          PyStr (lit "d"); PyStr (lit "e")]) ]
  /\ main cpython_utf8 (fixed_page 200 five_strings_page) no_text no_text []
          (Some [lit "1234567890"])
     = Some {| stdout := jlit "{'ratingAverage': 4.5, 'totalNumberOfRatings': 120, 'ratingCounts': ['a', 'b', 'c', 'd', 'e']}";
               stderr := [];
               exit_code := 0 |}.
Proof. split; vm_compute; reflexivity. Qed.

(** C3 as stated fails: the line the command prints for the scenario
    holds spaces, one after each colon and comma. *)
Lemma compact_output_has_spaces :
  main cpython_utf8 (fixed_page 200 scenario_page) no_text no_text []
       (Some [lit "1234567890"])
  = Some {| stdout := scenario_output; stderr := []; exit_code := 0 |}
  /\ existsb is_ws scenario_output = true
  /\ length (filter (fun c => is_char c " ") scenario_output) = 9%nat.
Proof. repeat split; vm_compute; reflexivity. Qed.

Lemma compact_output_one_line_witness :
  no_control scenario_output
  /\ (exists a t c,
        scenario_output = jlit "{'ratingAverage': " ++ dumps None a
                          ++ jlit ", 'totalNumberOfRatings': " ++ dumps None t
                          ++ jlit ", 'ratingCounts': " ++ dumps None c ++ lit "}")
  /\ @nil codepoint = [].
Proof.
  apply (compact_output_one_line cpython_utf8 no_text (fixed_page 200 scenario_page)
           no_text [] (Some [lit "1234567890"])
           {| app_id := lit "1234567890"; country := lit "ua"; pretty := false |}
           {| stdout := scenario_output; stderr := []; exit_code := 0 |}).
  - reflexivity.
  - reflexivity.
  - vm_compute. reflexivity.
  - reflexivity.
Defined.



Lemma rating_counts_length_checked_witness :
  _extract_product_ratings cpython_utf8 no_text four_counts_page
  = Raise (RuntimeError shape_message).
Proof.
  apply (rating_counts_length_checked cpython_utf8 no_text four_counts_page
           (jlit "{'ratingAverage':4.5,'totalNumberOfRatings':115,'ratingCounts':[80,20,10,5]}")
           0
           [ (lit "ratingAverage", PyFloat (Fin false 5066549580791808 (-50)));
             (lit "totalNumberOfRatings", PyInt 115);
             (lit "ratingCounts", PyList [PyInt 80; PyInt 20; PyInt 10; PyInt 5]) ]
           []
           (PyList [PyInt 80; PyInt 20; PyInt 10; PyInt 5])).
  - vm_compute. reflexivity.
  - vm_compute. reflexivity.
  - intros key [<-|[<-|[<-|[]]]]; reflexivity.
  - reflexivity.
Defined.

Lemma transport_error_reported_witness :
  main cpython_utf8 no_network no_text no_text [] (Some [lit "1234567890"])
  = Some {| stdout := [];
            stderr := lit "error: Failed to fetch App Store page: timed out" ++ [10%N];
            exit_code := 1 |}.
Proof.
  apply (transport_error_reported cpython_utf8 no_text no_network no_text []
           (Some [lit "1234567890"])
           {| app_id := lit "1234567890"; country := lit "ua"; pretty := false |}
           (lit "timed out")).
  - reflexivity.
  - reflexivity.
Defined.

Lemma default_country_and_url_witness :
  parse_args [lit "1234567890"]
  = Some (Args {| app_id := lit "1234567890"; country := lit "ua"; pretty := false |})
  /\ page_url (lit "1234567890") (lit "ua") = lit "https://apps.apple.com/ua/app/id1234567890"
  /\ main cpython_utf8 (fixed_page 200 scenario_page) no_text no_text []
          (Some [lit "1234567890"])
     = Some {| stdout := scenario_output; stderr := []; exit_code := 0 |}.
Proof.
  destruct (default_country_and_url cpython_utf8 no_text (fixed_page 200 scenario_page)
              no_text [] (lit "1234567890") eq_refl) as (Hargs & Hurl & Hmain).
  split; [exact Hargs|]. split; [exact Hurl|].
  rewrite Hmain. vm_compute. reflexivity.
Defined.

Lemma pretty_flag_anywhere_witness :
  (pretty {| app_id := lit "1234567890"; country := lit "gb"; pretty := false |} = true
   <-> In (lit "--pretty") [lit "--country"; lit "gb"; lit "1234567890"])
  /\ parse_args [lit "--pretty"; lit "--country"; lit "gb"; lit "1234567890"]
     = Some (Args {| app_id := lit "1234567890"; country := lit "gb"; pretty := true |})
  /\ parse_args [lit "--country"; lit "gb"; lit "1234567890"; lit "--pretty"]
     = Some (Args {| app_id := lit "1234567890"; country := lit "gb"; pretty := true |}).
Proof.
  apply (pretty_flag_anywhere [lit "--country"; lit "gb"; lit "1234567890"]
           {| app_id := lit "1234567890"; country := lit "gb"; pretty := false |}).
  reflexivity.
Defined.

Lemma last_country_wins_witness :
  parse_args [lit "1234567890"; lit "--country"; lit "gb"; lit "--country"; lit "us"]
  = Some (Args {| app_id := lit "1234567890"; country := lit "us"; pretty := false |}).
Proof.
  apply (proj2 (last_country_wins [lit "1234567890"; lit "--country"; lit "gb"]
                  {| app_id := lit "1234567890"; country := lit "gb"; pretty := false |}
                  (lit "us") eq_refl eq_refl)).
Defined.

Lemma positional_argument_count_witness :
  main cpython_utf8 (fixed_page 200 scenario_page) no_text missing_app_id []
       (Some [lit "1234567890"; lit "us"])
  = Some {| stdout := [];
            stderr := missing_app_id [lit "1234567890"; lit "us"];
            exit_code := 2 |}.
Proof.
  apply (positional_argument_count cpython_utf8 (fixed_page 200 scenario_page) no_text
           missing_app_id [] (Some [lit "1234567890"; lit "us"])
           [lit "1234567890"; lit "us"] eq_refl).
  right.
  exists {| app_id := lit "1234567890"; country := lit "ua"; pretty := false |},
    [lit "1234567890"], (lit "us").
  repeat split.
Defined.

Lemma streams_and_exit_status_witness :
  (0 = 0 /\ @nil codepoint = [] /\ exists body, scenario_output = lit "{" ++ body)%Z
  \/ ((0 = 1 \/ 0 = 2) /\ scenario_output = [])%Z.
Proof.
  apply (streams_and_exit_status cpython_utf8 (fixed_page 200 scenario_page) no_text no_text
           [] (Some [lit "1234567890"])
           {| stdout := scenario_output; stderr := []; exit_code := 0 |}).
  vm_compute. reflexivity.
Defined.

Lemma summary_histogram_has_five_items_witness :
  exists a t items,
    [ (lit "ratingAverage", PyFloat (Fin false 5066549580791808 (-50)));
      (lit "totalNumberOfRatings", PyInt 120);
      (lit "ratingCounts", PyList [PyInt 80; PyInt 20; PyInt 10; PyInt 5; PyInt 5]) ]
    = [ (lit "ratingAverage", a);
        (lit "totalNumberOfRatings", t);
        (lit "ratingCounts", PyList items) ]
    /\ length items = 5%nat.
Proof.
  apply (summary_histogram_has_five_items cpython_utf8 (fixed_page 200 scenario_page) no_text
           (lit "1234567890") (lit "ua")).
  vm_compute. reflexivity.
Defined.

Lemma status_code_in_message_witness : 404%Z = 404%Z.
Proof.
  apply (status_code_in_message cpython_utf8 (fixed_page 404 []) no_text
           (fixed_page 404 (lit "not found")) (lit "1234567890") (lit "ua")
           [] (lit "not found") 404 404 eq_refl eq_refl); try lia.
  reflexivity.
Defined.

Lemma string_written_verbatim_witness :
  dumps None (PyStr [1050%N; 1080%N; 1111%N; 1074%N; 32%N; 128512%N])
  = dquote :: [1050%N; 1080%N; 1111%N; 1074%N; 32%N; 128512%N] ++ [dquote].
Proof.
  apply (string_written_verbatim None [1050%N; 1080%N; 1111%N; 1074%N; 32%N; 128512%N]).
  reflexivity.
Defined.

Lemma dumps_loads_round_trip_witness :
  json_loads cpython_utf8
    (dumps (Some 2%nat)
       (PyDict [ (lit "ratingAverage", PyFloat (Fin false 5066549580791808 (-50)));
                 (lit "totalNumberOfRatings", PyInt 120);
                 (lit "ratingCounts",
                  PyList [PyInt 80; PyInt 20; PyInt 10; PyInt 5; PyInt 5]) ])
     ++ [10%N])
  = Loaded (PyDict [ (lit "ratingAverage", PyFloat (Fin false 5066549580791808 (-50)));
                     (lit "totalNumberOfRatings", PyInt 120);
                     (lit "ratingCounts",
                      PyList [PyInt 80; PyInt 20; PyInt 10; PyInt 5; PyInt 5]) ]).
Proof.
  destruct (dumps_loads_round_trip cpython_utf8 (Some 2%nat)
              (PyDict [ (lit "ratingAverage", PyFloat (Fin false 5066549580791808 (-50)));
                        (lit "totalNumberOfRatings", PyInt 120);
                        (lit "ratingCounts",
                         PyList [PyInt 80; PyInt 20; PyInt 10; PyInt 5; PyInt 5]) ])
              [10%N]
              (dumps (Some 2%nat)
                 (PyDict [ (lit "ratingAverage", PyFloat (Fin false 5066549580791808 (-50)));
                           (lit "totalNumberOfRatings", PyInt 120);
                           (lit "ratingCounts",
                            PyList [PyInt 80; PyInt 20; PyInt 10; PyInt 5; PyInt 5]) ])))
    as [H|(exc & Hlimit & _)].
  - reflexivity.
  - reflexivity.
  - reflexivity.
  - exact H.
  - discriminate Hlimit.
Defined.

Lemma loads_is_stable_witness :
  canonical (PyList [PyFloat (Fin false 5066549580791808 (-50)); PyInt 120]) = true
  /\ loads (dumps None (PyList [PyFloat (Fin false 5066549580791808 (-50)); PyInt 120]))
     = Some (PyList [PyFloat (Fin false 5066549580791808 (-50)); PyInt 120]).
Proof.
  apply (loads_is_stable None (jlit "[4.50, 120]")).
  vm_compute. reflexivity.
Defined.

Lemma record_page_round_trip_witness :
  _extract_product_ratings cpython_utf8 no_text
    (lit "<html>" ++ marker ++ dumps None (PyDict small_record) ++ lit "]" ++ lit "</script>")
  = Return small_record.
Proof.
  rewrite (record_page_round_trip cpython_utf8 no_text None small_record (lit "<html>")
             (lit "</script>")
             (jlit "'ratingAverage': 4, 'totalNumberOfRatings': 9, 'ratingCounts': [5, 2, 1, 0, 1]")).
  - vm_compute. reflexivity.
  - reflexivity.
  - reflexivity.
  - apply not_occurs_before. vm_compute. reflexivity.
  - apply not_occurs_before. vm_compute. reflexivity.
Defined.

Lemma printed_record_reads_back_witness :
  exists a t c,
    dict_get [ (lit "ratingAverage", PyFloat (Fin false 5066549580791808 (-50)));
               (lit "totalNumberOfRatings", PyInt 120);
               (lit "ratingCounts", PyList [PyInt 80; PyInt 20; PyInt 10; PyInt 5; PyInt 5]) ]
             (lit "ratingAverage") = Some a
    /\ dict_get [ (lit "ratingAverage", PyFloat (Fin false 5066549580791808 (-50)));
                  (lit "totalNumberOfRatings", PyInt 120);
                  (lit "ratingCounts", PyList [PyInt 80; PyInt 20; PyInt 10; PyInt 5; PyInt 5]) ]
                (lit "totalNumberOfRatings") = Some t
    /\ dict_get [ (lit "ratingAverage", PyFloat (Fin false 5066549580791808 (-50)));
                  (lit "totalNumberOfRatings", PyInt 120);
                  (lit "ratingCounts", PyList [PyInt 80; PyInt 20; PyInt 10; PyInt 5; PyInt 5]) ]
                (lit "ratingCounts") = Some c
    /\ @nil codepoint = []
    /\ loads scenario_output = Some (PyDict [ (lit "ratingAverage", a);
                                              (lit "totalNumberOfRatings", t);
                                              (lit "ratingCounts", c) ]).
Proof.
  apply (printed_record_reads_back cpython_utf8 no_text (fixed_page 200 scenario_page)
           no_text [] (Some [lit "1234567890"])
           {| app_id := lit "1234567890"; country := lit "ua"; pretty := false |}
           200 scenario_page
           [ (lit "ratingAverage", PyFloat (Fin false 5066549580791808 (-50)));
             (lit "totalNumberOfRatings", PyInt 120);
             (lit "ratingCounts", PyList [PyInt 80; PyInt 20; PyInt 10; PyInt 5; PyInt 5]) ]
           {| stdout := scenario_output; stderr := []; exit_code := 0 |}).
  - reflexivity.
  - reflexivity.
  - lia.
  - vm_compute. reflexivity.
  - vm_compute. reflexivity.
  - reflexivity.
Defined.
